(** * elfrc: a resource compiler for ELF files

    A shallow embedding of [elfrc.c]: the manifest parser
    ([parseResourceFileData], [loadResources]), the resource registry
    ([registerResource]), the layout pass ([padding], [patchHeaders]) and the
    emitter ([writeSymbols], [writeStringTable], [writeFiles],
    [writeELFRelocatable]), followed by the properties of the layout and of
    the parser that the specification states.

    Conventions.
    - C integers are [Z] with the wrap-around written out: [to_uint] for
      [unsigned int], [to_int] for [int], [to_word] for the class-wide ELF
      types ([Elf32_Word] / [Elf64_Xword], [Elf32_Off] / [Elf64_Off]).
    - [char] arrays are [list ascii] of the array's length; a store outside
      the array is undefined behaviour and is reported as such ([Undefined]).
    - The linked list [resources] is a [list Resource] in registration order;
      [it->next != 0] is "the rest of the list is not empty".
    - The operating system is a parameter: [stat], the bytes [read] returns,
      whether [open], [write] and [close] succeed.  Of the messages, those
      of the parser on [stderr] are kept; the [printf]s under [verbosity] and
      the messages about failed input and output do not influence anything
      and are left out. *)

From stdpp Require Import base numbers list strings.
From Stdlib Require Import ZArith Lia Ascii.

Local Open Scope Z_scope.

(* ===================================================================== *)
(** * Machine integers *)
(* ===================================================================== *)

Module CInt.

(** [unsigned int]: 32 bits, arithmetic modulo 2^32. *)
Definition to_uint (z : Z) : Z := z mod 2 ^ 32.

(** [int]: 32 bits, two's complement; conversions keep the value modulo 2^32. *)
Definition to_int (z : Z) : Z := (z + 2 ^ 31) mod 2 ^ 32 - 2 ^ 31.

Definition INT_MAX : Z := 2 ^ 31 - 1.
Definition UINT_MAX : Z := 2 ^ 32 - 1.

End CInt.
Export CInt.

(* ===================================================================== *)
(** * The ELF types the program uses *)
(* ===================================================================== *)

(** The target: [ELF_CLASS] and, with it, the width of a pointer and of the
    class-wide ELF types. *)
Inductive ElfClass := ELFCLASS32 | ELFCLASS64.

(** [sizeof( void * ) * 8] *)
Definition pointer_bits (cls : ElfClass) : Z :=
  match cls with ELFCLASS32 => 32 | ELFCLASS64 => 64 end.

(** [Elf32_Word] / [Elf64_Xword] and [Elf32_Off] / [Elf64_Off] *)
Definition to_word (cls : ElfClass) (z : Z) : Z := z mod 2 ^ pointer_bits cls.

(** [sizeof( ElfW(Ehdr) )], [sizeof( ElfW(Shdr) )], [sizeof( ElfW(Sym) )] *)
Definition sizeof_Ehdr (cls : ElfClass) : Z :=
  match cls with ELFCLASS32 => 52 | ELFCLASS64 => 64 end.
Definition sizeof_Shdr (cls : ElfClass) : Z :=
  match cls with ELFCLASS32 => 40 | ELFCLASS64 => 64 end.
Definition sizeof_Sym (cls : ElfClass) : Z :=
  match cls with ELFCLASS32 => 16 | ELFCLASS64 => 24 end.

Record Ehdr := {
  e_ident : list Z;
  e_type : Z;
  e_machine : Z;
  e_version : Z;
  e_entry : Z;
  e_phoff : Z;
  e_shoff : Z;
  e_flags : Z;
  e_ehsize : Z;
  e_phentsize : Z;
  e_phnum : Z;
  e_shentsize : Z;
  e_shnum : Z;
  e_shstrndx : Z
}.

Record Shdr := {
  sh_name : Z;
  sh_type : Z;
  sh_flags : Z;
  sh_addr : Z;
  sh_offset : Z;
  sh_size : Z;
  sh_link : Z;
  sh_info : Z;
  sh_addralign : Z;
  sh_entsize : Z
}.

Record Sym := {
  st_name : Z;
  st_value : Z;
  st_size : Z;
  st_info : Z;
  st_other : Z;
  st_shndx : Z
}.

Definition set_sh_offset (v : Z) (h : Shdr) : Shdr :=
  {| sh_name := sh_name h; sh_type := sh_type h; sh_flags := sh_flags h;
     sh_addr := sh_addr h; sh_offset := v; sh_size := sh_size h;
     sh_link := sh_link h; sh_info := sh_info h;
     sh_addralign := sh_addralign h; sh_entsize := sh_entsize h |}.

Definition set_sh_size (v : Z) (h : Shdr) : Shdr :=
  {| sh_name := sh_name h; sh_type := sh_type h; sh_flags := sh_flags h;
     sh_addr := sh_addr h; sh_offset := sh_offset h; sh_size := v;
     sh_link := sh_link h; sh_info := sh_info h;
     sh_addralign := sh_addralign h; sh_entsize := sh_entsize h |}.

Definition set_sh_addralign (v : Z) (h : Shdr) : Shdr :=
  {| sh_name := sh_name h; sh_type := sh_type h; sh_flags := sh_flags h;
     sh_addr := sh_addr h; sh_offset := sh_offset h; sh_size := sh_size h;
     sh_link := sh_link h; sh_info := sh_info h;
     sh_addralign := v; sh_entsize := sh_entsize h |}.

(** Constants of [<elf.h>]. *)
Module ElfConst.
Definition ELFMAG : list Z := [127; 69; 76; 70].
Definition EV_CURRENT : Z := 1.
Definition EI_OSABI : nat := 7.
Definition EI_ABIVERSION : nat := 8.
Definition ET_REL : Z := 1.
Definition SHT_NULL : Z := 0.
Definition SHT_PROGBITS : Z := 1.
Definition SHT_SYMTAB : Z := 2.
Definition SHT_STRTAB : Z := 3.
Definition SHT_NOBITS : Z := 8.
Definition SHF_WRITE : Z := 1.
Definition SHF_ALLOC : Z := 2.
Definition SHF_EXECINSTR : Z := 4.
Definition STB_LOCAL : Z := 0.
Definition STB_GLOBAL : Z := 1.
Definition STT_NOTYPE : Z := 0.
Definition STT_OBJECT : Z := 1.
Definition STT_SECTION : Z := 3.
Definition STT_FILE : Z := 4.
Definition STV_DEFAULT : Z := 0.
Definition STN_UNDEF : Z := 0.
Definition SHN_ABS : Z := 65521.
Definition ELFCLASS (cls : ElfClass) : Z :=
  match cls with ELFCLASS32 => 1 | ELFCLASS64 => 2 end.
End ElfConst.
Import ElfConst.

(** [#define ELF_ST_INFO( type, bind ) (((type) << 4) + ((bind) & 0xf))];
    [st_info] is an [unsigned char]. *)
Definition ELF_ST_INFO (a b : Z) : Z := (Z.shiftl a 4 + Z.land b 15) mod 256.

(* ===================================================================== *)
(** * The resource registry *)
(* ===================================================================== *)

Inductive ResourceType := TEXT | BINARY.

(** [enum { FALSE = 0, TRUE = 1 }] *)
Definition FALSE : Z := 0.
Definition TRUE : Z := 1.

(** [struct Resource]; the [next] pointer is the tail of the list. *)
Record Resource := {
  type : ResourceType;
  symbol : string;
  symbolSize : Z;
  filename : string;
  size : Z;
  ignore : Z;
  payloadOffset : Z;
  strtabOffset : Z
}.

Definition set_ignore (v : Z) (r : Resource) : Resource :=
  {| type := type r; symbol := symbol r; symbolSize := symbolSize r;
     filename := filename r; size := size r; ignore := v;
     payloadOffset := payloadOffset r; strtabOffset := strtabOffset r |}.

Definition set_offsets (po so : Z) (r : Resource) : Resource :=
  {| type := type r; symbol := symbol r; symbolSize := symbolSize r;
     filename := filename r; size := size r; ignore := ignore r;
     payloadOffset := po; strtabOffset := so |}.

(** What [malloc] hands out: the fields [registerResource] does not assign
    keep whatever the block held before. *)
Record Block := {
  blk_ignore : Z;
  blk_payloadOffset : Z;
  blk_strtabOffset : Z
}.

Definition strlen (s : string) : Z := Z.of_nat (String.length s).

(** [registerResource( type, symbol, fn, filesize )], with the block that
    [malloc] returned.  [filesize] is an [unsigned int] parameter. *)
Definition registerResource (blk : Block) (ty : ResourceType)
    (sym fn : string) (filesize : Z) (resources : list Resource) : list Resource :=
  let sz := to_uint filesize in
  let res :=
    {| type := ty;
       symbol := sym;
       symbolSize := to_uint (strlen sym + 1);
       filename := fn;
       size := match ty with TEXT => to_uint (sz + 1) | BINARY => sz end;
       ignore := blk_ignore blk;
       payloadOffset := blk_payloadOffset blk;
       strtabOffset := blk_strtabOffset blk |} in
  resources ++ [res].

(** One call of [registerResource]. *)
Record Registration := {
  reg_block : Block;
  reg_type : ResourceType;
  reg_symbol : string;
  reg_filename : string;
  reg_filesize : Z
}.

Definition register (rs : list Resource) (q : Registration) : list Resource :=
  registerResource (reg_block q) (reg_type q) (reg_symbol q) (reg_filename q)
                   (reg_filesize q) rs.

(** The registry after a sequence of registrations, starting from
    [resources = 0]. *)
Definition register_all (qs : list Registration) : list Resource :=
  foldl register [] qs.

(** The record [registerResource] appends. *)
Definition registered (q : Registration) : Resource :=
  {| type := reg_type q;
     symbol := reg_symbol q;
     symbolSize := to_uint (strlen (reg_symbol q) + 1);
     filename := reg_filename q;
     size := match reg_type q with
             | TEXT => to_uint (to_uint (reg_filesize q) + 1)
             | BINARY => to_uint (reg_filesize q)
             end;
     ignore := blk_ignore (reg_block q);
     payloadOffset := blk_payloadOffset (reg_block q);
     strtabOffset := blk_strtabOffset (reg_block q) |}.

(* ===================================================================== *)
(** * The static container skeleton *)
(* ===================================================================== *)

Section Skeleton.

Variable cls : ElfClass.
(** [ELF_DATA]: [ELFDATA2LSB] or [ELFDATA2MSB]. *)
Variable ELF_DATA : Z.

Definition SECTIONHEADERCOUNT : Z := 9.
Definition TOTALHEADERSIZE : Z := sizeof_Ehdr cls + sizeof_Shdr cls * SECTIONHEADERCOUNT.

(** [ELFRC_VERSION] is 0.7 ([config.h], written by the Makefile). *)
Definition commentData : string :=
  "Created by elfrc 0.7 Copyright (C) 2006 Frerich Raabe <raabe@kde.org>".
(** [sizeof( commentData )]: the literal and its terminating NUL. *)
Definition sizeof_commentData : Z := strlen commentData + 1.

Definition shstrtabData : list string :=
  [EmptyString; ".text"; ".data"; ".bss"; ".rodata"; ".comment"; ".shstrtab";
   ".symtab"; ".strtab"].
(** [sizeof( shstrtabData )]: every name with its NUL. *)
Definition sizeof_shstrtabData : Z :=
  foldr (fun s acc => strlen s + 1 + acc) 0 shstrtabData.

(** One entry of [symtabData].  The initialisers are positional:
    [{ 0, 0, 0, info, STV_DEFAULT, shndx }], written in the order in which
    [Elf32_Sym] declares its fields (name, value, size, info, other, shndx).
    [Elf64_Sym] declares them in another order (name, info, other, shndx,
    value, size), so that there the fourth initialiser fills [st_shndx], the
    fifth [st_value] and the sixth [st_size]. *)
Definition mkSym (info shndx : Z) : Sym :=
  match cls with
  | ELFCLASS32 =>
      {| st_name := 0; st_value := 0; st_size := 0; st_info := info;
         st_other := STV_DEFAULT; st_shndx := shndx |}
  | ELFCLASS64 =>
      {| st_name := 0; st_info := 0; st_other := 0; st_shndx := info;
         st_value := STV_DEFAULT; st_size := shndx |}
  end.

(** [symtabData]: the fixed local symbols. *)
Definition symtabData : list Sym :=
  [ mkSym (ELF_ST_INFO STB_LOCAL STT_NOTYPE) STN_UNDEF;
    mkSym (ELF_ST_INFO STB_LOCAL STT_FILE) SHN_ABS;
    mkSym (ELF_ST_INFO STB_LOCAL STT_SECTION) 1;
    mkSym (ELF_ST_INFO STB_LOCAL STT_SECTION) 2;
    mkSym (ELF_ST_INFO STB_LOCAL STT_SECTION) 3;
    mkSym (ELF_ST_INFO STB_LOCAL STT_SECTION) 4;
    mkSym (ELF_ST_INFO STB_LOCAL STT_SECTION) 5 ].

(** [sizeof( symtabData )] *)
Definition sizeof_symtabData : Z := Z.of_nat (length symtabData) * sizeof_Sym cls.

Definition hdr0 : Ehdr :=
  {| e_ident := ELFMAG ++ [ELFCLASS cls; ELF_DATA; EV_CURRENT; 0; 0; 0; 0; 0; 0; 0; 0; 0];
     e_type := ET_REL;
     e_machine := 0;
     e_version := 1;
     e_entry := 0;
     e_phoff := 0;
     e_shoff := sizeof_Ehdr cls;
     e_flags := 0;
     e_ehsize := sizeof_Ehdr cls;
     e_phentsize := 0;
     e_phnum := 0;
     e_shentsize := sizeof_Shdr cls;
     e_shnum := SECTIONHEADERCOUNT;
     e_shstrndx := 6 |}.

Definition mkShdr (name ty flags offset sz link info align entsize : Z) : Shdr :=
  {| sh_name := name; sh_type := ty; sh_flags := flags; sh_addr := 0;
     sh_offset := offset; sh_size := sz; sh_link := link; sh_info := info;
     sh_addralign := align; sh_entsize := entsize |}.

Definition nullHeader : Shdr := mkShdr 0 SHT_NULL 0 0 0 0 0 0 0.
Definition textHeader : Shdr :=
  mkShdr 1 SHT_PROGBITS (Z.lor SHF_ALLOC SHF_EXECINSTR) 0 0 0 0 4 0.
Definition dataHeader : Shdr :=
  mkShdr 7 SHT_PROGBITS (Z.lor SHF_ALLOC SHF_WRITE) 0 0 0 0 4 0.
Definition bssHeader : Shdr :=
  mkShdr 13 SHT_NOBITS (Z.lor SHF_ALLOC SHF_WRITE) 0 0 0 0 4 0.
Definition rodataHeader0 : Shdr :=
  mkShdr 18 SHT_PROGBITS SHF_ALLOC
         (TOTALHEADERSIZE + sizeof_commentData + sizeof_shstrtabData) 0 0 0 0 0.
Definition commentHeader : Shdr :=
  mkShdr 26 SHT_PROGBITS 0 TOTALHEADERSIZE sizeof_commentData 0 0 1 0.
Definition shstrtabHeader : Shdr :=
  mkShdr 35 SHT_STRTAB 0 (TOTALHEADERSIZE + sizeof_commentData)
         sizeof_shstrtabData 0 0 1 0.
Definition symtabHeader0 : Shdr :=
  mkShdr 45 SHT_SYMTAB 0
         (TOTALHEADERSIZE + sizeof_commentData + sizeof_shstrtabData)
         0 8 7 4 (sizeof_Sym cls).
Definition strtabHeader0 : Shdr :=
  mkShdr 53 SHT_STRTAB 0
         (TOTALHEADERSIZE + sizeof_commentData + sizeof_shstrtabData)
         0 0 0 1 0.

End Skeleton.

(** The program's mutable globals. *)
Record Globals := {
  resources : list Resource;
  hdr : Ehdr;
  rodataHeader : Shdr;
  symtabHeader : Shdr;
  strtabHeader : Shdr
}.

Definition initial_globals (cls : ElfClass) (ELF_DATA : Z) : Globals :=
  {| resources := [];
     hdr := hdr0 cls ELF_DATA;
     rodataHeader := rodataHeader0 cls;
     symtabHeader := symtabHeader0 cls;
     strtabHeader := strtabHeader0 cls |}.

Definition set_resources (rs : list Resource) (g : Globals) : Globals :=
  {| resources := rs; hdr := hdr g; rodataHeader := rodataHeader g;
     symtabHeader := symtabHeader g; strtabHeader := strtabHeader g |}.

(* ===================================================================== *)
(** * Layout: [padding] and [patchHeaders] *)
(* ===================================================================== *)

Section Layout.

Variable cls : ElfClass.

(** [padding( size )], reading [rodataHeader.sh_addralign] from the globals.
    [~size] is taken at [unsigned int]; the rest is class-wide arithmetic,
    and the result is returned as [unsigned int]. *)
Definition padding (g : Globals) (sz : Z) : Z :=
  let al := sh_addralign (rodataHeader g) in
  if sz =? al then 0
  else to_uint (to_word cls (Z.land (to_word cls (al - 1)) (to_uint (Z.lnot sz)) + 1)).

(** The inner loop of the alignment computation:
    [while ( align < sizeof( void * ) * 8 && it->size > align ) align <<= 1;]
    The loop doubles [align] until it reaches the pointer width, so it runs
    at most [pointer_bits] times; [fuel] counts the iterations left. *)
Fixpoint align_loop (fuel : nat) (sz align : Z) : Z :=
  match fuel with
  | O => align
  | S fuel' =>
      if (align <? pointer_bits cls) && (align <? sz)
      then align_loop fuel' sz (to_int (Z.shiftl align 1))
      else align
  end.

Definition resource_align (sz : Z) : Z :=
  align_loop (Z.to_nat (pointer_bits cls)) sz 1.

(** [for ( it = resources; ...) { align = ...; if ( align > maxalign ) maxalign = align; }] *)
Fixpoint maxalign_loop (rs : list Resource) (maxalign : Z) : Z :=
  match rs with
  | [] => maxalign
  | it :: rest =>
      let align := resource_align (size it) in
      maxalign_loop rest (if align >? maxalign then align else maxalign)
  end.

(** The accumulators of the second loop of [patchHeaders]. *)
Record Sizes := {
  payloadSize : Z;
  symtabSize : Z;
  strtabSize : Z
}.

(** The second loop of [patchHeaders]; [g] carries the already patched
    [rodataHeader.sh_addralign] that [padding] reads. *)
Fixpoint layout_loop (g : Globals) (rs : list Resource) (acc : Sizes)
    : list Resource * Sizes :=
  match rs with
  | [] => ([], acc)
  | it :: rest =>
      let it' := set_offsets (to_uint (payloadSize acc)) (to_uint (strtabSize acc)) it in
      let payload1 := to_int (payloadSize acc + size it) in
      let symtab1 := to_int (symtabSize acc + sizeof_Sym cls) in
      let strtab1 := to_int (strtabSize acc + symbolSize it) in
      let payload2 :=
        match rest with
        | [] => payload1
        | _ :: _ => to_int (payload1 + padding g (size it))
        end in
      let '(rest', fin) :=
        layout_loop g rest
          {| payloadSize := payload2; symtabSize := symtab1; strtabSize := strtab1 |} in
      (it' :: rest', fin)
  end.

(** Where [patchHeaders] finds the machine and ABI fields when [archhdr] is
    null: the result of opening and reading [pathToSelf]. *)
Inductive SelfImage :=
| SelfOpenFails
| SelfReadFails
| SelfHeader (h : Ehdr).

Definition patch_arch (archhdr : Ehdr) (h : Ehdr) : Ehdr :=
  {| e_ident :=
       <[EI_ABIVERSION := nth EI_ABIVERSION (e_ident archhdr) 0]>
         (<[EI_OSABI := nth EI_OSABI (e_ident archhdr) 0]> (e_ident h));
     e_type := e_type h;
     e_machine := e_machine archhdr;
     e_version := e_version h;
     e_entry := e_entry h;
     e_phoff := e_phoff h;
     e_shoff := e_shoff h;
     e_flags := e_flags archhdr;
     e_ehsize := e_ehsize h;
     e_phentsize := e_phentsize h;
     e_phnum := e_phnum h;
     e_shentsize := e_shentsize h;
     e_shnum := e_shnum h;
     e_shstrndx := e_shstrndx h |}.

(** Everything in [patchHeaders] after the machine fields were found. *)
Definition patch_layout (archhdr : Ehdr) (g : Globals) : Globals :=
  let maxalign := maxalign_loop (resources g) 1 in
  (* Patch this first, since padding() depends on it. *)
  let g1 :=
    {| resources := resources g;
       hdr := patch_arch archhdr (hdr g);
       rodataHeader := set_sh_addralign (to_word cls maxalign) (rodataHeader g);
       symtabHeader := symtabHeader g;
       strtabHeader := strtabHeader g |} in
  let '(rs', fin) :=
    layout_loop g1 (resources g1)
      {| payloadSize := 0; symtabSize := to_int (sizeof_symtabData cls); strtabSize := 1 |} in
  {| resources := rs';
     hdr := hdr g1;
     rodataHeader :=
       set_sh_offset
         (to_word cls (sh_offset (rodataHeader g1)
                       + to_int (symtabSize fin + strtabSize fin)))
         (set_sh_size (to_word cls (payloadSize fin)) (rodataHeader g1));
     symtabHeader := set_sh_size (to_word cls (symtabSize fin)) (symtabHeader g1);
     strtabHeader :=
       set_sh_size (to_word cls (strtabSize fin))
         (set_sh_offset (to_word cls (sh_offset (strtabHeader g1) + symtabSize fin))
                        (strtabHeader g1)) |}.

(** [patchHeaders( pathToSelf, archhdr )]: the return value and the globals. *)
Definition patchHeaders (self : SelfImage) (archhdr : option Ehdr) (g : Globals)
    : Z * Globals :=
  match archhdr with
  | Some h => (0, patch_layout h g)
  | None =>
      match self with
      | SelfOpenFails => (-1, g)
      | SelfReadFails => (-1, g)
      | SelfHeader own => (0, patch_layout own g)
      end
  end.

End Layout.

(* ===================================================================== *)
(** * What the specification says about the layout *)
(* ===================================================================== *)

Definition zsum (l : list Z) : Z := foldr Z.add 0 l.

Section LayoutSpec.

Variable cls : ElfClass.

(** The padding gaps of a registry: one gap between each two consecutive
    resources, none after the last. *)
Fixpoint gaps (g : Globals) (rs : list Resource) : list Z :=
  match rs with
  | [] => []
  | it :: rest =>
      match rest with
      | [] => []
      | _ :: _ => padding cls g (size it) :: gaps g rest
      end
  end.

(** Sizes and gaps of the resources before the [i]-th. *)
Definition preceding_payload (g : Globals) (rs : list Resource) (i : nat) : Z :=
  zsum (map size (take i rs)) + zsum (take i (gaps g rs)).

(** All resource sizes and all gaps between them. *)
Definition declared_payload (g : Globals) (rs : list Resource) : Z :=
  zsum (map size rs) + zsum (gaps g rs).

(** Name lengths (with their NULs) of the resources before the [i]-th. *)
Definition preceding_names (rs : list Resource) (i : nat) : Z :=
  zsum (map symbolSize (take i rs)).

End LayoutSpec.

(** The string table a sequence of registrations asks for: the leading NUL
    and every symbol name with its NUL. *)
Definition names_size (qs : list Registration) : Z :=
  1 + zsum (map (fun q => strlen (reg_symbol q) + 1) qs).


(* ===================================================================== *)
(** * The manifest parser: [parseResourceFileData] *)
(* ===================================================================== *)

Definition NUL : ascii := "000"%char.
Definition TAB : ascii := "009"%char.
Definition NEWLINE : ascii := "010"%char.

(** The NUL-terminated string at the start of a [char] array. *)
Fixpoint cstring (buf : list ascii) : string :=
  match buf with
  | [] => EmptyString
  | c :: rest => if Ascii.eqb c NUL then EmptyString else String c (cstring rest)
  end.

(** [sizeof( buf )] of a [char] array. *)
Definition sizeof (buf : list ascii) : Z := Z.of_nat (length buf).

(** [buf[ i ] = c]; [None] when the index is outside the array. *)
Definition store (buf : list ascii) (i : Z) (c : ascii) : option (list ascii) :=
  if (0 <=? i) && (i <? sizeof buf) then Some (<[Z.to_nat i := c]> buf) else None.

(** [strncpy( buf, src, sizeof( buf ) )]: the characters of [src], then NULs
    up to the size of the array. *)
Definition strncpy (buf : list ascii) (src : string) : list ascii :=
  take (length buf) (String.list_ascii_of_string src ++ replicate (length buf) NUL).

Inductive ParserState := ReadType | ReadSymbol | ReadFilename.

(** The function-local statics of [parseResourceFileData]. *)
Record Statics := {
  state : ParserState;
  curType : list ascii;
  curTypeLen : Z;
  curSymbol : list ascii;
  curSymbolLen : Z;
  curFilename : list ascii;
  curFilenameLen : Z;
  lineno : Z
}.

(** The messages written to [stderr], with the arguments of their formats.
    A line number is the value [%d] prints. *)
Inductive Diagnostic :=
| EofExpectedSymbol
    (* Error: Unexpected end of resource file; expected symbol name. *)
| EofExpectedFilename
    (* Error: Unexpected end of resource file; expected file name. *)
| AccessFailed (line : Z) (fn : string)
    (* Error in line %d of resource file: failed to access %s: %s *)
| UnknownType (ty : string) (line : Z)
    (* Warning: Unknown resource type '%s' in line %d of resource file; assuming 'binary'. *)
| TypeGotNewline (line : Z)
    (* Error in line %d of resource file: expected tab and symbol name, got newline *)
| TypeTooLong (line : Z) (ty : string)
    (* Error in line %d of resource file: resource type '%s' is too long *)
| SymbolGotNewline (line : Z)
    (* Error in line %d of resource file: expected tab and filename, got newline *)
| SymbolTooLong (line : Z) (sym : string)
    (* Error in line %d of resource file: symbol '%s' is too long *)
| FilenameTooLong (line : Z) (fn : string)
    (* Error in line %d of resource file: file name '%s' is too long *).

(** The line number a diagnostic carries, if its format has one. *)
Definition diagnostic_line (d : Diagnostic) : option Z :=
  match d with
  | EofExpectedSymbol | EofExpectedFilename => None
  | AccessFailed n _ | UnknownType _ n | TypeGotNewline n | TypeTooLong n _
  | SymbolGotNewline n | SymbolTooLong n _ | FilenameTooLong n _ => Some n
  end.

(** What the parser reads and writes. *)
Record World := {
  statics : Statics;
  globals : Globals;
  stderr : list Diagnostic
}.

Inductive Buffer := CurType | CurSymbol | CurFilename.

(** How a call ends: it returns, or it stores outside an array. *)
Inductive Result :=
| Returned (ret : Z) (w : World)
| Undefined (buf : Buffer) (index : Z) (w : World).

(** One turn of the [for] loop: go on with the next character, or end the call. *)
Inductive Step :=
| Continue (w : World)
| Stop (r : Result).

Definition set_statics (p : Statics) (w : World) : World :=
  {| statics := p; globals := globals w; stderr := stderr w |}.

Definition fprintf_stderr (d : Diagnostic) (w : World) : World :=
  {| statics := statics w; globals := globals w; stderr := stderr w ++ [d] |}.

Definition set_curType (buf : list ascii) (p : Statics) : Statics :=
  {| state := state p; curType := buf; curTypeLen := curTypeLen p;
     curSymbol := curSymbol p; curSymbolLen := curSymbolLen p;
     curFilename := curFilename p; curFilenameLen := curFilenameLen p;
     lineno := lineno p |}.

Definition set_curSymbol (buf : list ascii) (p : Statics) : Statics :=
  {| state := state p; curType := curType p; curTypeLen := curTypeLen p;
     curSymbol := buf; curSymbolLen := curSymbolLen p;
     curFilename := curFilename p; curFilenameLen := curFilenameLen p;
     lineno := lineno p |}.

Definition set_curFilename (buf : list ascii) (p : Statics) : Statics :=
  {| state := state p; curType := curType p; curTypeLen := curTypeLen p;
     curSymbol := curSymbol p; curSymbolLen := curSymbolLen p;
     curFilename := buf; curFilenameLen := curFilenameLen p;
     lineno := lineno p |}.

Section Parser.

(** [PATH_MAX] of [<limits.h>]. *)
Variable PATH_MAX : Z.
(** [stat( path, &sb )]: [None] when it returns -1, else [sb.st_size]. *)
Variable stat : string -> option Z.
(** The block [malloc] returns for the [n]-th resource. *)
Variable malloc : nat -> Block.

(** The statics as the program starts: [state = ReadType], the lengths and
    [lineno] zero, the arrays zeroed. *)
Definition initial_statics : Statics :=
  {| state := ReadType;
     curType := replicate 32 NUL;
     curTypeLen := 0;
     curSymbol := replicate 256 NUL;
     curSymbolLen := 0;
     curFilename := replicate (Z.to_nat PATH_MAX) NUL;
     curFilenameLen := 0;
     lineno := 0 |}.

(** The end of a record, once [curFilename] is terminated: [stat], the
    choice of [type] (an [int] that starts as 0, which is [TEXT]) and
    [registerResource].  The right injection is the failure of [stat], after
    its diagnostic. *)
Definition finish_record (w : World) : World + World :=
  let p := statics w in
  match stat (cstring (curFilename p)) with
  | None =>
      inr (fprintf_stderr (AccessFailed (to_int (lineno p)) (cstring (curFilename p))) w)
  | Some st_size =>
      let ty :=
        if String.eqb (cstring (curType p)) "text" then TEXT
        else if String.eqb (cstring (curType p)) "binary" then BINARY
        else TEXT in
      let g := globals w in
      let rs :=
        registerResource (malloc (length (resources g))) ty
          (cstring (curSymbol p)) (cstring (curFilename p)) st_size (resources g) in
      inl {| statics := p; globals := set_resources rs g; stderr := stderr w |}
  end.

(** [parseResourceFileData( 0, 0 )]: the end of the input. *)
Definition parse_eof (w : World) : Result :=
  let p := statics w in
  match state p with
  | ReadType => Returned (-1) (fprintf_stderr EofExpectedSymbol w)
  | ReadSymbol => Returned (-1) (fprintf_stderr EofExpectedFilename w)
  | ReadFilename =>
      match store (curFilename p) (curFilenameLen p) NUL with
      | None => Undefined CurFilename (curFilenameLen p) w
      | Some buf =>
          match finish_record (set_statics (set_curFilename buf p) w) with
          | inr w' => Returned (-1) w'
          | inl w' => Returned 0 w'
          end
      end
  end.

(** The body of the [for] loop of [parseResourceFileData] at character [c]. *)
Definition parse_char (w : World) (c : ascii) : Step :=
  let p := statics w in
  match state p with
  | ReadType =>
      if Ascii.eqb c TAB then
        match store (curType p) (curTypeLen p) NUL with
        | None => Stop (Undefined CurType (curTypeLen p) w)
        | Some buf =>
            let unknown :=
              negb (String.eqb (cstring buf) "text")
              && negb (String.eqb (cstring buf) "binary") in
            let w1 :=
              if unknown
              then fprintf_stderr (UnknownType (cstring buf) (to_int (lineno p))) w
              else w in
            let buf1 := if unknown then strncpy buf "binary" else buf in
            Continue
              (set_statics
                 {| state := ReadSymbol; curType := buf1; curTypeLen := curTypeLen p;
                    curSymbol := curSymbol p; curSymbolLen := 0;
                    curFilename := curFilename p; curFilenameLen := curFilenameLen p;
                    lineno := lineno p |} w1)
        end
      else if Ascii.eqb c NEWLINE then
        Stop (Returned (-1) (fprintf_stderr (TypeGotNewline (to_int (lineno p))) w))
      else if curTypeLen p <? sizeof (curType p) then
        match store (curType p) (curTypeLen p) c with
        | None => Stop (Undefined CurType (curTypeLen p) w)
        | Some buf =>
            Continue
              (set_statics
                 {| state := state p; curType := buf;
                    curTypeLen := to_uint (curTypeLen p + 1);
                    curSymbol := curSymbol p; curSymbolLen := curSymbolLen p;
                    curFilename := curFilename p; curFilenameLen := curFilenameLen p;
                    lineno := lineno p |} w)
        end
      else
        match store (curType p) (to_uint (curTypeLen p - 1)) NUL with
        | None => Stop (Undefined CurType (to_uint (curTypeLen p - 1)) w)
        | Some buf =>
            Stop (Returned (-1)
                    (fprintf_stderr (TypeTooLong (to_int (lineno p)) (cstring buf))
                       (set_statics (set_curType buf p) w)))
        end
  | ReadSymbol =>
      if Ascii.eqb c TAB then
        match store (curSymbol p) (curSymbolLen p) NUL with
        | None => Stop (Undefined CurSymbol (curSymbolLen p) w)
        | Some buf =>
            Continue
              (set_statics
                 {| state := ReadFilename; curType := curType p; curTypeLen := curTypeLen p;
                    curSymbol := buf; curSymbolLen := curSymbolLen p;
                    curFilename := curFilename p; curFilenameLen := 0;
                    lineno := lineno p |} w)
        end
      else if Ascii.eqb c NEWLINE then
        Stop (Returned (-1) (fprintf_stderr (SymbolGotNewline (to_int (lineno p))) w))
      else if curSymbolLen p <? sizeof (curSymbol p) then
        match store (curSymbol p) (curSymbolLen p) c with
        | None => Stop (Undefined CurSymbol (curSymbolLen p) w)
        | Some buf =>
            Continue
              (set_statics
                 {| state := state p; curType := curType p; curTypeLen := curTypeLen p;
                    curSymbol := buf; curSymbolLen := to_uint (curSymbolLen p + 1);
                    curFilename := curFilename p; curFilenameLen := curFilenameLen p;
                    lineno := lineno p |} w)
        end
      else
        match store (curSymbol p) (to_uint (curSymbolLen p - 1)) NUL with
        | None => Stop (Undefined CurSymbol (to_uint (curSymbolLen p - 1)) w)
        | Some buf =>
            Stop (Returned (-1)
                    (fprintf_stderr (SymbolTooLong (to_int (lineno p)) (cstring buf))
                       (set_statics (set_curSymbol buf p) w)))
        end
  | ReadFilename =>
      if Ascii.eqb c NEWLINE then
        match store (curFilename p) (curFilenameLen p) NUL with
        | None => Stop (Undefined CurFilename (curFilenameLen p) w)
        | Some buf =>
            match finish_record (set_statics (set_curFilename buf p) w) with
            | inr w' => Stop (Returned (-1) w')
            | inl w' =>
                let p' := statics w' in
                Continue
                  (set_statics
                     {| state := ReadType; curType := curType p'; curTypeLen := 0;
                        curSymbol := curSymbol p'; curSymbolLen := curSymbolLen p';
                        curFilename := curFilename p'; curFilenameLen := curFilenameLen p';
                        lineno := to_uint (lineno p' + 1) |} w')
            end
        end
      else if curFilenameLen p <? sizeof (curFilename p) then
        match store (curFilename p) (curFilenameLen p) c with
        | None => Stop (Undefined CurFilename (curFilenameLen p) w)
        | Some buf =>
            Continue
              (set_statics
                 {| state := state p; curType := curType p; curTypeLen := curTypeLen p;
                    curSymbol := curSymbol p; curSymbolLen := curSymbolLen p;
                    curFilename := buf; curFilenameLen := to_uint (curFilenameLen p + 1);
                    lineno := lineno p |} w)
        end
      else
        match store (curFilename p) (to_uint (curFilenameLen p - 1)) NUL with
        | None => Stop (Undefined CurFilename (to_uint (curFilenameLen p - 1)) w)
        | Some buf =>
            Stop (Returned (-1)
                    (fprintf_stderr (FilenameTooLong (to_int (lineno p)) (cstring buf))
                       (set_statics (set_curFilename buf p) w)))
        end
  end.

(** [for ( it = buffer; it < buffer + len; ++it ) ...; return 0;] *)
Fixpoint parse_chars (w : World) (buffer : list ascii) : Result :=
  match buffer with
  | [] => Returned 0 w
  | c :: rest =>
      match parse_char w c with
      | Continue w' => parse_chars w' rest
      | Stop r => r
      end
  end.

(** [parseResourceFileData( buffer, len )]: [None] is the null buffer that
    signals the end of the input. *)
Definition parseResourceFileData (w : World) (buffer : option (list ascii)) : Result :=
  match buffer with
  | None => parse_eof w
  | Some chars => parse_chars w chars
  end.

End Parser.

(* ===================================================================== *)
(** * Files: what the operating system does *)
(* ===================================================================== *)

(** One call of [read]: it fails, or it delivers bytes (none at the end of
    the file), and never more of them than the buffer of the call holds. *)
Inductive ReadResult :=
| ReadError
| ReadBytes (bs : list ascii).

(** [open( path, O_RDONLY )]: it fails, or the descriptor will answer the
    successive calls of [read] as listed (and with 0 bytes after that), and
    [close] with [close_ret]. *)
Inductive OpenResult :=
| OpenFails
| Opened (reads : list ReadResult) (close_ret : Z).

(** What one call of [write] put into the destination. *)
Inductive Written :=
| WEhdr (h : Ehdr)
| WShdr (h : Shdr)
| WString (s : string)          (* a string literal with its NUL *)
| WStrings (l : list string)    (* NUL-separated literals with the final NUL *)
| WSyms (l : list Sym)
| WSym (s : Sym)
| WBytes (bs : list ascii).

(** The destination descriptor: what was written so far, and whether the
    coming calls of [write] succeed (all do once the list is used up). *)
Record OutFD := {
  written : list Written;
  write_oks : list bool
}.

(** [write( fd, ... )]: -1 on failure; the count it returns on success is
    only ever compared with -1 and is given as 0. *)
Definition write (fd : OutFD) (x : Written) : Z * OutFD :=
  match write_oks fd with
  | false :: oks => (-1, {| written := written fd; write_oks := oks |})
  | true :: oks => (0, {| written := written fd ++ [x]; write_oks := oks |})
  | [] => (0, {| written := written fd ++ [x]; write_oks := [] |})
  end.

(** The bytes among the written items. *)
Definition bytes_of (x : Written) : list ascii :=
  match x with WBytes bs => bs | _ => [] end.

Definition written_bytes (l : list Written) : list ascii :=
  concat (map bytes_of l).

(* ===================================================================== *)
(** * The emitter *)
(* ===================================================================== *)

Section Emitter.

Variable cls : ElfClass.
Variable ELF_DATA : Z.
(** [open( src, O_RDONLY )] while the payload is written. *)
Variable open_src : string -> OpenResult.

(** The [do ... while ( nread == sizeof( buffer ) )] loop of
    [copyFileToFD]; [true] when it ran to its end. *)
Fixpoint copy_loop (reads : list ReadResult) (dst : OutFD) : bool * OutFD :=
  match reads with
  | [] =>
      let '(r, dst') := write dst (WBytes []) in
      (negb (r =? -1), dst')
  | ReadError :: _ => (false, dst)
  | ReadBytes bs :: rest =>
      let buffer := take (Z.to_nat 8192) bs in
      let '(r, dst') := write dst (WBytes buffer) in
      if r =? -1 then (false, dst')
      else if sizeof buffer =? 8192 then copy_loop rest dst'
      else (true, dst')
  end.

(** [copyFileToFD( src, dst )] *)
Definition copyFileToFD (src : string) (dst : OutFD) : Z * OutFD :=
  match open_src src with
  | OpenFails => (-1, dst)
  | Opened reads close_ret =>
      let '(ok, dst') := copy_loop reads dst in
      if ok then (close_ret, dst') else (-1, dst')
  end.

(** [writeSymbols( fd )] *)
Fixpoint writeSymbols (rs : list Resource) (fd : OutFD) : Z * OutFD :=
  match rs with
  | [] => (0, fd)
  | it :: rest =>
      if ignore it =? TRUE then writeSymbols rest fd
      else
        let sym :=
          {| st_name := strtabOffset it;
             st_value := to_word cls (payloadOffset it);
             st_size := to_word cls (size it);
             st_info := ELF_ST_INFO STB_GLOBAL STT_OBJECT;
             st_other := STV_DEFAULT;
             st_shndx := 4 |} in
        let '(r, fd') := write fd (WSym sym) in
        if r =? -1 then (-1, fd') else writeSymbols rest fd'
  end.

Fixpoint writeStringTable_loop (rs : list Resource) (fd : OutFD) : Z * OutFD :=
  match rs with
  | [] => (0, fd)
  | it :: rest =>
      if ignore it =? TRUE then writeStringTable_loop rest fd
      else
        let name :=
          take (Z.to_nat (symbolSize it))
               (String.list_ascii_of_string (symbol it) ++ [NUL]) in
        let '(r, fd') := write fd (WBytes name) in
        if r =? -1 then (-1, fd') else writeStringTable_loop rest fd'
  end.

(** [writeStringTable( fd )] *)
Definition writeStringTable (rs : list Resource) (fd : OutFD) : Z * OutFD :=
  let '(r, fd') := write fd (WBytes [NUL]) in
  if r =? -1 then (-1, fd') else writeStringTable_loop rs fd'.

(** [for ( i = 0; i < npad; ++i ) write( fd, "\0", 1 );] *)
Fixpoint write_padding (npad : nat) (fd : OutFD) : OutFD :=
  match npad with
  | O => fd
  | S n => write_padding n (write fd (WBytes [NUL])).2
  end.

(** The body of the loop of [writeFiles( fd )] for the resource [it];
    [has_next] is [it->next != 0], and [g] is read by [padding]. *)
Definition writeFiles_body (g : Globals) (has_next : bool) (it : Resource)
    (fd : OutFD) : Resource * OutFD :=
  let '(r, fd1) := copyFileToFD (filename it) fd in
  if r =? -1 then (set_ignore TRUE it, fd1)
  else
    let fd2 :=
      match type it with
      | TEXT => (write fd1 (WBytes [NUL])).2
      | BINARY => fd1
      end in
    let fd3 :=
      if has_next then
        let npad := to_int (padding cls g (size it)) in
        write_padding (Z.to_nat npad) fd2
      else fd2 in
    (set_ignore FALSE it, fd3).

(** [for ( it = resources; it != 0; it = it->next ) ...] *)
Fixpoint writeFiles_loop (g : Globals) (rs : list Resource) (fd : OutFD)
    : list Resource * OutFD :=
  match rs with
  | [] => ([], fd)
  | it :: rest =>
      let has_next := match rest with [] => false | _ :: _ => true end in
      let '(it', fd1) := writeFiles_body g has_next it fd in
      let '(rest', fd') := writeFiles_loop g rest fd1 in
      (it' :: rest', fd')
  end.

(** [writeFiles( fd )]: always returns 0. *)
Definition writeFiles (g : Globals) (fd : OutFD) : Z * Globals * OutFD :=
  let '(rs', fd') := writeFiles_loop g (resources g) fd in
  (0, set_resources rs' g, fd').

(** The run of [WRITEBLOCK]s: stops at the first failed [write]. *)
Fixpoint write_blocks (bs : list Written) (fd : OutFD) : Z * OutFD :=
  match bs with
  | [] => (0, fd)
  | b :: rest =>
      let '(r, fd') := write fd b in
      if r =? -1 then (-1, fd') else write_blocks rest fd'
  end.

(** [writeELFRelocatable( fn )].  [dest] is the outcome of opening [fn]
    for writing: [None] when that fails, else the fate of the calls of
    [write]; [close_ret] is what closing it returns.  The descriptor in the
    result is absent when no file was opened. *)
Definition writeELFRelocatable (fn : option string) (dest : option (list bool))
    (close_ret : Z) (g : Globals) : Z * Globals * option OutFD :=
  match fn with
  | None => (0, g, None)
  | Some _ =>
      match dest with
      | None => (-1, g, None)
      | Some oks =>
          let fd := {| written := []; write_oks := oks |} in
          let '(r, fd1) :=
            write_blocks
              [ WEhdr (hdr g);
                WShdr nullHeader; WShdr textHeader; WShdr dataHeader;
                WShdr bssHeader; WShdr (rodataHeader g);
                WShdr (commentHeader cls); WShdr (shstrtabHeader cls);
                WShdr (symtabHeader g); WShdr (strtabHeader g);
                WString commentData; WStrings shstrtabData;
                WSyms (symtabData cls) ] fd in
          if r =? -1 then (-1, g, Some fd1)
          else
            let '(r, fd2) := writeSymbols (resources g) fd1 in
            if r =? -1 then (-1, g, Some fd2)
            else
              let '(r, fd3) := writeStringTable (resources g) fd2 in
              if r =? -1 then (-1, g, Some fd3)
              else
                let '(r, g', fd4) := writeFiles g fd3 in
                if r =? -1 then (-1, g', Some fd4)
                else if close_ret =? -1 then (-1, g', Some fd4)
                else (0, g', Some fd4)
      end
  end.

End Emitter.

(* ===================================================================== *)
(** * [loadResources] and [main] *)
(* ===================================================================== *)

Section Main.

Variable cls : ElfClass.
Variable ELF_DATA : Z.
Variable PATH_MAX : Z.
Variable stat : string -> option Z.
Variable malloc : nat -> Block.
Variable open_src : string -> OpenResult.

(** How the [do ... while ( nread == sizeof( buffer ) )] loop of
    [loadResources] ends. *)
Inductive LoadLoop :=
| LoopDone (w : World)
| LoopFailed (w : World)
| LoopUndefined (buf : Buffer) (index : Z) (w : World).

Fixpoint load_loop (reads : list ReadResult) (w : World) : LoadLoop :=
  match reads with
  | [] =>
      match parseResourceFileData stat malloc w (Some []) with
      | Returned r w' => if r =? -1 then LoopFailed w' else LoopDone w'
      | Undefined b i w' => LoopUndefined b i w'
      end
  | ReadError :: _ => LoopFailed w
  | ReadBytes bs :: rest =>
      let buffer := take (Z.to_nat 1024) bs in
      match parseResourceFileData stat malloc w (Some buffer) with
      | Returned r w' =>
          if r =? -1 then LoopFailed w'
          else if sizeof buffer =? 1024 then load_loop rest w'
          else LoopDone w'
      | Undefined b i w' => LoopUndefined b i w'
      end
  end.

(** [loadResources( fn )]; [manifest] is the outcome of opening [fn] (for
    the standard input the descriptor is there from the start).  The value
    of the final [parseResourceFileData( 0, 0 )] is not looked at. *)
Definition loadResources (manifest : OpenResult) (w : World) : Result :=
  match manifest with
  | OpenFails => Returned (-1) w
  | Opened reads close_ret =>
      match load_loop reads w with
      | LoopFailed w' => Returned (-1) w'
      | LoopUndefined b i w' => Undefined b i w'
      | LoopDone w' =>
          match parseResourceFileData stat malloc w' None with
          | Returned _ w'' => Returned close_ret w''
          | Undefined b i w'' => Undefined b i w''
          end
      end
  end.

(** [writeCHeader( fn )]: the text it writes is not part of the model, only
    whether it succeeds ([header_ret], from [fopen] and [fclose]). *)
Definition writeCHeader (fn : option string) (header_ret : Z) : Z :=
  match fn with
  | None => 0
  | Some _ => header_ret
  end.

(** The inputs of one run besides the file system. *)
Record Invocation := {
  objectOutput : option string;
  headerOutput : option string;
  pathToSelf : option string;        (* findPathToSelf( invocation ) *)
  self_image : SelfImage;            (* reading the ELF header of pathToSelf *)
  manifest : OpenResult;             (* the resource file, or standard input *)
  object_dest : option (list bool);  (* opening objectOutput for writing *)
  object_close : Z;
  header_ret : Z
}.

(** How [main] ends: with an exit value, the final state and the object
    file if one was created; or in a store outside an array. *)
Inductive Run :=
| Exited (ret : Z) (w : World) (object : option OutFD)
| Crashed (buf : Buffer) (index : Z) (w : World).

Definition initial_world : World :=
  {| statics := initial_statics PATH_MAX;
     globals := initial_globals cls ELF_DATA;
     stderr := [] |}.

(** [main], after the options were read.  The [stderr] of the final state
    holds the messages of the parser only: what the other functions print
    when an [open], a [read] or a [close] fails is not recorded. *)
Definition main (inv : Invocation) : Run :=
  let w := initial_world in
  match objectOutput inv, headerOutput inv with
  | None, None => Exited (-1) w None
  | _, _ =>
      match pathToSelf inv with
      | None => Exited (-1) w None
      | Some _ =>
          match loadResources (manifest inv) w with
          | Undefined b i w1 => Crashed b i w1
          | Returned r w1 =>
              if r =? -1 then Exited (-1) w1 None
              else
                let '(r, g2) := patchHeaders cls (self_image inv) None (globals w1) in
                let w2 := {| statics := statics w1; globals := g2; stderr := stderr w1 |} in
                if r =? -1 then Exited (-1) w2 None
                else
                  let '(r, g3, obj) :=
                    writeELFRelocatable cls open_src (objectOutput inv)
                      (object_dest inv) (object_close inv) g2 in
                  let w3 := {| statics := statics w1; globals := g3; stderr := stderr w1 |} in
                  if r =? -1 then Exited (-1) w3 obj
                  else if writeCHeader (headerOutput inv) (header_ret inv) =? -1
                  then Exited (-1) w3 obj
                  else Exited 0 w3 obj
          end
      end
  end.

(** The exit status the parent process sees: the low eight bits. *)
Definition exit_status (ret : Z) : Z := ret mod 256.

End Main.

(* ===================================================================== *)
(** * Feeding the parser in chunks *)
(* ===================================================================== *)

Section Feeding.

Variable stat : string -> option Z.
Variable malloc : nat -> Block.

(** The chunks go to [parseResourceFileData] one after the other; as in
    [loadResources], a call that returns -1 ends the run. *)
Fixpoint feed_chunks (w : World) (chunks : list (list ascii)) : Result :=
  match chunks with
  | [] => Returned 0 w
  | chunk :: rest =>
      match parseResourceFileData stat malloc w (Some chunk) with
      | Returned r w' => if r =? -1 then Returned r w' else feed_chunks w' rest
      | Undefined b i w' => Undefined b i w'
      end
  end.

(** All chunks, then the end-of-input signal. *)
Definition parse_manifest (w : World) (chunks : list (list ascii)) : Result :=
  match feed_chunks w chunks with
  | Returned r w' =>
      if r =? -1 then Returned r w'
      else parseResourceFileData stat malloc w' None
  | Undefined b i w' => Undefined b i w'
  end.

(** The registry a run leaves behind. *)
Definition registry_of (r : Result) : list Resource :=
  match r with
  | Returned _ w => resources (globals w)
  | Undefined _ _ w => resources (globals w)
  end.

End Feeding.

(** A call that has seen all its characters returns 0; one that ends
    early returns -1 or has left an array. *)
Definition ends_run (r : Result) : bool :=
  match r with
  | Returned ret _ => ret =? -1
  | Undefined _ _ _ => true
  end.

(** [lineno] counts the resources registered so far: it is 0 while the
    first line is read. *)
Definition lineno_counts (w : World) : Prop :=
  lineno (statics w) = to_uint (Z.of_nat (length (resources (globals w)))).

(* ===================================================================== *)
(** * The emitter, seen from one resource *)
(* ===================================================================== *)

Section EmitterSpec.

Variable cls : ElfClass.
Variable open_src : string -> OpenResult.

(** The turns of the loop of [writeFiles] for resources that all have a
    successor: what happens before the loop reaches a later resource. *)
Fixpoint writeFiles_before (g : Globals) (pre : list Resource) (fd : OutFD)
    : list Resource * OutFD :=
  match pre with
  | [] => ([], fd)
  | it :: rest =>
      let '(it', fd1) := writeFiles_body cls open_src g true it fd in
      let '(rest', fd') := writeFiles_before g rest fd1 in
      (it' :: rest', fd')
  end.

End EmitterSpec.

(* ===================================================================== *)
(** * Observing a run *)
(* ===================================================================== *)

Definition exit_of (r : Run) : option Z :=
  match r with
  | Exited ret _ _ => Some ret
  | Crashed _ _ _ => None
  end.

Definition world_of (r : Run) : World :=
  match r with
  | Exited _ w _ => w
  | Crashed _ _ w => w
  end.

Definition object_of (r : Run) : option OutFD :=
  match r with
  | Exited _ _ obj => obj
  | Crashed _ _ _ => None
  end.

Definition world_after (r : Result) : World :=
  match r with
  | Returned _ w => w
  | Undefined _ _ w => w
  end.

Definition return_of (r : Result) : option Z :=
  match r with
  | Returned ret _ => Some ret
  | Undefined _ _ _ => None
  end.

(** The store outside an array that ended a call, if one did. *)
Definition stray_store (r : Result) : option (Buffer * Z) :=
  match r with
  | Returned _ _ => None
  | Undefined buf i _ => Some (buf, i)
  end.

(** The resource symbols among the written items. *)
Definition symbols_of (l : list Written) : list Sym :=
  concat (map (fun x => match x with WSym s => [s] | _ => [] end) l).

(* ===================================================================== *)
(** * Sample inputs *)
(* ===================================================================== *)

Module Sample.

Definition bytes (s : string) : list ascii := String.list_ascii_of_string s.

(** [kind TAB symbol TAB path], without the line break. *)
Definition record (kind sym path : string) : list ascii :=
  bytes kind ++ [TAB] ++ bytes sym ++ [TAB] ++ bytes path.

Definition line (kind sym path : string) : list ascii :=
  record kind sym path ++ [NEWLINE].

(** Linux: [PATH_MAX] is 4096. *)
Definition PATH_MAX : Z := 4096.

(** A directory with [greeting.txt] (2 bytes), [a.bin] (3 bytes), [b.bin]
    (8 bytes), [empty.bin] (0 bytes), [one.bin] (1 byte) and [big.bin]
    (128 bytes). *)
Definition stat (path : string) : option Z :=
  if String.eqb path "greeting.txt" then Some 2
  else if String.eqb path "a.bin" then Some 3
  else if String.eqb path "b.bin" then Some 8
  else if String.eqb path "empty.bin" then Some 0
  else if String.eqb path "one.bin" then Some 1
  else if String.eqb path "big.bin" then Some 128
  else None.

Definition contents (path : string) : OpenResult :=
  if String.eqb path "greeting.txt" then Opened [ReadBytes (bytes "hi")] 0
  else if String.eqb path "a.bin" then Opened [ReadBytes (bytes "abc")] 0
  else if String.eqb path "b.bin" then Opened [ReadBytes (bytes "01234567")] 0
  else if String.eqb path "empty.bin" then Opened [] 0
  else if String.eqb path "one.bin" then Opened [ReadBytes (bytes "1")] 0
  else if String.eqb path "big.bin" then Opened [ReadBytes (replicate 128 "x"%char)] 0
  else OpenFails.

(** The same directory after [a.bin] was removed. *)
Definition contents_without_a (path : string) : OpenResult :=
  if String.eqb path "a.bin" then OpenFails else contents path.

(** The same directory when [a.bin] can be opened but not read. *)
Definition contents_unreadable_a (path : string) : OpenResult :=
  if String.eqb path "a.bin" then Opened [ReadError] 0 else contents path.

(** A heap whose blocks are zeroed, and one whose blocks hold old data. *)
Definition zeroed (n : nat) : Block :=
  {| blk_ignore := 0; blk_payloadOffset := 0; blk_strtabOffset := 0 |}.
Definition dirty (n : nat) : Block :=
  {| blk_ignore := TRUE; blk_payloadOffset := 0; blk_strtabOffset := 0 |}.

Definition reg (kind : ResourceType) (sym path : string) (filesize : Z) : Registration :=
  {| reg_block := zeroed 0; reg_type := kind; reg_symbol := sym;
     reg_filename := path; reg_filesize := filesize |}.

Definition cls : ElfClass := ELFCLASS64.
Definition ELFDATA2LSB : Z := 1.
Definition own_header : Ehdr := hdr0 cls ELFDATA2LSB.

Definition g0 : Globals := initial_globals cls ELFDATA2LSB.
Definition w0 : World := initial_world cls ELFDATA2LSB PATH_MAX.

(** Globals holding a registry. *)
Definition with_registry (qs : list Registration) : Globals :=
  set_resources (register_all qs) g0.

(** [elfrc -o out.o resfile], the resource file delivered by one [read]. *)
Definition invocation (resfile : list ascii) : Invocation :=
  {| objectOutput := Some "out.o"%string;
     headerOutput := None;
     pathToSelf := Some "/usr/bin/elfrc"%string;
     self_image := SelfHeader own_header;
     manifest := Opened [ReadBytes resfile] 0;
     object_dest := Some [];
     object_close := 0;
     header_ret := 0 |}.

Definition run (heap : nat -> Block) (fs : string -> OpenResult)
    (resfile : list ascii) : Run :=
  main cls ELFDATA2LSB PATH_MAX stat heap fs (invocation resfile).

Definition three : list Registration :=
  [reg BINARY "A" "a.bin" 3; reg TEXT "GREETING" "greeting.txt" 2; reg BINARY "B" "b.bin" 8].

Definition two : list Registration :=
  [reg BINARY "A" "a.bin" 3; reg BINARY "B" "b.bin" 8].


End Sample.
(* ===================================================================== *)
(** * Finding the program's own file: [findPathToSelf] *)
(* ===================================================================== *)

Definition SLASH : ascii := "/"%char.
Definition COLON : ascii := ":"%char.

(** What [findPathToSelf] returns: the static array [self] holding a C
    string; [self] full of characters, without a terminating NUL; [self]
    after [getcwd] failed, its contents unspecified; or the null pointer. *)
Inductive SelfPath :=
| SelfIs (path : string)
| SelfUnterminated
| SelfUnspecified
| SelfNull.

(** [strncat( dest, src, n )] on C strings: [dest] followed by at most [n]
    characters of [src]. *)
Definition strncat (dest src : string) (n : Z) : string :=
  String.append dest
    (String.string_of_list_ascii (take (Z.to_nat n) (String.list_ascii_of_string src))).

(** [snprintf( self, size, "%s/%s", dir, name )]: at most [size - 1]
    characters of the two strings with the slash between them. *)
Definition snprintf_path (size : Z) (dir name : string) : string :=
  String.string_of_list_ascii
    (take (Z.to_nat (size - 1))
       (String.list_ascii_of_string dir ++ SLASH :: String.list_ascii_of_string name)).

(** The tokens that [strtok( path, ":" )] and the calls [strtok( NULL, ":" )]
    after it deliver: the non-empty runs of characters between colons.
    [cur] holds the characters of the token that is being read. *)
Fixpoint strtok_all (cur : list ascii) (path : list ascii) : list string :=
  match path with
  | [] =>
      match cur with
      | [] => []
      | _ :: _ => [String.string_of_list_ascii cur]
      end
  | c :: rest =>
      if Ascii.eqb c COLON then
        match cur with
        | [] => strtok_all [] rest
        | _ :: _ => String.string_of_list_ascii cur :: strtok_all [] rest
        end
      else strtok_all (cur ++ [c]) rest
  end.

Section FindSelf.

Variable PATH_MAX : Z.
(** The working directory when [getcwd( self, sizeof( self ) )] succeeds,
    which it does only for a directory that fits the array. *)
Variable getcwd : option string.
(** [getenv( "PATH" )] *)
Variable getenv_PATH : option string.
(** [stat( self, &sb )]: [None] when it returns -1, else
    [S_ISREG( sb.st_mode )]. *)
Variable stat_reg : string -> option bool.

(** The loop over the tokens of [PATH]. *)
Fixpoint search_PATH (invocation : string) (dirs : list string) : SelfPath :=
  match dirs with
  | [] => SelfNull
  | it :: rest =>
      let self := snprintf_path PATH_MAX it invocation in
      match stat_reg self with
      | None => search_PATH invocation rest
      | Some true => SelfIs self
      | Some false => search_PATH invocation rest
      end
  end.

(** [findPathToSelf( invocation )]; the static array [self] is zeroed when
    the function is called, once, from [main].  [invocation[0]] of an empty
    string is its NUL. *)
Definition findPathToSelf (invocation : string) : SelfPath :=
  let inv := String.list_ascii_of_string invocation in
  if Ascii.eqb (hd NUL inv) SLASH then
    (* Invoked with absolute path, just use that. *)
    let self := strncpy (replicate (Z.to_nat PATH_MAX) NUL) invocation in
    if existsb (Ascii.eqb NUL) self then SelfIs (cstring self) else SelfUnterminated
  else if existsb (Ascii.eqb SLASH) inv then
    (* Invoked with relative path, append that to current working dir. *)
    match getcwd with
    | None => SelfUnspecified
    | Some cwd =>
        if strlen cwd <? PATH_MAX then
          let self1 := strncat cwd (String SLASH EmptyString) (PATH_MAX - strlen cwd - 1) in
          SelfIs (strncat self1 invocation (PATH_MAX - strlen self1 - 1))
        else SelfUnspecified
    end
  else
    (* Invoked with no path at all, scan through PATH to find us. *)
    match getenv_PATH with
    | Some path => search_PATH invocation (strtok_all [] (String.list_ascii_of_string path))
    | None => SelfNull
    end.

End FindSelf.

(* ===================================================================== *)
(** * What the emitter is expected to write *)
(* ===================================================================== *)

Section EmitterImage.

Variable cls : ElfClass.
Variable open_src : string -> OpenResult.

(** The file [path] can be read and holds [content]: it opens, [read]
    delivers the content in full buffers of 8192 bytes and a last shorter
    one (whatever the descriptor would deliver after that), and [close]
    does not fail. *)
Definition readable (path : string) (content : list ascii) : Prop :=
  exists (chunks : list (list ascii)) (last : list ascii)
         (rest : list ReadResult) (close_ret : Z),
    open_src path = Opened (map ReadBytes chunks ++ ReadBytes last :: rest) close_ret
    /\ Forall (fun chunk => sizeof chunk = 8192) chunks
    /\ sizeof last < 8192
    /\ close_ret <> -1
    /\ content = concat chunks ++ last.

(** The NUL appended to a resource of type [TEXT]. *)
Definition terminator (ty : ResourceType) : list ascii :=
  match ty with TEXT => [NUL] | BINARY => [] end.

(** The bytes of one resource in the payload: the file and its terminator. *)
Definition resource_bytes (file : string -> list ascii) (r : Resource) : list ascii :=
  file (filename r) ++ terminator (type r).

(** The payload of a registry whose files hold [file]: every resource, and
    between two resources as many NULs as [padding] says (taken as an
    [int], as [writeFiles] does). *)
Fixpoint payload_image (g : Globals) (file : string -> list ascii)
    (rs : list Resource) : list ascii :=
  match rs with
  | [] => []
  | it :: rest =>
      resource_bytes file it
      ++ match rest with
         | [] => []
         | _ :: _ => replicate (Z.to_nat (to_int (padding cls g (size it)))) NUL
         end
      ++ payload_image g file rest
  end.

(** The symbol-table entry of a resource. *)
Definition resource_symbol (r : Resource) : Sym :=
  {| st_name := strtabOffset r;
     st_value := to_word cls (payloadOffset r);
     st_size := to_word cls (size r);
     st_info := 17;
     st_other := 0;
     st_shndx := 4 |}.

(** The resources whose [ignore] flag is not [TRUE]. *)
Fixpoint unflagged (rs : list Resource) : list Resource :=
  match rs with
  | [] => []
  | r :: rest => if ignore r =? TRUE then unflagged rest else r :: unflagged rest
  end.

(** A symbol name as it stands in the string table. *)
Definition name_bytes (r : Resource) : list ascii :=
  String.list_ascii_of_string (symbol r) ++ [NUL].

(** The string table of a registry: the leading NUL and the names. *)
Definition strtab_image (rs : list Resource) : list ascii :=
  NUL :: concat (map name_bytes rs).

(** The number of bytes one call of [write] puts into the file: the
    [sizeof] of the block it was given, or the count of the call. *)
Definition file_size (x : Written) : Z :=
  match x with
  | WEhdr _ => sizeof_Ehdr cls
  | WShdr _ => sizeof_Shdr cls
  | WString s => strlen s + 1
  | WStrings l => foldr (fun s acc => strlen s + 1 + acc) 0 l
  | WSyms l => Z.of_nat (length l) * sizeof_Sym cls
  | WSym _ => sizeof_Sym cls
  | WBytes bs => sizeof bs
  end.

Definition file_length (l : list Written) : Z := zsum (map file_size l).

(** The items [items] are the contents of the section of header [h] in the
    file [file]: they begin [sh_offset] bytes into the file and are
    [sh_size] bytes long. *)
Definition section_of (h : Shdr) (file items : list Written) : Prop :=
  exists before after,
    file = before ++ items ++ after
    /\ file_length before = sh_offset h
    /\ file_length items = sh_size h.

(** Items that are runs of bytes. *)
Definition bytes_only (items : list Written) : Prop :=
  Forall (fun x => exists bs, x = WBytes bs) items.

(** [fd'] is [fd] after more runs of bytes were written. *)
Definition extends_by_bytes (fd fd' : OutFD) : Prop :=
  exists items, written fd' = written fd ++ items /\ bytes_only items.

End EmitterImage.

(* ===================================================================== *)
(** * The header file *)
(* ===================================================================== *)






(* ===================================================================== *)
(** * Well-formed lines of a resource file *)
(* ===================================================================== *)

(** [buf[ k ] = c0; buf[ k + 1 ] = c1; ...]: the characters of a field
    stored one after the other. *)
Fixpoint fill (buf : list ascii) (k : nat) (l : list ascii) : list ascii :=
  match l with
  | [] => buf
  | c :: rest => fill (<[k := c]> buf) (S k) rest
  end.

(** One line of a resource file, cut into its three fields. *)
Record ManifestLine := {
  ml_kind : list ascii;
  ml_symbol : list ascii;
  ml_path : list ascii
}.

(** The bytes of the line without its line break, and with it. *)
Definition record_bytes (m : ManifestLine) : list ascii :=
  ml_kind m ++ TAB :: ml_symbol m ++ TAB :: ml_path m.

Definition line_bytes (m : ManifestLine) : list ascii :=
  record_bytes m ++ [NEWLINE].

(** The type a kind field stands for: [TEXT] for the word text, [BINARY] for
    everything else. *)
Definition record_type (kind : list ascii) : ResourceType :=
  if String.eqb (String.string_of_list_ascii kind) "text" then TEXT else BINARY.

(** Whether the kind field is one of the two words the parser knows. *)
Definition known_kind (kind : list ascii) : bool :=
  String.eqb (String.string_of_list_ascii kind) "text"
  || String.eqb (String.string_of_list_ascii kind) "binary".

Section LineSpec.

Variable PATH_MAX : Z.
Variable stat : string -> option Z.
Variable malloc : nat -> Block.

(** The parser stands at the start of a line: it expects a kind field and
    has none of its characters yet.  The three arrays have their declared
    sizes; what they hold from earlier lines is arbitrary. *)
Definition at_line_start (w : World) : Prop :=
  state (statics w) = ReadType
  /\ curTypeLen (statics w) = 0
  /\ sizeof (curType (statics w)) = 32
  /\ sizeof (curSymbol (statics w)) = 256
  /\ sizeof (curFilename (statics w)) = PATH_MAX
  /\ PATH_MAX < 2 ^ 32.

(** A line the parser accepts: kind and symbol without TAB, line break and
    NUL, the path without line break and NUL (it may hold TABs), and each
    field shorter than its array. *)
Definition well_formed (m : ManifestLine) : Prop :=
  (TAB ∉ ml_kind m) /\ (NEWLINE ∉ ml_kind m) /\ (NUL ∉ ml_kind m)
  /\ sizeof (ml_kind m) < 32
  /\ (TAB ∉ ml_symbol m) /\ (NEWLINE ∉ ml_symbol m) /\ (NUL ∉ ml_symbol m)
  /\ sizeof (ml_symbol m) < 256
  /\ (NEWLINE ∉ ml_path m) /\ (NUL ∉ ml_path m)
  /\ sizeof (ml_path m) < PATH_MAX.

(** The registration a line asks for, when its file is there. *)
Definition register_line (rs : list Resource) (m : ManifestLine) : list Resource :=
  match stat (String.string_of_list_ascii (ml_path m)) with
  | Some st_size =>
      registerResource (malloc (length rs)) (record_type (ml_kind m))
        (String.string_of_list_ascii (ml_symbol m))
        (String.string_of_list_ascii (ml_path m)) st_size rs
  | None => rs
  end.

(** The warning a line with an unknown kind draws, on line [n]. *)
Definition kind_warning (m : ManifestLine) (n : Z) : list Diagnostic :=
  if known_kind (ml_kind m) then []
  else [UnknownType (String.string_of_list_ascii (ml_kind m)) n].

(** The warnings of a run of lines that starts on line [n]. *)
Fixpoint kind_warnings (ms : list ManifestLine) (n : Z) : list Diagnostic :=
  match ms with
  | [] => []
  | m :: rest => kind_warning m (to_int n) ++ kind_warnings rest (to_uint (n + 1))
  end.

(** The call of [registerResource] a line leads to, on the block [blk]. *)
Definition registration_of (blk : Block) (m : ManifestLine) : Registration :=
  {| reg_block := blk;
     reg_type := record_type (ml_kind m);
     reg_symbol := String.string_of_list_ascii (ml_symbol m);
     reg_filename := String.string_of_list_ascii (ml_path m);
     reg_filesize := default 0 (stat (String.string_of_list_ascii (ml_path m))) |}.

(** The calls a run of lines leads to, when [k] resources are registered
    already. *)
Fixpoint registrations (k : nat) (ms : list ManifestLine) : list Registration :=
  match ms with
  | [] => []
  | m :: rest => registration_of (malloc k) m :: registrations (S k) rest
  end.

End LineSpec.
(* ===================================================================== *)
(** * Sample resource files *)
(* ===================================================================== *)

Module SampleLines.

Import Sample.

Definition entry (kind sym path : string) : ManifestLine :=
  {| ml_kind := bytes kind; ml_symbol := bytes sym; ml_path := bytes path |}.

Definition a_bin : ManifestLine := entry "binary" "A" "a.bin".
Definition greeting : ManifestLine := entry "text" "GREETING" "greeting.txt".
(** A line with a kind the parser does not know. *)
Definition b_blob : ManifestLine := entry "blob" "B" "b.bin".
(** A line whose file is not in the sample directory. *)
Definition missing : ManifestLine := entry "binary" "M" "missing.bin".

Definition lines : list ManifestLine := [a_bin; greeting; b_blob].

(** What the files of the sample directory hold. *)
Definition file (path : string) : list ascii :=
  if String.eqb path "greeting.txt" then bytes "hi"
  else if String.eqb path "a.bin" then bytes "abc"
  else if String.eqb path "b.bin" then bytes "01234567"
  else [].

(** A file of 8195 bytes: [read] delivers a full buffer and a short one. *)
Definition long_file (path : string) : OpenResult :=
  Opened [ReadBytes (replicate (Z.to_nat 8192) "x"%char); ReadBytes (bytes "end")] 0.

(** An empty destination on which every [write] succeeds. *)
Definition empty_fd : OutFD := {| written := []; write_oks := [] |}.

(** The sample registry after [patchHeaders]. *)
Definition laid_out : Globals := patch_layout cls own_header (with_registry three).

(** A shell environment: the working directory, [PATH] with an empty
    entry, and a file system in which [/usr/local/bin/elfrc] is a directory
    and [/usr/bin/elfrc] and [/bin/elfrc] are regular files. *)
Definition cwd : option string := Some "/home/user"%string.
Definition PATH_entries : list string :=
  ["/usr/local/bin"; EmptyString; "/usr/bin"; "/bin"]%string.
Definition PATH_value : option string := Some "/usr/local/bin::/usr/bin:/bin"%string.
Definition stat_reg (path : string) : option bool :=
  if String.eqb path "/usr/local/bin/elfrc" then Some false
  else if String.eqb path "/usr/bin/elfrc" then Some true
  else if String.eqb path "/bin/elfrc" then Some true
  else None.

End SampleLines.

(** Closed statements about sample inputs are proved by running the model. *)
Ltac by_evaluation := repeat apply conj; vm_compute; reflexivity.
(* ===================================================================== *)
(** * Properties of the machine integers *)
(* ===================================================================== *)

Lemma to_uint_range z : 0 <= to_uint z < 2 ^ 32.
Proof. unfold to_uint. apply Z.mod_pos_bound. lia. Qed.

Lemma to_uint_small z : 0 <= z < 2 ^ 32 -> to_uint z = z.
Proof. intros H. unfold to_uint. apply Z.mod_small. exact H. Qed.

Lemma to_int_small z : - 2 ^ 31 <= z <= INT_MAX -> to_int z = z.
Proof.
  unfold to_int, INT_MAX. intros H.
  rewrite Z.mod_small by lia. lia.
Qed.

(* ===================================================================== *)
(** * Lists *)
(* ===================================================================== *)

Lemma map_lookup_Some {A B : Type} (f : A -> B) (l : list A) (i : nat) (x : A) :
  l !! i = Some x -> map f l !! i = Some (f x).
Proof.
  revert i. induction l as [|a l IH]; intros [|i] H; try done.
  - simpl in *. by injection H as ->.
  - simpl in *. by apply IH.
Qed.

Lemma map_lookup_inv {A B : Type} (f : A -> B) (l : list A) (i : nat) (y : B) :
  map f l !! i = Some y -> exists x, l !! i = Some x /\ y = f x.
Proof.
  revert i. induction l as [|a l IH]; intros [|i] H; try done.
  - simpl in *. injection H as <-. by exists a.
  - simpl in *. by apply IH.
Qed.

(* ===================================================================== *)
(** * Properties of the registry *)
(* ===================================================================== *)

Lemma foldl_register (qs : list Registration) (rs : list Resource) :
  foldl register rs qs = rs ++ map registered qs.
Proof.
  revert rs. induction qs as [|q qs IH]; intros rs; simpl.
  - by rewrite app_nil_r.
  - rewrite IH. unfold register at 1, registerResource.
    rewrite <- app_assoc. reflexivity.
Qed.

Lemma register_all_map (qs : list Registration) :
  register_all qs = map registered qs.
Proof. unfold register_all. by rewrite foldl_register. Qed.

Lemma register_all_length (qs : list Registration) :
  length (register_all qs) = length qs.
Proof. by rewrite register_all_map, length_map. Qed.

Lemma registered_size_range (q : Registration) : 0 <= size (registered q) < 2 ^ 32.
Proof. simpl. destruct (reg_type q); apply to_uint_range. Qed.

Lemma register_all_sizes (qs : list Registration) :
  Forall (fun r => 0 <= size r < 2 ^ 32) (register_all qs).
Proof.
  rewrite register_all_map. apply Forall_map, Forall_forall.
  intros q _. apply registered_size_range.
Qed.

(* ===================================================================== *)
(** * Properties of the layout pass *)
(* ===================================================================== *)

Section LayoutFacts.

Variable cls : ElfClass.

Lemma padding_nonneg (g : Globals) (sz : Z) : 0 <= padding cls g sz.
Proof.
  unfold padding. destruct (sz =? _); [lia|].
  apply to_uint_range.
Qed.

(** [padding] reads nothing but the patched alignment. *)
Lemma padding_ext (g1 g2 : Globals) (sz : Z) :
  sh_addralign (rodataHeader g1) = sh_addralign (rodataHeader g2) ->
  padding cls g1 sz = padding cls g2 sz.
Proof. intros H. unfold padding. by rewrite H. Qed.

Lemma gaps_ext (g1 g2 : Globals) (rs : list Resource) :
  sh_addralign (rodataHeader g1) = sh_addralign (rodataHeader g2) ->
  gaps cls g1 rs = gaps cls g2 rs.
Proof.
  intros H. induction rs as [|it rest IH]; [done|].
  simpl. destruct rest as [|it' rest']; [done|].
  by rewrite IH, (padding_ext g1 g2).
Qed.

Lemma gaps_nonneg (g : Globals) (rs : list Resource) : 0 <= zsum (gaps cls g rs).
Proof.
  induction rs as [|it rest IH]; simpl; [lia|].
  destruct rest as [|it' rest']; simpl in *; [lia|].
  pose proof (padding_nonneg g (size it)). lia.
Qed.

Lemma sizes_nonneg (rs : list Resource) :
  Forall (fun r => 0 <= size r < 2 ^ 32) rs -> 0 <= zsum (map size rs).
Proof.
  induction 1 as [|r rs Hr _ IH]; simpl; lia.
Qed.

Lemma layout_loop_length (g : Globals) (rs : list Resource) (acc : Sizes) :
  length (layout_loop cls g rs acc).1 = length rs.
Proof.
  revert acc. induction rs as [|it rest IH]; intros acc; [done|].
  cbn [layout_loop].
  match goal with |- context [layout_loop cls g rest ?a] =>
    specialize (IH a); destruct (layout_loop cls g rest a) as [rest' fin] end.
  simpl in *. by rewrite IH.
Qed.

(** The loop changes the two offset fields and nothing else. *)
Lemma layout_loop_fields (g : Globals) (rs : list Resource) (acc : Sizes) (i : nat) (r' : Resource) :
  (layout_loop cls g rs acc).1 !! i = Some r' ->
  exists r, rs !! i = Some r /\
    r' = set_offsets (payloadOffset r') (strtabOffset r') r.
Proof.
  revert acc i. induction rs as [|it rest IH]; intros acc i; [done|].
  cbn [layout_loop].
  match goal with |- context [layout_loop cls g rest ?a] =>
    specialize (IH a); destruct (layout_loop cls g rest a) as [rest' fin] end.
  destruct i as [|i]; simpl.
  - intros [= <-]. exists it. split; [done|]. reflexivity.
  - intros H. apply (IH i H).
Qed.

(** The payload accumulator, as long as it stays within [int]. *)
Lemma layout_loop_payload (g : Globals) (rs : list Resource) (acc : Sizes) :
  Forall (fun r => 0 <= size r < 2 ^ 32) rs ->
  0 <= payloadSize acc ->
  payloadSize acc + declared_payload cls g rs <= INT_MAX ->
  payloadSize (layout_loop cls g rs acc).2 = payloadSize acc + declared_payload cls g rs
  /\ forall i r, (layout_loop cls g rs acc).1 !! i = Some r ->
       payloadOffset r = payloadSize acc + preceding_payload cls g rs i.
Proof.
  intros Hrs. revert acc.
  induction Hrs as [|it rest Hit Hrest IH]; intros acc Hacc Hfit.
  - simpl. split; [unfold declared_payload; simpl; lia | done].
  - unfold declared_payload in Hfit. cbn [map zsum foldr] in Hfit.
    fold (zsum (map size rest)) in Hfit.
    pose proof (sizes_nonneg rest Hrest) as Hs.
    pose proof (gaps_nonneg g rest) as Hg.
    pose proof (gaps_nonneg g (it :: rest)) as Hg'.
    pose proof (padding_nonneg g (size it)) as Hp.
    assert (Hgap : zsum (gaps cls g (it :: rest)) =
                   match rest with [] => 0 | _ :: _ => padding cls g (size it) end
                   + zsum (gaps cls g rest)).
    { destruct rest; simpl; lia. }
    rewrite Hgap in Hfit.
    cbn [layout_loop].
    set (p1 := to_int (payloadSize acc + size it)).
    assert (Hp1 : p1 = payloadSize acc + size it).
    { subst p1. apply to_int_small. unfold INT_MAX in *. destruct rest; lia. }
    set (p2 := match rest with [] => p1 | _ :: _ => to_int (p1 + padding cls g (size it)) end).
    assert (Hp2 : p2 = payloadSize acc + size it
                       + match rest with [] => 0 | _ :: _ => padding cls g (size it) end).
    { subst p2. destruct rest; [lia|].
      rewrite Hp1. apply to_int_small. unfold INT_MAX in *. lia. }
    match goal with |- context [layout_loop cls g rest ?a] =>
      specialize (IH a); pose proof (layout_loop_length g rest a) as Hlen;
      destruct (layout_loop cls g rest a) as [rest' fin] end.
    cbn [payloadSize] in IH.
    destruct IH as [IH1 IH2].
    { rewrite Hp2. destruct rest; lia. }
    { rewrite Hp2. unfold declared_payload. lia. }
    cbn [fst snd] in *. split.
    + rewrite IH1, Hp2. unfold declared_payload.
      cbn [map zsum foldr]. fold (zsum (map size rest)).
      fold (zsum (gaps cls g (it :: rest))). rewrite Hgap. lia.
    + intros [|i] r.
      * simpl. intros [= <-]. simpl. unfold preceding_payload. simpl.
        rewrite to_uint_small; [lia|]. unfold INT_MAX in *. destruct rest; lia.
      * simpl. intros H. rewrite (IH2 i r H), Hp2.
        unfold preceding_payload.
        destruct rest as [|it2 rest2].
        { destruct rest'; simpl in Hlen; [done | lia]. }
        cbn [take map zsum foldr gaps].
        unfold zsum. lia.
Qed.

(** The string-table accumulator, as long as it stays within [int]. *)
Lemma layout_loop_strtab (g : Globals) (rs : list Resource) (acc : Sizes) :
  Forall (fun r => 0 <= symbolSize r) rs ->
  0 <= strtabSize acc ->
  strtabSize acc + zsum (map symbolSize rs) <= INT_MAX ->
  strtabSize (layout_loop cls g rs acc).2 = strtabSize acc + zsum (map symbolSize rs)
  /\ forall i r, (layout_loop cls g rs acc).1 !! i = Some r ->
       strtabOffset r = strtabSize acc + preceding_names rs i.
Proof.
  intros Hrs. revert acc.
  induction Hrs as [|it rest Hit Hrest IH]; intros acc Hacc Hfit.
  - simpl. split; [lia | done].
  - cbn [map zsum foldr] in Hfit. fold (zsum (map symbolSize rest)) in Hfit.
    assert (Hs : 0 <= zsum (map symbolSize rest)).
    { clear -Hrest. induction Hrest; simpl; lia. }
    cbn [layout_loop].
    set (s1 := to_int (strtabSize acc + symbolSize it)).
    assert (Hs1 : s1 = strtabSize acc + symbolSize it).
    { subst s1. apply to_int_small. unfold INT_MAX in *. lia. }
    match goal with |- context [layout_loop cls g rest ?a] =>
      specialize (IH a); destruct (layout_loop cls g rest a) as [rest' fin] end.
    cbn [strtabSize] in IH.
    destruct IH as [IH1 IH2]; [lia | lia |].
    cbn [fst snd] in *. split.
    + rewrite IH1, Hs1. cbn [map zsum foldr]. unfold zsum. lia.
    + intros [|i] r; simpl.
      * intros [= <-]. simpl. unfold preceding_names. simpl.
        rewrite to_uint_small; [lia|]. unfold INT_MAX in *. lia.
      * intros H. rewrite (IH2 i r H), Hs1.
        unfold preceding_names. cbn [take map zsum foldr]. unfold zsum. lia.
Qed.

(** The symbol-table accumulator, as long as it stays within [int]. *)
Lemma layout_loop_symtab (g : Globals) (rs : list Resource) (acc : Sizes) :
  0 <= symtabSize acc ->
  symtabSize acc + Z.of_nat (length rs) * sizeof_Sym cls <= INT_MAX ->
  symtabSize (layout_loop cls g rs acc).2
  = symtabSize acc + Z.of_nat (length rs) * sizeof_Sym cls.
Proof.
  assert (Hsym : 0 < sizeof_Sym cls) by (destruct cls; simpl; lia).
  revert acc. induction rs as [|it rest IH]; intros acc Hacc Hfit.
  - simpl. lia.
  - cbn [layout_loop].
    set (s1 := to_int (symtabSize acc + sizeof_Sym cls)).
    assert (Hs1 : s1 = symtabSize acc + sizeof_Sym cls).
    { subst s1. apply to_int_small. unfold INT_MAX in *.
      cbn [length] in Hfit. nia. }
    match goal with |- context [layout_loop cls g rest ?a] =>
      specialize (IH a); destruct (layout_loop cls g rest a) as [rest' fin] end.
    cbn [symtabSize fst snd] in *.
    rewrite IH; cbn [length] in *; nia.
Qed.

Lemma layout_loop_sizes (g : Globals) (rs : list Resource) (acc : Sizes) :
  map size (layout_loop cls g rs acc).1 = map size rs
  /\ map symbolSize (layout_loop cls g rs acc).1 = map symbolSize rs
  /\ map symbol (layout_loop cls g rs acc).1 = map symbol rs.
Proof.
  revert acc. induction rs as [|it rest IH]; intros acc; [done|].
  cbn [layout_loop].
  match goal with |- context [layout_loop cls g rest ?a] =>
    specialize (IH a); destruct (layout_loop cls g rest a) as [rest' fin] end.
  simpl in *. destruct IH as (-> & -> & ->). done.
Qed.

Lemma gaps_sizes (g : Globals) (rs1 rs2 : list Resource) :
  map size rs1 = map size rs2 -> gaps cls g rs1 = gaps cls g rs2.
Proof.
  revert rs2. induction rs1 as [|a rs1 IH]; intros [|b rs2] H; try done.
  simpl in H. injection H as Hab Hrest.
  simpl. destruct rs1 as [|a' rs1'], rs2 as [|b' rs2']; try done.
  rewrite Hab. f_equal. apply IH. exact Hrest.
Qed.

Lemma to_word_small (z : Z) : 0 <= z <= INT_MAX -> to_word cls z = z.
Proof.
  intros H. unfold to_word. apply Z.mod_small.
  unfold INT_MAX in H. destruct cls; simpl; lia.
Qed.

End LayoutFacts.

Lemma zsum_app (l1 l2 : list Z) : zsum (l1 ++ l2) = zsum l1 + zsum l2.
Proof. induction l1 as [|x l1 IH]; simpl; lia. Qed.



(* ===================================================================== *)
(** * The alignment and the padding formula *)
(* ===================================================================== *)

Section Alignment.

Variable cls : ElfClass.

Lemma pointer_bits_pow : pointer_bits cls = 2 ^ (match cls with ELFCLASS32 => 5 | ELFCLASS64 => 6 end).
Proof. by destruct cls. Qed.

(** The fuel of [align_loop] is enough: started on a power of two, the loop
    ends because its condition fails, and on a power of two that is at most
    the pointer width. *)
Lemma align_loop_ends (fuel : nat) (sz j : Z) :
  0 <= j <= 6 ->
  2 ^ j <= pointer_bits cls ->
  pointer_bits cls <= 2 ^ (j + Z.of_nat fuel) ->
  let a := align_loop cls fuel sz (2 ^ j) in
  (a <? pointer_bits cls) && (a <? sz) = false
  /\ exists k, 0 <= k <= 6 /\ a = 2 ^ k.
Proof.
  revert j. induction fuel as [|fuel IH]; intros j Hj Hle Hfuel; cbv zeta.
  - simpl. replace (j + Z.of_nat 0) with j in Hfuel by lia. split.
    + replace (2 ^ j <? pointer_bits cls) with false by (symmetry; apply Z.ltb_ge; lia).
      reflexivity.
    + by exists j.
  - cbn [align_loop].
    destruct ((2 ^ j <? pointer_bits cls) && (2 ^ j <? sz)) eqn:Hcond.
    + apply andb_prop in Hcond as [Hlt _]. apply Z.ltb_lt in Hlt.
      assert (Hj1 : j < 6).
      { destruct (decide (j = 6)) as [->|]; [|lia].
        destruct cls; simpl in Hlt; lia. }
      assert (Hpow : 2 ^ (j + 1) <= pointer_bits cls).
      { assert (Hcases : j = 0 \/ j = 1 \/ j = 2 \/ j = 3 \/ j = 4 \/ j = 5) by lia.
        clear -Hlt Hcases.
        destruct cls; simpl in *;
          destruct Hcases as [->|[->|[->|[->|[->| ->]]]]]; simpl in *; lia. }
      assert (Hdouble : to_int (Z.shiftl (2 ^ j) 1) = 2 ^ (j + 1)).
      { rewrite Z.shiftl_mul_pow2 by lia. rewrite <- Z.pow_add_r by lia.
        apply to_int_small. unfold INT_MAX.
        assert (2 ^ (j + 1) <= 2 ^ 6) by (apply Z.pow_le_mono_r; lia).
        assert (0 < 2 ^ (j + 1)) by (apply Z.pow_pos_nonneg; lia). lia. }
      rewrite Hdouble. apply IH; [lia | exact Hpow |].
      replace (j + 1 + Z.of_nat fuel) with (j + Z.of_nat (S fuel)) by lia. exact Hfuel.
    + split; [exact Hcond | by exists j].
Qed.

Lemma resource_align_pow (sz : Z) :
  let a := resource_align cls sz in
  (a <? pointer_bits cls) && (a <? sz) = false
  /\ exists k, 0 <= k <= 6 /\ a = 2 ^ k.
Proof.
  unfold resource_align. apply (align_loop_ends _ sz 0); [lia | | ].
  - destruct cls; simpl; lia.
  - destruct cls; vm_compute; discriminate.
Qed.

(** The section alignment is a power of two, at most 64. *)
Lemma maxalign_loop_pow (rs : list Resource) (j : Z) :
  0 <= j <= 6 ->
  exists k, 0 <= k <= 6 /\ maxalign_loop cls rs (2 ^ j) = 2 ^ k.
Proof.
  revert j. induction rs as [|it rest IH]; intros j Hj; simpl.
  - by exists j.
  - destruct (resource_align_pow (size it)) as [_ (k & Hk & ->)].
    destruct (2 ^ k >? 2 ^ j); by apply IH.
Qed.

(** [padding] for an alignment that is a power of two: nothing for a size
    equal to the alignment, else what is missing to the next multiple of the
    alignment strictly above the size. *)
Lemma padding_pow (g : Globals) (k sz : Z) :
  0 <= k <= 6 ->
  sh_addralign (rodataHeader g) = 2 ^ k ->
  0 <= sz < 2 ^ 32 ->
  padding cls g sz = if sz =? 2 ^ k then 0 else 2 ^ k - sz mod 2 ^ k.
Proof.
  intros Hk Hal Hsz. unfold padding. rewrite Hal.
  destruct (sz =? 2 ^ k); [reflexivity|].
  assert (Hpos : 0 < 2 ^ k) by (apply Z.pow_pos_nonneg; lia).
  assert (Hle : 2 ^ k <= 2 ^ 6) by (apply Z.pow_le_mono_r; lia).
  assert (Hw : forall z, 0 <= z <= 64 -> to_word cls z = z).
  { intros z Hz. unfold to_word. apply Z.mod_small. destruct cls; simpl; lia. }
  rewrite (Hw (2 ^ k - 1)) by lia.
  assert (Hnot : to_uint (Z.lnot sz) = 2 ^ 32 - 1 - sz).
  { unfold to_uint, Z.lnot.
    symmetry. apply (Z.mod_unique _ _ (-1)); lia. }
  rewrite Hnot.
  replace (2 ^ k - 1) with (Z.ones k) by (rewrite Z.ones_equiv; lia).
  rewrite Z.land_comm, Z.land_ones by lia.
  assert (Hmod : (2 ^ 32 - 1 - sz) mod 2 ^ k = 2 ^ k - 1 - sz mod 2 ^ k).
  { pose proof (Z.mod_pos_bound sz (2 ^ k) Hpos) as Hr.
    pose proof (Z.div_mod sz (2 ^ k) ltac:(lia)) as Hdm.
    assert (H32 : 2 ^ 32 = 2 ^ k * 2 ^ (32 - k)).
    { rewrite <- Z.pow_add_r by lia. f_equal. lia. }
    symmetry. apply (Z.mod_unique _ _ (2 ^ (32 - k) - sz / 2 ^ k - 1)); [lia|].
    rewrite H32 at 1. rewrite Hdm at 1. ring. }
  rewrite Hmod.
  pose proof (Z.mod_pos_bound sz (2 ^ k) Hpos) as Hr.
  rewrite Hw by lia. rewrite to_uint_small by lia. lia.
Qed.

(** So the gap is between 0 and the alignment, both included, and size and
    gap together are a multiple of the alignment. *)
Lemma padding_rounds_up (g : Globals) (k sz : Z) :
  0 <= k <= 6 ->
  sh_addralign (rodataHeader g) = 2 ^ k ->
  0 <= sz < 2 ^ 32 ->
  0 <= padding cls g sz <= 2 ^ k
  /\ (sz + padding cls g sz) mod 2 ^ k = 0
  /\ (padding cls g sz = 2 ^ k <-> sz mod 2 ^ k = 0 /\ sz <> 2 ^ k).
Proof.
  intros Hk Hal Hsz. rewrite (padding_pow g k sz Hk Hal Hsz).
  assert (Hpos : 0 < 2 ^ k) by (apply Z.pow_pos_nonneg; lia).
  pose proof (Z.mod_pos_bound sz (2 ^ k) Hpos) as Hr.
  destruct (sz =? 2 ^ k) eqn:E.
  - apply Z.eqb_eq in E. split; [lia|]. split.
    + rewrite Z.add_0_r, E. apply Z.mod_same. lia.
    + split; [lia | intros [_ Hne]; contradiction].
  - apply Z.eqb_neq in E. split; [lia|]. split.
    + pose proof (Z.div_mod sz (2 ^ k) ltac:(lia)) as Hdm.
      symmetry. apply (Z.mod_unique_pos _ _ (sz / 2 ^ k + 1)); lia.
    + split; [intros H; split; [lia | exact E] | intros [H _]; lia].
Qed.

End Alignment.

(** After [patch_layout] the section alignment is a power of two, and every
    gap between two resources is at most the alignment and fills the
    resource before it up to a multiple of the alignment. *)
Lemma gaps_round_up (cls : ElfClass) (h : Ehdr) (g : Globals) (qs : list Registration) :
  resources g = register_all qs ->
  let g' := patch_layout cls h g in
  exists k, 0 <= k <= 6
    /\ sh_addralign (rodataHeader g') = 2 ^ k
    /\ forall r, r ∈ resources g ->
         0 <= padding cls g' (size r) <= 2 ^ k
         /\ (size r + padding cls g' (size r)) mod 2 ^ k = 0.
Proof.
  intros Hreg g'.
  destruct (maxalign_loop_pow cls (resources g) 0 ltac:(lia)) as (k & Hk & Hmax).
  assert (Hal : sh_addralign (rodataHeader g') = 2 ^ k).
  { subst g'. unfold patch_layout. cbv zeta.
    match goal with |- context [layout_loop cls ?g1 ?rs ?a] =>
      destruct (layout_loop cls g1 rs a) as [rs' fin] end.
    cbn [rodataHeader sh_addralign set_sh_size set_sh_offset set_sh_addralign].
    change (2 ^ 0) with 1 in Hmax. rewrite Hmax.
    assert (0 < 2 ^ k) by (apply Z.pow_pos_nonneg; lia).
    assert (2 ^ k <= 2 ^ 6) by (apply Z.pow_le_mono_r; lia).
    unfold to_word. apply Z.mod_small. destruct cls; simpl; lia. }
  exists k. split; [exact Hk|]. split; [exact Hal|].
  intros r Hr.
  pose proof (register_all_sizes qs) as Hrange. rewrite <- Hreg in Hrange.
  rewrite Forall_forall in Hrange. specialize (Hrange r Hr).
  destruct (padding_rounds_up cls g' k (size r) Hk Hal Hrange) as (H1 & H2 & _).
  by split.
Qed.

(* ===================================================================== *)
(** * The layout that [patchHeaders] computes *)
(* ===================================================================== *)

Section PatchHeaders.

Variable cls : ElfClass.

(** A successful [patchHeaders] is [patch_layout] with some header. *)
Lemma patchHeaders_ok (self : SelfImage) (archhdr : option Ehdr) (g g' : Globals) :
  patchHeaders cls self archhdr g = (0, g') ->
  exists h, g' = patch_layout cls h g.
Proof.
  unfold patchHeaders. destruct archhdr as [h|].
  - intros [= <-]. by exists h.
  - destruct self as [| |own]; try discriminate.
    intros [= <-]. by exists own.
Qed.

(** What [patch_layout] leaves in the globals, in terms of its second loop. *)
Lemma patch_layout_unfold (h : Ehdr) (g : Globals) :
  exists g1,
    let acc0 := {| payloadSize := 0; symtabSize := to_int (sizeof_symtabData cls);
                   strtabSize := 1 |} in
    let out := layout_loop cls g1 (resources g) acc0 in
    let g' := patch_layout cls h g in
    sh_addralign (rodataHeader g1) = sh_addralign (rodataHeader g')
    /\ sh_addralign (rodataHeader g') = to_word cls (maxalign_loop cls (resources g) 1)
    /\ resources g' = out.1
    /\ sh_size (rodataHeader g') = to_word cls (payloadSize out.2)
    /\ sh_size (symtabHeader g') = to_word cls (symtabSize out.2)
    /\ sh_size (strtabHeader g') = to_word cls (strtabSize out.2).
Proof.
  eexists. cbv zeta. unfold patch_layout. cbv zeta.
  match goal with |- context [layout_loop cls ?g1 ?rs ?a] =>
    destruct (layout_loop cls g1 rs a) as [rs' fin] eqn:E end.
  cbn [resources rodataHeader symtabHeader strtabHeader sh_size sh_addralign
       set_sh_size set_sh_offset set_sh_addralign] in *.
  rewrite E. cbn [fst snd]. repeat split; reflexivity.
Qed.

Lemma preceding_payload_ext (g1 g2 : Globals) (rs1 rs2 : list Resource) (i : nat) :
  sh_addralign (rodataHeader g1) = sh_addralign (rodataHeader g2) ->
  map size rs1 = map size rs2 ->
  preceding_payload cls g1 rs1 i = preceding_payload cls g2 rs2 i.
Proof.
  intros Ha Hs. unfold preceding_payload.
  rewrite <- !firstn_map, Hs, (gaps_ext cls g1 g2 rs1 Ha), (gaps_sizes cls g2 rs1 rs2 Hs).
  reflexivity.
Qed.

Lemma declared_payload_ext (g1 g2 : Globals) (rs1 rs2 : list Resource) :
  sh_addralign (rodataHeader g1) = sh_addralign (rodataHeader g2) ->
  map size rs1 = map size rs2 ->
  declared_payload cls g1 rs1 = declared_payload cls g2 rs2.
Proof.
  intros Ha Hs. unfold declared_payload.
  rewrite Hs, (gaps_ext cls g1 g2 rs1 Ha), (gaps_sizes cls g2 rs1 rs2 Hs).
  reflexivity.
Qed.

(** ** C3 *)

(** C3, amended. For a payload, all resource sizes and all gaps between
    consecutive resources together, of at most 2^31 - 1 bytes, the range of
    the [int] the code accumulates it in: after [patchHeaders], the
    [payloadOffset] of the i-th resource is the sum of the sizes of the
    resources before it and of the padding gaps between them (so the first
    resource is at offset 0), and the size declared for the payload section,
    [rodataHeader.sh_size], is the sum of all resource sizes and all gaps
    between consecutive resources.  The registry is any sequence of
    registrations (empty or not); the sums are the mathematical ones. *)
Theorem payload_offsets_are_prefix_sums
    (self : SelfImage) (archhdr : option Ehdr) (qs : list Registration)
    (g g' : Globals) :
  resources g = register_all qs ->
  patchHeaders cls self archhdr g = (0, g') ->
  declared_payload cls g' (resources g') <= INT_MAX ->
  (forall i r, resources g' !! i = Some r ->
     payloadOffset r = preceding_payload cls g' (resources g') i)
  /\ (forall r, resources g' !! 0%nat = Some r -> payloadOffset r = 0)
  /\ sh_size (rodataHeader g') = declared_payload cls g' (resources g').
Proof.
  intros Hreg Hpatch Hfit.
  destruct (patchHeaders_ok _ _ _ _ Hpatch) as [h ->].
  destruct (patch_layout_unfold h g) as (g1 & Ha & _ & Hrs & Hsz & _).
  cbv zeta in *.
  set (acc0 := {| payloadSize := 0; symtabSize := to_int (sizeof_symtabData cls);
                  strtabSize := 1 |}) in *.
  set (g' := patch_layout cls h g) in *.
  destruct (layout_loop_sizes cls g1 (resources g) acc0) as (Hsizes & _).
  rewrite <- Hrs in Hsizes.
  pose proof (register_all_sizes qs) as Hrange. rewrite <- Hreg in Hrange.
  assert (Hdecl : declared_payload cls g' (resources g')
                  = declared_payload cls g1 (resources g)).
  { apply declared_payload_ext; [by symmetry | exact Hsizes]. }
  destruct (layout_loop_payload cls g1 (resources g) acc0 Hrange) as [Hend Hoff].
  { simpl. lia. }
  { simpl. rewrite <- Hdecl. exact Hfit. }
  assert (Hall : forall i r, resources g' !! i = Some r ->
                   payloadOffset r = preceding_payload cls g' (resources g') i).
  { intros i r Hi. rewrite Hrs in Hi. rewrite (Hoff i r Hi). simpl.
    apply preceding_payload_ext; [exact Ha | by symmetry]. }
  split; [exact Hall|]. split.
  - intros r Hr. rewrite (Hall 0%nat r Hr). reflexivity.
  - rewrite Hsz, Hend, Hdecl. simpl.
    apply to_word_small.
    pose proof (sizes_nonneg (resources g) Hrange).
    pose proof (gaps_nonneg cls g1 (resources g)).
    rewrite Hdecl in Hfit. unfold declared_payload in *. lia.
Qed.

(** ** C5 *)

(** C5, amended. For a symbol table, the seven fixed entries and one entry
    for each registered resource, of at most 2^31 - 1 bytes, the range of the
    [int] it is summed in: the size [patchHeaders] gives the symbol-table
    section is that of the seven fixed local entries of [symtabData] plus
    one entry for each registered resource, whatever its [ignore] flag; the
    registry keeps its length. *)
Theorem symtab_size_seven_fixed_plus_registered
    (self : SelfImage) (archhdr : option Ehdr) (g g' : Globals) :
  patchHeaders cls self archhdr g = (0, g') ->
  (7 + Z.of_nat (length (resources g))) * sizeof_Sym cls <= INT_MAX ->
  sh_size (symtabHeader g')
  = 7 * sizeof_Sym cls + Z.of_nat (length (resources g)) * sizeof_Sym cls
  /\ length (resources g') = length (resources g).
Proof.
  intros Hpatch Hfit.
  destruct (patchHeaders_ok _ _ _ _ Hpatch) as [h ->].
  destruct (patch_layout_unfold h g) as (g1 & _ & _ & Hrs & _ & Hsz & _).
  cbv zeta in *.
  assert (Hsym : 0 < sizeof_Sym cls) by (destruct cls; simpl; lia).
  assert (H7 : to_int (sizeof_symtabData cls) = 7 * sizeof_Sym cls).
  { unfold sizeof_symtabData. simpl length.
    apply to_int_small. unfold INT_MAX in *. nia. }
  split.
  - rewrite Hsz, layout_loop_symtab; cbn [symtabSize]; rewrite H7.
    + apply to_word_small. nia.
    + lia.
    + lia.
  - rewrite Hrs. apply layout_loop_length.
Qed.

(** ** C6 *)

Lemma registered_symbolSizes (qs : list Registration) :
  names_size qs <= INT_MAX ->
  map symbolSize (map registered qs) = map (fun q => strlen (reg_symbol q) + 1) qs.
Proof.
  unfold names_size.
  assert (Hnn : forall l : list Registration,
             0 <= zsum (map (fun q => strlen (reg_symbol q) + 1) l)).
  { induction l as [|q l IH]; simpl; [lia|]. unfold strlen at 1. lia. }
  induction qs as [|q qs IH]; intros H; [done|].
  specialize (Hnn qs). unfold zsum in *. cbn [map foldr] in *.
  assert (0 <= strlen (reg_symbol q)) by (unfold strlen; lia).
  rewrite IH by lia. f_equal.
  apply to_uint_small. unfold strlen, INT_MAX in *. lia.
Qed.


End PatchHeaders.

(* ===================================================================== *)
(** * The layout of sample registries *)
(* ===================================================================== *)

Section LayoutExamples.

Import Sample.

(** The payload layout of three resources of 3, 3 and 8 bytes: alignment 8,
    offsets 0, 8 and 16. *)
Lemma payload_offsets_are_prefix_sums_witness :
  let g := with_registry three in
  let g' := patch_layout cls own_header g in
  resources g = register_all three
  /\ patchHeaders cls SelfOpenFails (Some own_header) g = (0, g')
  /\ declared_payload cls g' (resources g') <= INT_MAX
  /\ map payloadOffset (resources g') = [0; 8; 16]
  /\ (forall i r, resources g' !! i = Some r ->
        payloadOffset r = preceding_payload cls g' (resources g') i)
  /\ sh_size (rodataHeader g') = declared_payload cls g' (resources g').
Proof.
  intros g g'.
  assert (H1 : resources g = register_all three) by reflexivity.
  assert (H2 : patchHeaders cls SelfOpenFails (Some own_header) g = (0, g'))
    by reflexivity.
  assert (H3 : declared_payload cls g' (resources g') <= INT_MAX)
    by (vm_compute; discriminate).
  destruct (payload_offsets_are_prefix_sums cls SelfOpenFails (Some own_header)
              three g g' H1 H2 H3) as (Hoff & _ & Hsize).
  exact (conj H1 (conj H2 (conj H3 (conj eq_refl (conj Hoff Hsize))))).
Defined.

(** C3 as stated fails for a payload beyond the [int] it is summed in.
    Three resources of 2^31, 2^31 and 5 bytes (pointers of 64 bits,
    alignment 64): the sum in front of the third resource is 4294967424, but
    [payloadSize] has wrapped around and its [payloadOffset] is 128; the
    declared size of the section is 133, not 4294967429. *)
Lemma payload_beyond_int_counterexample :
  let g := with_registry [reg BINARY "P" "p.bin" (2 ^ 31);
                          reg BINARY "Q" "q.bin" (2 ^ 31);
                          reg BINARY "R" "r.bin" 5] in
  let g' := (patchHeaders cls SelfOpenFails (Some own_header) g).2 in
  map size (resources g') = [2147483648; 2147483648; 5]
  /\ map payloadOffset (resources g') = [0; 2147483712; 128]
  /\ map (preceding_payload cls g' (resources g')) [0; 1; 2]%nat
     = [0; 2147483712; 4294967424]
  /\ sh_size (rodataHeader g') = 133
  /\ declared_payload cls g' (resources g') = 4294967429.
Proof. by_evaluation. Qed.


(** The symbol table of the same three resources: ten entries. *)
Lemma symtab_size_seven_fixed_plus_registered_witness :
  let g := with_registry three in
  let g' := patch_layout cls own_header g in
  patchHeaders cls SelfOpenFails (Some own_header) g = (0, g')
  /\ (7 + Z.of_nat (length (resources g))) * sizeof_Sym cls <= INT_MAX
  /\ sh_size (symtabHeader g')
     = 7 * sizeof_Sym cls + Z.of_nat (length (resources g)) * sizeof_Sym cls.
Proof.
  intros g g'.
  assert (H1 : patchHeaders cls SelfOpenFails (Some own_header) g = (0, g'))
    by reflexivity.
  assert (H2 : (7 + Z.of_nat (length (resources g))) * sizeof_Sym cls <= INT_MAX)
    by (vm_compute; discriminate).
  destruct (symtab_size_seven_fixed_plus_registered cls SelfOpenFails
              (Some own_header) g g' H1 H2) as (Hsize & _).
  exact (conj H1 (conj H2 Hsize)).
Defined.

(** C5 as stated fails: with three registered resources the symbol table
    is sized for ten entries, 240 bytes, not for the nine (six fixed and
    three more, 216 bytes) of the specification. *)
Lemma symtab_six_fixed_counterexample :
  let g := with_registry three in
  let g' := (patchHeaders cls SelfOpenFails (Some own_header) g).2 in
  sh_size (symtabHeader g') = 240
  /\ sh_size (symtabHeader g')
     <> 6 * sizeof_Sym cls + Z.of_nat (length (resources g)) * sizeof_Sym cls.
Proof. split; [vm_compute; reflexivity | vm_compute; discriminate]. Qed.

(** C2 (code bug). [padding] returns 0 only for a size equal to the
    alignment; for every other multiple of the alignment it returns the
    whole alignment.  An empty file followed by a one-byte file: the section
    alignment is 1 and the gap after the empty file is 1 byte, outside
    [0, 0].  A 128-byte file followed by a one-byte file (pointers of 64
    bits): the alignment is 64 and the gap is 64 bytes, outside [0, 63]. *)
Theorem padding_gap_reaches_the_alignment :
  (let g' := (patchHeaders cls SelfOpenFails (Some own_header)
                (with_registry [reg BINARY "E" "empty.bin" 0;
                                reg BINARY "O" "one.bin" 1])).2 in
   sh_addralign (rodataHeader g') = 1
   /\ gaps cls g' (resources g') = [1]
   /\ map payloadOffset (resources g') = [0; 1]
   /\ sh_size (rodataHeader g') = 2)
  /\
  (let g' := (patchHeaders cls SelfOpenFails (Some own_header)
                (with_registry [reg BINARY "BIG" "big.bin" 128;
                                reg BINARY "O" "one.bin" 1])).2 in
   sh_addralign (rodataHeader g') = 64
   /\ gaps cls g' (resources g') = [64]
   /\ map payloadOffset (resources g') = [0; 192]
   /\ sh_size (rodataHeader g') = 193).
Proof. by_evaluation. Qed.





End LayoutExamples.

(* ===================================================================== *)
(** * The parser and the way its input is cut *)
(* ===================================================================== *)

Section ParserFacts.

Variable stat : string -> option Z.
Variable malloc : nat -> Block.

Lemma parse_char_stop (w : World) (c : ascii) (r : Result) :
  parse_char stat malloc w c = Stop r -> ends_run r = true.
Proof.
  unfold parse_char. intros H.
  repeat case_match; simplify_eq; reflexivity.
Qed.

(** The characters of two buffers in a row are parsed like the buffers one
    after the other, as long as the first call does not end the run. *)
Lemma parse_chars_app (w : World) (a b : list ascii) :
  parse_chars stat malloc w (a ++ b)
  = match parse_chars stat malloc w a with
    | Returned r w' => if r =? -1 then Returned r w' else parse_chars stat malloc w' b
    | Undefined buf i w' => Undefined buf i w'
    end.
Proof.
  revert w. induction a as [|c a IH]; intros w; [reflexivity|].
  simpl. destruct (parse_char stat malloc w c) as [w'|r] eqn:E.
  - apply IH.
  - apply parse_char_stop in E. destruct r as [ret w'|buf i w']; simpl in E.
    + by rewrite E.
    + reflexivity.
Qed.

(** Feeding chunks is parsing their concatenation. *)
Lemma feed_chunks_concat (w : World) (chunks : list (list ascii)) :
  feed_chunks stat malloc w chunks = parse_chars stat malloc w (concat chunks).
Proof.
  revert w. induction chunks as [|chunk rest IH]; intros w; [reflexivity|].
  simpl. rewrite parse_chars_app.
  destruct (parse_chars stat malloc w chunk) as [r w'|buf i w']; [|reflexivity].
  destruct (r =? -1); [reflexivity | apply IH].
Qed.

(** C7. Two ways of cutting the same bytes into chunks (one byte each, all
    at once, or any other way), each fed to the parser chunk by chunk and
    followed by the end-of-input signal, end in the same result: the same
    registry, and also the same return value, parser state and diagnostics.
    A call that returns -1 ends the run, as in [loadResources]. *)
Theorem chunking_does_not_matter (w : World) (chunks1 chunks2 : list (list ascii)) :
  concat chunks1 = concat chunks2 ->
  parse_manifest stat malloc w chunks1 = parse_manifest stat malloc w chunks2
  /\ registry_of (parse_manifest stat malloc w chunks1)
     = registry_of (parse_manifest stat malloc w chunks2).
Proof.
  intros H.
  assert (E : parse_manifest stat malloc w chunks1 = parse_manifest stat malloc w chunks2).
  { unfold parse_manifest. by rewrite !feed_chunks_concat, H. }
  split; [exact E | by rewrite E].
Qed.

(** The two extreme ways: every byte a chunk of its own, all bytes one chunk. *)
Lemma bytewise_is_whole (w : World) (bytes : list ascii) :
  parse_manifest stat malloc w (map (fun c => [c]) bytes)
  = parse_manifest stat malloc w [bytes].
Proof.
  assert (E : concat (map (fun c => [c]) bytes) = concat [bytes]).
  { simpl. rewrite app_nil_r.
    induction bytes as [|c bytes IH]; simpl; [reflexivity | by rewrite IH]. }
  unfold parse_manifest. by rewrite !feed_chunks_concat, E.
Qed.

(** A store at index [sizeof( buf )] is outside the array. *)
Lemma store_at_sizeof (buf : list ascii) (c : ascii) : store buf (sizeof buf) c = None.
Proof.
  unfold store. replace (sizeof buf <? sizeof buf) with false; [by rewrite andb_false_r|].
  symmetry. apply Z.ltb_irrefl.
Qed.

(** A field that fills its array is accepted character by character; the
    TAB after it stores the NUL one past the end. *)
Lemma full_type_then_tab (w : World) :
  state (statics w) = ReadType ->
  curTypeLen (statics w) = sizeof (curType (statics w)) ->
  parse_char stat malloc w TAB
  = Stop (Undefined CurType (sizeof (curType (statics w))) w).
Proof.
  intros Hst Hlen. unfold parse_char. rewrite Hst, Hlen, store_at_sizeof.
  reflexivity.
Qed.

Lemma full_symbol_then_tab (w : World) :
  state (statics w) = ReadSymbol ->
  curSymbolLen (statics w) = sizeof (curSymbol (statics w)) ->
  parse_char stat malloc w TAB
  = Stop (Undefined CurSymbol (sizeof (curSymbol (statics w))) w).
Proof.
  intros Hst Hlen. unfold parse_char. rewrite Hst, Hlen, store_at_sizeof.
  reflexivity.
Qed.

Lemma full_filename_then_newline (w : World) :
  state (statics w) = ReadFilename ->
  curFilenameLen (statics w) = sizeof (curFilename (statics w)) ->
  parse_char stat malloc w NEWLINE
  = Stop (Undefined CurFilename (sizeof (curFilename (statics w))) w).
Proof.
  intros Hst Hlen. unfold parse_char. rewrite Hst, Hlen, store_at_sizeof.
  reflexivity.
Qed.

Lemma finish_record_registers (w w' : World) :
  finish_record stat malloc w = inl w' ->
  statics w' = statics w
  /\ length (resources (globals w')) = S (length (resources (globals w))).
Proof.
  unfold finish_record. destruct (stat _) as [st_size|]; [|discriminate].
  intros [= <-]. simpl. split; [reflexivity|].
  unfold registerResource. rewrite length_app. simpl. lia.
Qed.

Lemma parse_char_lineno (w w' : World) (c : ascii) :
  lineno_counts w ->
  parse_char stat malloc w c = Continue w' ->
  lineno_counts w'.
Proof.
  unfold lineno_counts, parse_char. intros Hinv H.
  destruct (state (statics w));
    repeat case_match; simplify_eq; simpl; try exact Hinv.
  match goal with Hf : finish_record _ _ _ = inl _ |- _ =>
    apply finish_record_registers in Hf as [Hs Hl] end.
  rewrite Hs, Hl. simpl in *. rewrite Hinv.
  unfold to_uint. rewrite Nat2Z.inj_succ, <- Z.add_1_r.
  apply Zplus_mod_idemp_l.
Qed.

Lemma parse_chars_lineno (w : World) (buffer : list ascii) (w' : World) :
  lineno_counts w ->
  parse_chars stat malloc w buffer = Returned 0 w' ->
  lineno_counts w'.
Proof.
  revert w. induction buffer as [|c rest IH]; intros w Hinv; simpl.
  - by intros [= <-].
  - destruct (parse_char stat malloc w c) as [w1|r] eqn:E.
    + apply IH. eapply parse_char_lineno; eassumption.
    + intros ->. apply parse_char_stop in E. discriminate.
Qed.

(** At the end of the input in [ReadType] or [ReadSymbol] the parser returns
    -1, and [loadResources] returns what [close] returns all the same. *)
Lemma loadResources_drops_eof_error (reads : list ReadResult) (close_ret : Z)
    (w w' : World) :
  load_loop stat malloc reads w = LoopDone w' ->
  state (statics w') <> ReadFilename ->
  return_of (parseResourceFileData stat malloc w' None) = Some (-1)
  /\ return_of (loadResources stat malloc (Opened reads close_ret) w) = Some close_ret.
Proof.
  intros Hloop Hst. unfold loadResources. rewrite Hloop.
  unfold parseResourceFileData, parse_eof.
  destruct (state (statics w')); [by split | by split | contradiction].
Qed.

End ParserFacts.

(* ===================================================================== *)
(** * Sample runs of the parser *)
(* ===================================================================== *)

Section ParserExamples.

Import Sample.

(** Two records, fed at once and fed in four pieces (one of them empty) that
    cut through the first field and through the first symbol. *)
Lemma chunking_does_not_matter_witness :
  let m := line "text" "GREETING" "greeting.txt" ++ record "binary" "A" "a.bin" in
  let whole := [m] in
  let pieces := [take 3 m; take 9 (drop 3 m); []; drop 12 m] in
  concat whole = concat pieces
  /\ parse_manifest stat zeroed w0 whole = parse_manifest stat zeroed w0 pieces
  /\ map symbol (registry_of (parse_manifest stat zeroed w0 pieces)) = ["GREETING"; "A"]%string.
Proof.
  intros m whole pieces.
  assert (H : concat whole = concat pieces) by (vm_compute; reflexivity).
  destruct (chunking_does_not_matter stat zeroed w0 whole pieces H) as [E _].
  refine (conj H (conj E _)). vm_compute. reflexivity.
Defined.

(** C1 (code bug). [parseResourceFileData( 0, 0 )] does return -1 when the
    input ends in [ReadSymbol] or [ReadType], but [loadResources] drops that
    value, where it checks the one of every other call.  A resource file
    that ends inside the symbol field: the parser prints its error, the
    layout is computed ([sh_addralign] is patched to 1), the object file is
    written (the thirteen fixed blocks and the leading NUL of the string
    table), and [main] returns 0.  The same for a file that ends right
    after the line break of a complete record. *)
Theorem end_of_input_error_is_dropped :
  (let cut := bytes "binary" ++ [TAB] ++ bytes "A" in
   let fed := parse_chars stat zeroed w0 cut in
   let r := run zeroed contents cut in
   state (statics (world_after fed)) = ReadSymbol
   /\ return_of (parseResourceFileData stat zeroed (world_after fed) None) = Some (-1)
   /\ option_map exit_status (exit_of r) = Some 0
   /\ stderr (world_of r) = [EofExpectedFilename]
   /\ sh_addralign (rodataHeader (globals (world_of r))) = 1
   /\ option_map (fun o => length (written o)) (object_of r) = Some 14%nat)
  /\
  (let complete := line "binary" "A" "a.bin" in
   let fed := parse_chars stat zeroed w0 complete in
   let r := run zeroed contents complete in
   state (statics (world_after fed)) = ReadType
   /\ return_of (parseResourceFileData stat zeroed (world_after fed) None) = Some (-1)
   /\ option_map exit_status (exit_of r) = Some 0
   /\ stderr (world_of r) = [EofExpectedSymbol]
   /\ option_map (fun o => written_bytes (written o)) (object_of r)
      = Some ([NUL] ++ bytes "A" ++ [NUL] ++ bytes "abc")).
Proof. by_evaluation. Qed.

(** C9 (code bug). [lineno] starts at 0 and counts the records finished so
    far, so an error on the first line of the resource file is reported as
    line 0: a line break in the type field, a line break in the symbol
    field, a type that is too long, a file that is not there.  An error on
    the second line is reported as line 1. *)
Theorem first_line_is_reported_as_line_0 :
  lineno (statics w0) = 0
  /\ stderr (world_after (parse_manifest stat zeroed w0 [bytes "text" ++ [NEWLINE]]))
     = [TypeGotNewline 0]
  /\ stderr (world_after (parse_manifest stat zeroed w0
                            [bytes "text" ++ [TAB] ++ bytes "A" ++ [NEWLINE]]))
     = [SymbolGotNewline 0]
  /\ map diagnostic_line
       (stderr (world_after (parse_manifest stat zeroed w0 [replicate 33 "k"%char])))
     = [Some 0]
  /\ stderr (world_after (parse_manifest stat zeroed w0 [line "text" "A" "missing.txt"]))
     = [AccessFailed 0 "missing.txt"]
  /\ stderr (world_after (parse_manifest stat zeroed w0
                            [line "text" "GREETING" "greeting.txt" ++ [NEWLINE]]))
     = [TypeGotNewline 1].
Proof. by_evaluation. Qed.

(** C10 (code bug). A field may fill its array completely: the guard
    before a character is stored is [len < sizeof( array )].  The NUL that
    ends the field then goes to index [sizeof( array )], one past the last
    element: index 32 of [curType], 256 of [curSymbol], [PATH_MAX] of
    [curFilename] (at a line break and at the end of the input alike). *)
Theorem terminator_is_stored_past_the_array :
  sizeof (curType (statics w0)) = 32
  /\ stray_store (parse_manifest stat zeroed w0 [replicate 32 "k"%char ++ [TAB]])
     = Some (CurType, 32)
  /\ sizeof (curSymbol (statics w0)) = 256
  /\ stray_store (parse_manifest stat zeroed w0
                    [bytes "text" ++ [TAB] ++ replicate 256 "s"%char ++ [TAB]])
     = Some (CurSymbol, 256)
  /\ sizeof (curFilename (statics w0)) = PATH_MAX
  /\ stray_store (parse_manifest stat zeroed w0
                    [bytes "text" ++ [TAB] ++ bytes "A" ++ [TAB]
                     ++ replicate (Z.to_nat PATH_MAX) "f"%char ++ [NEWLINE]])
     = Some (CurFilename, PATH_MAX)
  /\ stray_store (parse_manifest stat zeroed w0
                    [bytes "text" ++ [TAB] ++ bytes "A" ++ [TAB]
                     ++ replicate (Z.to_nat PATH_MAX) "f"%char])
     = Some (CurFilename, PATH_MAX).
Proof. by_evaluation. Qed.

End ParserExamples.

(* ===================================================================== *)
(** * The emitter and the [ignore] flag *)
(* ===================================================================== *)

Section EmitterFacts.

Variable cls : ElfClass.
Variable open_src : string -> OpenResult.

(** A source that cannot be opened: the flag is set, the descriptor is not
    touched. *)
Lemma writeFiles_body_open_fails (g : Globals) (has_next : bool) (it : Resource)
    (fd : OutFD) :
  open_src (filename it) = OpenFails ->
  writeFiles_body cls open_src g has_next it fd = (set_ignore TRUE it, fd).
Proof.
  intros H. unfold writeFiles_body, copyFileToFD. rewrite H. reflexivity.
Qed.

(** The loop on a registry, cut at one of its resources. *)
Lemma writeFiles_loop_split (g : Globals) (pre post : list Resource) (it : Resource)
    (fd : OutFD) :
  let before := writeFiles_before cls open_src g pre fd in
  let has_next := match post with [] => false | _ :: _ => true end in
  let here := writeFiles_body cls open_src g has_next it before.2 in
  let after := writeFiles_loop cls open_src g post here.2 in
  writeFiles_loop cls open_src g (pre ++ it :: post) fd
  = (before.1 ++ here.1 :: after.1, after.2).
Proof.
  revert fd. induction pre as [|p pre IH]; intros fd; cbv zeta.
  - cbn [app writeFiles_before writeFiles_loop fst snd].
    destruct (writeFiles_body cls open_src g _ it fd) as [it' fd1].
    cbn [fst snd].
    destruct (writeFiles_loop cls open_src g post fd1) as [post' fd2].
    reflexivity.
  - cbn [app writeFiles_before writeFiles_loop].
    assert (Hnext : match pre ++ it :: post with [] => false | _ :: _ => true end = true)
      by (by destruct pre).
    rewrite Hnext.
    destruct (writeFiles_body cls open_src g true p fd) as [p' fd1].
    specialize (IH fd1). cbv zeta in IH. rewrite IH.
    destruct (writeFiles_before cls open_src g pre fd1) as [pre' fd2].
    cbn [fst snd]. reflexivity.
Qed.

(** C4, amended. When the source of a resource cannot be opened during
    emission, [writeFiles] sets its [ignore] flag and writes nothing for
    it, neither payload bytes nor the padding gap that follows it: the
    resources after it are written to the descriptor exactly as the
    resources before it left it.  The section headers, and with them the
    sizes of the symbol table and of the string table, stay as
    [patchHeaders] computed them. *)
Theorem failed_open_writes_nothing
    (g : Globals) (pre post : list Resource) (it : Resource) (fd : OutFD) :
  resources g = pre ++ it :: post ->
  open_src (filename it) = OpenFails ->
  let before := writeFiles_before cls open_src g pre fd in
  let after := writeFiles_loop cls open_src g post before.2 in
  exists g',
    writeFiles cls open_src g fd = (0, g', after.2)
    /\ resources g' = before.1 ++ set_ignore TRUE it :: after.1
    /\ symtabHeader g' = symtabHeader g
    /\ strtabHeader g' = strtabHeader g
    /\ rodataHeader g' = rodataHeader g.
Proof.
  intros Hrs Hopen before after.
  unfold writeFiles. rewrite Hrs.
  pose proof (writeFiles_loop_split g pre post it fd) as E. cbv zeta in E.
  rewrite writeFiles_body_open_fails in E by exact Hopen.
  cbn [fst snd] in E. rewrite E.
  eexists. split; [reflexivity|]. repeat split; reflexivity.
Qed.

(** [registerResource] takes the flag from the block as [malloc] delivered
    it: no statement of the function assigns [ignore]. *)
Lemma registerResource_ignore (blk : Block) (ty : ResourceType) (sym fn : string)
    (filesize : Z) (rs : list Resource) :
  map ignore (registerResource blk ty sym fn filesize rs)
  = map ignore rs ++ [blk_ignore blk].
Proof. unfold registerResource. by rewrite map_app. Qed.

Lemma writeFiles_before_length (g : Globals) (pre : list Resource) (fd : OutFD) :
  length (writeFiles_before cls open_src g pre fd).1 = length pre.
Proof.
  revert fd. induction pre as [|p pre IH]; intros fd; [reflexivity|].
  cbn [writeFiles_before].
  destruct (writeFiles_body cls open_src g true p fd) as [p' fd1].
  specialize (IH fd1).
  destruct (writeFiles_before cls open_src g pre fd1) as [pre' fd2].
  simpl in *. by rewrite IH.
Qed.

(** The body of the loop sets the flag from the value of [copyFileToFD]. *)
Lemma writeFiles_body_ignore (g : Globals) (has_next : bool) (it : Resource) (fd : OutFD) :
  (writeFiles_body cls open_src g has_next it fd).1
  = set_ignore (if (copyFileToFD open_src (filename it) fd).1 =? -1 then TRUE else FALSE) it.
Proof.
  unfold writeFiles_body.
  destruct (copyFileToFD open_src (filename it) fd) as [r fd1]. cbn [fst].
  by destruct (r =? -1).
Qed.

(** The layout pass leaves the flags alone. *)
Lemma layout_loop_ignore (g : Globals) (rs : list Resource) (acc : Sizes) :
  map ignore (layout_loop cls g rs acc).1 = map ignore rs.
Proof.
  revert acc. induction rs as [|it rest IH]; intros acc; [reflexivity|].
  cbn [layout_loop].
  match goal with |- context [layout_loop cls g rest ?a] =>
    specialize (IH a); destruct (layout_loop cls g rest a) as [rest' fin] end.
  simpl in *. by rewrite IH.
Qed.

Lemma patch_layout_ignore (h : Ehdr) (g : Globals) :
  map ignore (resources (patch_layout cls h g)) = map ignore (resources g).
Proof.
  destruct (patch_layout_unfold cls h g) as (g1 & _ & _ & Hrs & _). cbv zeta in Hrs.
  rewrite Hrs. apply layout_loop_ignore.
Qed.

(** The parser only appends to the registry. *)
Lemma finish_record_appends (stat : string -> option Z) (malloc : nat -> Block)
    (w : World) :
  exists l, resources (globals (match finish_record stat malloc w with
                                | inl w' => w' | inr w' => w' end))
            = resources (globals w) ++ l.
Proof.
  unfold finish_record. destruct (stat _) as [st_size|]; simpl.
  - unfold registerResource. eexists. reflexivity.
  - exists []. by rewrite app_nil_r.
Qed.

Lemma parse_char_appends (stat : string -> option Z) (malloc : nat -> Block)
    (w : World) (c : ascii) :
  exists l,
    resources (globals (match parse_char stat malloc w c with
                        | Continue w' => w'
                        | Stop r => world_after r
                        end))
    = resources (globals w) ++ l.
Proof.
  assert (Hnil : exists l, resources (globals w) = resources (globals w) ++ l)
    by (exists []; by rewrite app_nil_r).
  unfold parse_char.
  destruct (state (statics w));
    repeat case_match; simplify_eq; simpl; try exact Hnil;
    match goal with Hf : finish_record _ _ ?w0 = _ |- _ =>
      destruct (finish_record_appends stat malloc w0) as [added Hadded];
      rewrite Hf in Hadded; simpl in Hadded; by exists added end.
Qed.

Lemma parse_chars_appends (stat : string -> option Z) (malloc : nat -> Block)
    (buffer : list ascii) (w : World) :
  exists l,
    registry_of (parse_chars stat malloc w buffer) = resources (globals w) ++ l.
Proof.
  revert w. induction buffer as [|c rest IH]; intros w; simpl.
  - exists []. by rewrite app_nil_r.
  - destruct (parse_char_appends stat malloc w c) as [l1 Hl1].
    destruct (parse_char stat malloc w c) as [w1|r].
    + destruct (IH w1) as [l2 Hl2]. exists (l1 ++ l2).
      by rewrite Hl2, Hl1, app_assoc.
    + exists l1. by destruct r.
Qed.

Lemma parseResourceFileData_appends (stat : string -> option Z) (malloc : nat -> Block)
    (buffer : option (list ascii)) (w : World) :
  exists l,
    registry_of (parseResourceFileData stat malloc w buffer) = resources (globals w) ++ l.
Proof.
  destruct buffer as [chars|]; simpl; [apply parse_chars_appends|].
  unfold parse_eof.
  assert (Hnil : exists l, resources (globals w) = resources (globals w) ++ l)
    by (exists []; by rewrite app_nil_r).
  destruct (state (statics w)); simpl; try exact Hnil.
  destruct (store _ _ _) as [buf|]; simpl; [|exact Hnil].
  match goal with |- context [finish_record stat malloc ?w0] =>
    destruct (finish_record_appends stat malloc w0) as [l Hl];
    destruct (finish_record stat malloc w0) end; simpl in *; by exists l.
Qed.

(** C8, amended. The [ignore] flag of a registered resource is assigned by
    [writeFiles] and by nothing else: registering a further resource, parsing
    more input and the layout pass leave the flags of the registered
    resources as they are.  [writeFiles] sets the flag of a resource to
    [TRUE] when [copyFileToFD] returns -1 for it (its file cannot be opened,
    or a [read], a [write] or the [close] fails) and to [FALSE] otherwise. *)
Theorem ignore_is_assigned_by_writeFiles_only
    (g : Globals) (pre post : list Resource) (it : Resource) (fd : OutFD) :
  resources g = pre ++ it :: post ->
  let before := writeFiles_before cls open_src g pre fd in
  let copied := copyFileToFD open_src (filename it) before.2 in
  (exists it',
      resources (writeFiles cls open_src g fd).1.2 !! length pre = Some it'
      /\ it' = set_ignore (if copied.1 =? -1 then TRUE else FALSE) it)
  /\ (forall h, map ignore (resources (patch_layout cls h g)) = map ignore (resources g))
  /\ (forall blk ty sym fn filesize,
        take (length (resources g))
             (map ignore (registerResource blk ty sym fn filesize (resources g)))
        = map ignore (resources g))
  /\ (forall stat malloc statics0 stderr0 buffer,
        let w := {| statics := statics0; globals := g; stderr := stderr0 |} in
        take (length (resources g))
             (map ignore (registry_of (parseResourceFileData stat malloc w buffer)))
        = map ignore (resources g)).
Proof.
  intros Hrs before copied.
  assert (Htake : forall l : list Resource,
             take (length (resources g)) (map ignore (resources g ++ l))
             = map ignore (resources g)).
  { intros l. rewrite map_app.
    rewrite <- (length_map ignore (resources g)). apply take_app_length. }
  split; [|split; [|split]].
  - unfold writeFiles. rewrite Hrs.
    pose proof (writeFiles_loop_split g pre post it fd) as E. cbv zeta in E.
    rewrite E. cbn [fst snd set_resources resources].
    eexists. split.
    + apply list_lookup_middle. by rewrite writeFiles_before_length.
    + apply writeFiles_body_ignore.
  - intros h. apply patch_layout_ignore.
  - intros blk ty sym fn filesize. unfold registerResource. apply Htake.
  - intros stat malloc statics0 stderr0 buffer w.
    destruct (parseResourceFileData_appends stat malloc buffer w) as [l ->].
    apply Htake.
Qed.

End EmitterFacts.

Section EmitterExamples.

Import Sample.

(** [a.bin] is gone when the payload is written: what reaches the
    descriptor is what the loop writes for [b.bin] alone. *)
Lemma failed_open_writes_nothing_witness :
  let g := (patchHeaders cls SelfOpenFails (Some own_header) (with_registry two)).2 in
  let fd := {| written := []; write_oks := [] |} in
  let it := set_offsets 0 1 (registered (reg BINARY "A" "a.bin" 3)) in
  let post := [set_offsets 8 3 (registered (reg BINARY "B" "b.bin" 8))] in
  resources g = [] ++ it :: post
  /\ contents_without_a (filename it) = OpenFails
  /\ exists g',
       writeFiles cls contents_without_a g fd
       = (0, g', (writeFiles_loop cls contents_without_a g post fd).2)
       /\ map ignore (resources g') = [TRUE; FALSE].
Proof.
  intros g fd it post.
  assert (H1 : resources g = [] ++ it :: post) by (vm_compute; reflexivity).
  assert (H2 : contents_without_a (filename it) = OpenFails) by (vm_compute; reflexivity).
  destruct (failed_open_writes_nothing cls contents_without_a g [] post it fd H1 H2)
    as (g' & Hw & Hrs & _).
  refine (conj H1 (conj H2 (ex_intro _ g' (conj Hw _)))).
  rewrite Hrs. vm_compute. reflexivity.
Defined.

(** C4 as stated fails: [a.bin] (3 bytes, then a gap of 5) is gone when the
    payload is written, [b.bin] is there.  The payload that is written is
    the 8 bytes of [b.bin] alone; the 5 bytes of the gap computed after
    [a.bin] are not written. *)
Lemma padding_after_failed_open_counterexample :
  let g := (patchHeaders cls SelfOpenFails (Some own_header) (with_registry two)).2 in
  let fd := {| written := []; write_oks := [] |} in
  let out := writeFiles cls contents_without_a g fd in
  gaps cls g (resources g) = [5]
  /\ map ignore (resources out.1.2) = [TRUE; FALSE]
  /\ written_bytes (written out.2) = bytes "01234567"
  /\ written_bytes (written out.2) <> replicate 5 NUL ++ bytes "01234567".
Proof.
  repeat apply conj; vm_compute; try reflexivity. discriminate.
Qed.

(** [a.bin] cannot be read when the payload is written: its resource gets
    the flag [TRUE]. *)
Lemma ignore_is_assigned_by_writeFiles_only_witness :
  let g := (patchHeaders cls SelfOpenFails (Some own_header) (with_registry two)).2 in
  let fd := {| written := []; write_oks := [] |} in
  let it := set_offsets 0 1 (registered (reg BINARY "A" "a.bin" 3)) in
  let post := [set_offsets 8 3 (registered (reg BINARY "B" "b.bin" 8))] in
  resources g = [] ++ it :: post
  /\ resources (writeFiles cls contents_unreadable_a g fd).1.2 !! 0%nat
     = Some (set_ignore TRUE it).
Proof.
  intros g fd it post.
  assert (H1 : resources g = [] ++ it :: post) by (vm_compute; reflexivity).
  destruct (ignore_is_assigned_by_writeFiles_only cls contents_unreadable_a
              g [] post it fd H1) as ((it' & Hlook & Hit') & _).
  refine (conj H1 _). subst it'.
  etransitivity; [exact Hlook | vm_compute; reflexivity].
Defined.

(** C8 as stated fails.  On a heap that happens to be zeroed both resources
    are registered with the flag [FALSE].  [a.bin] can be opened when the
    payload is written, but reading it fails: [writeFiles] sets the flag of
    the resource to [TRUE] although the file could be opened.  And on a heap
    whose blocks hold old data the flag is [TRUE] right after the
    registration, since [registerResource] does not assign it. *)
Lemma ignore_flag_counterexample :
  (let g := (patchHeaders cls SelfOpenFails (Some own_header) (with_registry two)).2 in
   let fd := {| written := []; write_oks := [] |} in
   contents_unreadable_a "a.bin" = Opened [ReadError] 0
   /\ map ignore (resources g) = [FALSE; FALSE]
   /\ map ignore (resources (writeFiles cls contents_unreadable_a g fd).1.2)
      = [TRUE; FALSE])
  /\ map ignore (registry_of (parse_manifest stat dirty w0 [line "binary" "A" "a.bin"]))
     = [TRUE].
Proof. by_evaluation. Qed.

End EmitterExamples.

(* ===================================================================== *)
(** * C strings in arrays *)
(* ===================================================================== *)

Lemma length_list_ascii_of_string (s : string) :
  length (String.list_ascii_of_string s) = String.length s.
Proof. induction s as [|c s IH]; simpl; [reflexivity | by rewrite IH]. Qed.

(** The string in front of the first NUL of an array. *)
Lemma cstring_app_nul (l rest : list ascii) :
  NUL ∉ l ->
  cstring (l ++ NUL :: rest) = String.string_of_list_ascii l.
Proof.
  induction l as [|c l IH]; intros Hnul; simpl.
  - reflexivity.
  - apply not_elem_of_cons in Hnul as [Hc Hl].
    destruct (Ascii.eqb c NUL) eqn:E.
    + apply Ascii.eqb_eq in E. congruence.
    + by rewrite IH.
Qed.

Lemma length_fill (buf : list ascii) (k : nat) (l : list ascii) :
  length (fill buf k l) = length buf.
Proof.
  revert buf k. induction l as [|c l IH]; intros buf k; simpl; [reflexivity|].
  by rewrite IH, length_insert.
Qed.

Lemma sizeof_fill (buf : list ascii) (k : nat) (l : list ascii) :
  sizeof (fill buf k l) = sizeof buf.
Proof. unfold sizeof. by rewrite length_fill. Qed.

Lemma sizeof_insert (buf : list ascii) (k : nat) (c : ascii) :
  sizeof (<[k := c]> buf) = sizeof buf.
Proof. unfold sizeof. by rewrite length_insert. Qed.

(** The array holds the field where it was stored, and in front of it what
    it held before. *)
Lemma fill_take (buf : list ascii) (k : nat) (l : list ascii) :
  (k + length l <= length buf)%nat ->
  take (k + length l) (fill buf k l) = take k buf ++ l.
Proof.
  revert buf k. induction l as [|c l IH]; intros buf k Hlen; simpl in *.
  - by rewrite Nat.add_0_r, app_nil_r.
  - replace (k + S (length l))%nat with (S k + length l)%nat by lia.
    rewrite IH by (rewrite length_insert; lia).
    rewrite (take_S_r _ k c) by (apply list_lookup_insert_eq; lia).
    rewrite take_insert_ge by lia. by rewrite <- app_assoc.
Qed.

(** A store inside the array. *)
Lemma store_inside (buf : list ascii) (i : Z) (c : ascii) :
  0 <= i < sizeof buf -> store buf i c = Some (<[Z.to_nat i := c]> buf).
Proof.
  intros H. unfold store.
  replace (0 <=? i) with true by (symmetry; apply Z.leb_le; lia).
  replace (i <? sizeof buf) with true by (symmetry; apply Z.ltb_lt; lia).
  reflexivity.
Qed.

(** A field stored from the start of the array and terminated by a NUL is
    read back as it was written, whatever the array held before. *)
Lemma cstring_terminated (buf : list ascii) (l : list ascii) :
  (length l < length buf)%nat ->
  NUL ∉ l ->
  cstring (<[length l := NUL]> (fill buf 0 l)) = String.string_of_list_ascii l.
Proof.
  intros Hlen Hnul.
  set (b := <[length l := NUL]> (fill buf 0 l)).
  assert (Hb : b !! length l = Some NUL).
  { apply list_lookup_insert_eq. rewrite length_fill. lia. }
  assert (Ht : take (length l) b = l).
  { subst b. rewrite take_insert_ge by lia.
    exact (fill_take buf 0 l ltac:(simpl; lia)). }
  rewrite <- (take_drop_middle b (length l) NUL Hb), Ht.
  by apply cstring_app_nul.
Qed.

Lemma ascii_eqb_false (c d : ascii) : c <> d -> Ascii.eqb c d = false.
Proof. intros H. by apply Ascii.eqb_neq. Qed.

Lemma fill_snoc (l : list ascii) :
  forall (buf : list ascii) (k : nat) (c : ascii),
    fill buf k (l ++ [c]) = <[(k + length l)%nat := c]> (fill buf k l).
Proof.
  induction l as [|a l IH]; intros buf k c; simpl.
  - by rewrite Nat.add_0_r.
  - rewrite IH. f_equal. lia.
Qed.

(** An array filled to its last element and then cut by a NUL in that
    element holds the characters before it. *)
Lemma cstring_cut (buf : list ascii) (l : list ascii) (n : nat) :
  length l = S n ->
  length buf = S n ->
  NUL ∉ take n l ->
  cstring (<[n := NUL]> (fill buf 0 l)) = String.string_of_list_ascii (take n l).
Proof.
  intros Hl Hbuf Hnul.
  destruct (lookup_lt_is_Some_2 l n ltac:(lia)) as [x Hx].
  assert (El : l = take n l ++ [x]).
  { rewrite <- (take_S_r l n x Hx). rewrite take_ge by lia. reflexivity. }
  assert (Hn : length (take n l) = n) by (rewrite length_take; lia).
  rewrite El at 1. rewrite fill_snoc. simpl. rewrite Hn.
  rewrite list_insert_insert_eq.
  rewrite <- Hn at 1. apply cstring_terminated; [lia | exact Hnul].
Qed.

(* ===================================================================== *)
(** * More about the layout pass *)
(* ===================================================================== *)

Section LayoutMore.

Variable cls : ElfClass.

(** Reducing modulo 2^32 and then modulo a smaller power of two. *)
Lemma to_uint_mod_pow (x k : Z) : 0 <= k <= 6 -> to_uint x mod 2 ^ k = x mod 2 ^ k.
Proof.
  intros Hk. unfold to_uint. apply Z.mod_mod_divide.
  exists (2 ^ (32 - k)). rewrite <- Z.pow_add_r by lia. f_equal. lia.
Qed.

Lemma to_uint_to_int (x : Z) : to_uint (to_int x) = to_uint x.
Proof.
  unfold to_uint, to_int.
  rewrite Zminus_mod, Z.mod_mod by lia.
  rewrite <- Zminus_mod. f_equal. lia.
Qed.

Lemma to_int_mod_pow (x k : Z) : 0 <= k <= 6 -> to_int x mod 2 ^ k = x mod 2 ^ k.
Proof.
  intros Hk. rewrite <- (to_uint_mod_pow (to_int x)), to_uint_to_int by exact Hk.
  by apply to_uint_mod_pow.
Qed.

Lemma to_uint_add_to_int (x y : Z) : to_uint (to_int x + y) = to_uint (x + y).
Proof.
  unfold to_uint. rewrite Zplus_mod. fold (to_uint (to_int x)).
  rewrite to_uint_to_int. unfold to_uint. by rewrite <- Zplus_mod.
Qed.

Lemma to_uint_to_word (x : Z) : to_uint (to_word cls x) = to_uint x.
Proof.
  unfold to_uint, to_word. apply Z.mod_mod_divide.
  destruct cls; simpl.
  - exists 1. lia.
  - exists (2 ^ 32). lia.
Qed.

(** The inner loop, started on a power of two that is not more than twice
    the size: the result is not more than twice the size either, and lies
    between the start and the pointer width. *)
Lemma align_loop_minimal (fuel : nat) (sz j : Z) :
  0 <= j <= 6 ->
  2 ^ j <= pointer_bits cls ->
  (1 < 2 ^ j -> 2 ^ j < 2 * sz) ->
  let a := align_loop cls fuel sz (2 ^ j) in
  (1 < a -> a < 2 * sz) /\ 2 ^ j <= a <= pointer_bits cls.
Proof.
  revert j. induction fuel as [|fuel IH]; intros j Hj Hle Hmin; cbv zeta.
  - simpl. split; [exact Hmin | lia].
  - cbn [align_loop].
    destruct ((2 ^ j <? pointer_bits cls) && (2 ^ j <? sz)) eqn:Hcond.
    + apply andb_prop in Hcond as [Hlt Hsz].
      apply Z.ltb_lt in Hlt. apply Z.ltb_lt in Hsz.
      assert (Hcases : j = 0 \/ j = 1 \/ j = 2 \/ j = 3 \/ j = 4 \/ j = 5).
      { destruct (decide (j = 6)) as [->|]; [|lia].
        destruct cls; simpl in Hlt; lia. }
      assert (Hpow : 2 ^ (j + 1) = 2 * 2 ^ j).
      { rewrite Z.pow_add_r by lia. lia. }
      assert (Hnext : 2 ^ (j + 1) <= pointer_bits cls).
      { clear -Hlt Hcases.
        destruct cls; simpl in *;
          destruct Hcases as [->|[->|[->|[->|[->| ->]]]]]; simpl in *; lia. }
      assert (Hdouble : to_int (Z.shiftl (2 ^ j) 1) = 2 ^ (j + 1)).
      { rewrite Z.shiftl_mul_pow2 by lia. rewrite <- Z.pow_add_r by lia.
        apply to_int_small. unfold INT_MAX.
        assert (pointer_bits cls <= 64) by (destruct cls; simpl; lia).
        assert (0 < 2 ^ (j + 1)) by (apply Z.pow_pos_nonneg; lia). lia. }
      rewrite Hdouble.
      destruct (IH (j + 1)) as [H1 H2]; [lia | exact Hnext | lia |].
      split; [exact H1 | lia].
    + split; [exact Hmin | lia].
Qed.

Lemma resource_align_range (sz : Z) : 1 <= resource_align cls sz <= pointer_bits cls.
Proof.
  destruct (align_loop_minimal (Z.to_nat (pointer_bits cls)) sz 0) as [_ Hrange];
    [lia | destruct cls; simpl; lia | simpl; lia |].
  exact Hrange.
Qed.

(** X1. The alignment the layout pass asks for one resource is the smallest
    power of two that is not below the size of the resource, but never more
    than the number of bits of a pointer: a power of two between 1 and the
    pointer width; not below the size when the size is at most the pointer
    width, and the pointer width itself for every larger size; and, unless
    it is 1, less than twice the size. *)
Theorem resource_align_is_capped_power_of_two (sz : Z) :
  let a := resource_align cls sz in
  (exists k, 0 <= k <= 6 /\ a = 2 ^ k)
  /\ 1 <= a <= pointer_bits cls
  /\ (sz <= pointer_bits cls -> sz <= a)
  /\ (pointer_bits cls <= sz -> a = pointer_bits cls)
  /\ (1 < a -> a < 2 * sz).
Proof.
  cbv zeta.
  destruct (resource_align_pow cls sz) as [Hexit Hpow].
  destruct (align_loop_minimal (Z.to_nat (pointer_bits cls)) sz 0) as [Hmin Hrange];
    [lia | destruct cls; simpl; lia | simpl; lia |].
  unfold resource_align in *.
  change (2 ^ 0) with 1 in *.
  apply andb_false_iff in Hexit.
  rewrite !Z.ltb_ge in Hexit.
  split; [exact Hpow|]. split; [lia|]. split; [lia|]. split; [lia | exact Hmin].
Qed.

(** [maxalign_loop] returns the largest of its start value and the
    alignments of the resources. *)
Lemma maxalign_loop_max (rs : list Resource) (m : Z) :
  let al := maxalign_loop cls rs m in
  m <= al
  /\ (forall r, r ∈ rs -> resource_align cls (size r) <= al)
  /\ (al = m \/ exists r, r ∈ rs /\ al = resource_align cls (size r)).
Proof.
  revert m. induction rs as [|it rest IH]; intros m; cbv zeta.
  - simpl. split; [lia|]. split; [|by left].
    intros r Hr. by apply elem_of_nil in Hr.
  - cbn [maxalign_loop].
    set (a := resource_align cls (size it)).
    destruct (IH (if a >? m then a else m)) as (Hge & Hall & Hone).
    assert (Hmax : m <= (if a >? m then a else m) /\ a <= (if a >? m then a else m)).
    { destruct (a >? m) eqn:E; [apply Z.gtb_lt in E | rewrite Z.gtb_ltb in E;
        apply Z.ltb_ge in E]; lia. }
    split; [lia|]. split.
    + intros r Hr. apply elem_of_cons in Hr as [->|Hr]; [fold a; lia | by apply Hall].
    + destruct Hone as [Heq|(r & Hr & Heq)].
      * destruct (a >? m); [right | by left].
        exists it. split; [apply list_elem_of_here | exact Heq].
      * right. exists r. split; [by apply list_elem_of_further | exact Heq].
Qed.

(** X2. The alignment [patchHeaders] stores in the payload section header
    is the largest of the alignments of the registered resources, and 1 for
    an empty registry; it is never more than the number of bits of a
    pointer. *)
Theorem section_alignment_is_the_largest
    (self : SelfImage) (archhdr : option Ehdr) (g g' : Globals) :
  patchHeaders cls self archhdr g = (0, g') ->
  let al := sh_addralign (rodataHeader g') in
  1 <= al <= pointer_bits cls
  /\ (forall r, r ∈ resources g -> resource_align cls (size r) <= al)
  /\ (al = 1 \/ exists r, r ∈ resources g /\ al = resource_align cls (size r))
  /\ (resources g = [] -> al = 1).
Proof.
  intros Hpatch. destruct (patchHeaders_ok _ _ _ _ _ Hpatch) as [h ->].
  destruct (patch_layout_unfold cls h g) as (g1 & _ & Hal & _). cbv zeta in Hal.
  cbv zeta. rewrite Hal.
  destruct (maxalign_loop_max (resources g) 1) as (Hge & Hall & Hone).
  destruct (maxalign_loop_pow cls (resources g) 0 ltac:(lia)) as (k & Hk & Hpow).
  change (2 ^ 0) with 1 in Hpow.
  assert (Hle : maxalign_loop cls (resources g) 1 <= pointer_bits cls).
  { destruct Hone as [->|(r & _ & ->)]; [destruct cls; simpl; lia|].
    pose proof (resource_align_range (size r)). lia. }
  assert (Hw : to_word cls (maxalign_loop cls (resources g) 1)
               = maxalign_loop cls (resources g) 1).
  { unfold to_word. apply Z.mod_small. destruct cls; simpl in *; lia. }
  rewrite Hw. split; [lia|]. split; [exact Hall|]. split; [exact Hone|].
  intros Hnil. rewrite Hnil. reflexivity.
Qed.

(** The payload accumulator stays a multiple of the alignment from one
    resource to the next, whether or not it wraps around. *)
Lemma layout_loop_aligned (g : Globals) (k : Z) (rs : list Resource) (acc : Sizes) :
  0 <= k <= 6 ->
  sh_addralign (rodataHeader g) = 2 ^ k ->
  Forall (fun r => 0 <= size r < 2 ^ 32) rs ->
  payloadSize acc mod 2 ^ k = 0 ->
  forall i r, (layout_loop cls g rs acc).1 !! i = Some r ->
    payloadOffset r mod 2 ^ k = 0.
Proof.
  intros Hk Hal Hrs. revert acc.
  induction Hrs as [|it rest Hit Hrest IH]; intros acc Hacc i r; [done|].
  cbn [layout_loop].
  set (p1 := to_int (payloadSize acc + size it)).
  set (p2 := match rest with [] => p1 | _ :: _ => to_int (p1 + padding cls g (size it)) end).
  match goal with |- context [layout_loop cls g rest ?a] =>
    specialize (IH a); pose proof (layout_loop_length cls g rest a) as Hlen;
    destruct (layout_loop cls g rest a) as [rest' fin] end.
  cbn [payloadSize fst] in *.
  destruct i as [|i]; simpl.
  - intros [= <-]. simpl. by rewrite to_uint_mod_pow.
  - intros Hi. destruct rest as [|it2 rest2].
    { destruct rest'; simpl in Hlen; [done | lia]. }
    apply (fun H => IH H i r Hi). subst p2 p1.
    destruct (padding_rounds_up cls g k (size it) Hk Hal Hit) as (_ & Hpad & _).
    assert (Hpos : 0 < 2 ^ k) by (apply Z.pow_pos_nonneg; lia).
    rewrite to_int_mod_pow by exact Hk.
    rewrite Zplus_mod, to_int_mod_pow, <- Zplus_mod by exact Hk.
    rewrite <- Z.add_assoc, Zplus_mod, Hacc, Hpad. reflexivity.
Qed.

(** X3. Every resource starts at a multiple of the section alignment: after
    [patchHeaders] the [payloadOffset] of each registered resource is
    divisible by the alignment stored in the payload section header, for
    registries of any size (the sums may wrap around; the alignment divides
    2^32). *)
Theorem payload_offsets_are_aligned
    (self : SelfImage) (archhdr : option Ehdr) (qs : list Registration)
    (g g' : Globals) :
  resources g = register_all qs ->
  patchHeaders cls self archhdr g = (0, g') ->
  forall r, r ∈ resources g' ->
    payloadOffset r mod sh_addralign (rodataHeader g') = 0.
Proof.
  intros Hreg Hpatch r Hr.
  destruct (patchHeaders_ok _ _ _ _ _ Hpatch) as [h ->].
  destruct (gaps_round_up cls h g qs Hreg) as (k & Hk & Hal & _). cbv zeta in Hal.
  destruct (patch_layout_unfold cls h g) as (g1 & Ha1 & _ & Hrs & _). cbv zeta in *.
  rewrite Hal. rewrite Hrs in Hr.
  apply list_elem_of_lookup in Hr as [i Hi].
  pose proof (register_all_sizes qs) as Hrange. rewrite <- Hreg in Hrange.
  eapply (layout_loop_aligned g1 k); [exact Hk | congruence | exact Hrange | | exact Hi].
  simpl. apply Z.mod_0_l. assert (0 < 2 ^ k) by (apply Z.pow_pos_nonneg; lia). lia.
Qed.

(** The payload accumulator modulo 2^32, with no bound on the sizes. *)
Lemma layout_loop_payload_wraps (g : Globals) (rs : list Resource) (acc : Sizes) :
  to_uint (payloadSize (layout_loop cls g rs acc).2)
  = to_uint (payloadSize acc + declared_payload cls g rs)
  /\ forall i r, (layout_loop cls g rs acc).1 !! i = Some r ->
       payloadOffset r = to_uint (payloadSize acc + preceding_payload cls g rs i).
Proof.
  revert acc. induction rs as [|it rest IH]; intros acc.
  - simpl. split; [|done]. unfold declared_payload. simpl. f_equal. lia.
  - cbn [layout_loop].
    set (p1 := to_int (payloadSize acc + size it)).
    set (gap := match rest with [] => 0 | _ :: _ => padding cls g (size it) end).
    set (p2 := match rest with [] => p1 | _ :: _ => to_int (p1 + padding cls g (size it)) end).
    assert (Hp2 : forall x, to_uint (p2 + x) = to_uint (payloadSize acc + size it + gap + x)).
    { intros x. subst p2 p1 gap. destruct rest.
      - rewrite to_uint_add_to_int. f_equal. lia.
      - rewrite to_uint_add_to_int.
        rewrite <- Z.add_assoc, to_uint_add_to_int. f_equal. lia. }
    match goal with |- context [layout_loop cls g rest ?a] =>
      specialize (IH a); pose proof (layout_loop_length cls g rest a) as Hlen;
      destruct (layout_loop cls g rest a) as [rest' fin] end.
    cbn [payloadSize fst snd] in *. destruct IH as [IH1 IH2].
    assert (Hgaps : zsum (gaps cls g (it :: rest)) = gap + zsum (gaps cls g rest)).
    { subst gap. destruct rest; simpl; lia. }
    split.
    + rewrite IH1, Hp2. f_equal. unfold declared_payload.
      rewrite Hgaps. cbn [map zsum foldr]. unfold zsum. lia.
    + intros [|i] r; simpl.
      * intros [= <-]. simpl. f_equal. unfold preceding_payload. simpl. lia.
      * intros Hi. rewrite (IH2 i r Hi), Hp2. f_equal.
        destruct rest as [|it2 rest2].
        { destruct rest'; simpl in Hlen; [done | lia]. }
        subst gap. unfold preceding_payload.
        cbn [take map zsum foldr gaps]. unfold zsum. lia.
Qed.

(** X4. With no bound on the sizes, the layout is the one of C3 modulo 2^32:
    the [payloadOffset] of the i-th resource is the sum of the sizes and
    gaps before it reduced modulo 2^32, and the size declared for the
    payload section agrees with the sum of all sizes and gaps modulo 2^32. *)
Theorem payload_offsets_wrap_around
    (self : SelfImage) (archhdr : option Ehdr) (g g' : Globals) :
  patchHeaders cls self archhdr g = (0, g') ->
  (forall i r, resources g' !! i = Some r ->
     payloadOffset r = to_uint (preceding_payload cls g' (resources g') i))
  /\ to_uint (sh_size (rodataHeader g'))
     = to_uint (declared_payload cls g' (resources g')).
Proof.
  intros Hpatch.
  destruct (patchHeaders_ok _ _ _ _ _ Hpatch) as [h ->].
  destruct (patch_layout_unfold cls h g) as (g1 & Ha & _ & Hrs & Hsz & _).
  cbv zeta in *.
  set (acc0 := {| payloadSize := 0; symtabSize := to_int (sizeof_symtabData cls);
                  strtabSize := 1 |}) in *.
  set (g' := patch_layout cls h g) in *.
  destruct (layout_loop_sizes cls g1 (resources g) acc0) as (Hsizes & _).
  rewrite <- Hrs in Hsizes.
  destruct (layout_loop_payload_wraps g1 (resources g) acc0) as [Hend Hoff].
  split.
  - intros i r Hi. rewrite Hrs in Hi. rewrite (Hoff i r Hi). simpl. f_equal.
    apply preceding_payload_ext; [exact Ha | by symmetry].
  - rewrite Hsz, to_uint_to_word, Hend. simpl. f_equal.
    apply declared_payload_ext; [exact Ha | by symmetry].
Qed.

(** The second loop writes the two offset fields of a resource and no other. *)
Lemma layout_loop_keeps_fields (g : Globals) (rs : list Resource) (acc : Sizes) :
  map (set_offsets 0 0) (layout_loop cls g rs acc).1 = map (set_offsets 0 0) rs.
Proof.
  revert acc. induction rs as [|it rest IH]; intros acc; [reflexivity|].
  cbn [layout_loop].
  match goal with |- context [layout_loop cls g rest ?a] =>
    specialize (IH a); destruct (layout_loop cls g rest a) as [rest' fin] end.
  simpl in *. by rewrite IH.
Qed.

(** X5. [patchHeaders] changes nothing of a resource but its two offsets:
    the registry keeps its length and order, and every resource keeps its
    type, symbol, name length, file name, size and [ignore] flag. *)
Theorem patchHeaders_keeps_the_registry
    (self : SelfImage) (archhdr : option Ehdr) (g g' : Globals) :
  patchHeaders cls self archhdr g = (0, g') ->
  length (resources g') = length (resources g)
  /\ forall i r', resources g' !! i = Some r' ->
       exists r, resources g !! i = Some r
         /\ type r' = type r /\ symbol r' = symbol r
         /\ symbolSize r' = symbolSize r /\ filename r' = filename r
         /\ size r' = size r /\ ignore r' = ignore r.
Proof.
  intros Hpatch.
  destruct (patchHeaders_ok _ _ _ _ _ Hpatch) as [h ->].
  destruct (patch_layout_unfold cls h g) as (g1 & _ & _ & Hrs & _). cbv zeta in Hrs.
  rewrite Hrs. split; [apply layout_loop_length|].
  intros i r' Hi.
  pose proof (map_lookup_Some (set_offsets 0 0) _ _ _ Hi) as Hm.
  rewrite layout_loop_keeps_fields in Hm.
  apply map_lookup_inv in Hm as (r & Hr & Heq).
  exists r. split; [exact Hr|].
  pose proof (f_equal type Heq) as H1. pose proof (f_equal symbol Heq) as H2.
  pose proof (f_equal symbolSize Heq) as H3. pose proof (f_equal filename Heq) as H4.
  pose proof (f_equal size Heq) as H5. pose proof (f_equal ignore Heq) as H6.
  simpl in H1, H2, H3, H4, H5, H6.
  exact (conj H1 (conj H2 (conj H3 (conj H4 (conj H5 H6))))).
Qed.

(** The file offsets [patch_layout] leaves in the three patched headers. *)
Lemma patch_layout_offsets (h : Ehdr) (g : Globals) :
  exists g1,
    let acc0 := {| payloadSize := 0; symtabSize := to_int (sizeof_symtabData cls);
                   strtabSize := 1 |} in
    let fin := (layout_loop cls g1 (resources g) acc0).2 in
    let g' := patch_layout cls h g in
    sh_offset (symtabHeader g') = sh_offset (symtabHeader g)
    /\ sh_offset (strtabHeader g')
       = to_word cls (sh_offset (strtabHeader g) + symtabSize fin)
    /\ sh_offset (rodataHeader g')
       = to_word cls (sh_offset (rodataHeader g) + to_int (symtabSize fin + strtabSize fin))
    /\ sh_size (symtabHeader g') = to_word cls (symtabSize fin)
    /\ sh_size (strtabHeader g') = to_word cls (strtabSize fin).
Proof.
  eexists. cbv zeta. unfold patch_layout. cbv zeta.
  match goal with |- context [layout_loop cls ?g1 ?rs ?a] =>
    destruct (layout_loop cls g1 rs a) as [rs' fin] eqn:E end.
  cbn [resources rodataHeader symtabHeader strtabHeader sh_size sh_offset sh_addralign
       set_sh_size set_sh_offset set_sh_addralign] in *.
  rewrite E. cbn [fst snd]. repeat split; reflexivity.
Qed.

(** The offsets and sizes of the two tables and the offset of the payload
    after [patchHeaders] on the initial headers, for tables that together
    fit an [int]. *)
Lemma patched_sections
    (data : Z) (self : SelfImage) (archhdr : option Ehdr)
    (qs : list Registration) (g' : Globals) :
  patchHeaders cls self archhdr (set_resources (register_all qs) (initial_globals cls data))
  = (0, g') ->
  (7 + Z.of_nat (length qs)) * sizeof_Sym cls + names_size qs <= INT_MAX ->
  let fixed := TOTALHEADERSIZE cls + sizeof_commentData + sizeof_shstrtabData in
  sh_offset (symtabHeader g') = fixed
  /\ sh_size (symtabHeader g') = (7 + Z.of_nat (length qs)) * sizeof_Sym cls
  /\ sh_offset (strtabHeader g') = fixed + (7 + Z.of_nat (length qs)) * sizeof_Sym cls
  /\ sh_size (strtabHeader g') = names_size qs
  /\ sh_offset (rodataHeader g')
     = fixed + (7 + Z.of_nat (length qs)) * sizeof_Sym cls + names_size qs.
Proof.
  intros Hpatch Hfit. cbv zeta.
  destruct (patchHeaders_ok _ _ _ _ _ Hpatch) as [h ->].
  set (g := set_resources (register_all qs) (initial_globals cls data)) in *.
  destruct (patch_layout_offsets h g) as (g1 & Hsym & Hstr & Hro & Hsymsz & Hstrsz).
  cbv zeta in *.
  set (acc0 := {| payloadSize := 0; symtabSize := to_int (sizeof_symtabData cls);
                  strtabSize := 1 |}) in *.
  assert (Hsz : 0 < sizeof_Sym cls) by (destruct cls; simpl; lia).
  assert (Hnames : 1 <= names_size qs).
  { unfold names_size.
    assert (0 <= zsum (map (fun q => strlen (reg_symbol q) + 1) qs)); [|lia].
    clear. induction qs as [|q qs IH]; simpl; [lia|]. unfold strlen at 1. lia. }
  assert (H7 : to_int (sizeof_symtabData cls) = 7 * sizeof_Sym cls).
  { unfold sizeof_symtabData. simpl length. apply to_int_small. unfold INT_MAX in *. nia. }
  (* the two table sizes *)
  assert (Hsymfin : symtabSize (layout_loop cls g1 (resources g) acc0).2
                    = (7 + Z.of_nat (length qs)) * sizeof_Sym cls).
  { assert (Hlen : length (resources g) = length qs)
      by (subst g; cbn [resources set_resources]; apply register_all_length).
    rewrite layout_loop_symtab; subst acc0; cbn [symtabSize]; rewrite H7, ?Hlen; nia. }
  assert (Hq : map symbolSize (resources g) = map (fun q => strlen (reg_symbol q) + 1) qs).
  { subst g. cbn [resources set_resources]. rewrite register_all_map.
    apply registered_symbolSizes. lia. }
  assert (Hnn : Forall (fun r => 0 <= symbolSize r) (resources g)).
  { apply Forall_forall. intros r Hr.
    apply list_elem_of_lookup in Hr as [i Hi].
    pose proof (map_lookup_Some symbolSize _ _ _ Hi) as H1. rewrite Hq in H1.
    apply map_lookup_inv in H1 as (q & _ & ->). unfold strlen. lia. }
  assert (Hstrfin : strtabSize (layout_loop cls g1 (resources g) acc0).2 = names_size qs).
  { destruct (layout_loop_strtab cls g1 (resources g) acc0 Hnn) as [-> _].
    - subst acc0. cbn [strtabSize]. lia.
    - subst acc0. cbn [strtabSize]. rewrite Hq. fold (names_size qs). lia.
    - subst acc0. cbn [strtabSize]. rewrite Hq. reflexivity. }
  rewrite Hsymfin in *. rewrite Hstrfin in *.
  assert (Hstatic : 0 <= sizeof_Ehdr cls + 9 * sizeof_Shdr cls
                         + sizeof_commentData + sizeof_shstrtabData <= 1000).
  { destruct cls; vm_compute; split; discriminate. }
  assert (Hw : forall z, 0 <= z <= INT_MAX + 1000 -> to_word cls z = z).
  { intros z Hz. unfold to_word. apply Z.mod_small.
    unfold INT_MAX in *. destruct cls; simpl; lia. }
  rewrite Hsym, Hstr, Hro, Hsymsz, Hstrsz.
  subst g. cbn [symtabHeader strtabHeader rodataHeader initial_globals set_resources
                sh_offset sh_size symtabHeader0 strtabHeader0 rodataHeader0
                commentHeader shstrtabHeader mkShdr].
  unfold TOTALHEADERSIZE, SECTIONHEADERCOUNT in *.
  rewrite (to_int_small ((7 + Z.of_nat (length qs)) * sizeof_Sym cls + names_size qs))
    by (unfold INT_MAX in *; nia).
  rewrite !Hw by (unfold INT_MAX in *; nia).
  repeat split; lia.
Qed.

(** X6. After [patchHeaders] on the initial headers the five sections that
    have contents lie one behind the other in the file, in the order in
    which [writeELFRelocatable] writes them: the comment right after the ELF
    header and the nine section headers, then the section names, the symbol
    table, the string table and the payload, each at the offset where the
    one before it ends.  (For tables that together fit an [int].) *)
Theorem sections_follow_each_other
    (data : Z) (self : SelfImage) (archhdr : option Ehdr)
    (qs : list Registration) (g' : Globals) :
  patchHeaders cls self archhdr (set_resources (register_all qs) (initial_globals cls data))
  = (0, g') ->
  (7 + Z.of_nat (length qs)) * sizeof_Sym cls + names_size qs <= INT_MAX ->
  sh_offset (commentHeader cls) = sizeof_Ehdr cls + 9 * sizeof_Shdr cls
  /\ sh_offset (shstrtabHeader cls)
     = sh_offset (commentHeader cls) + sh_size (commentHeader cls)
  /\ sh_offset (symtabHeader g')
     = sh_offset (shstrtabHeader cls) + sh_size (shstrtabHeader cls)
  /\ sh_offset (strtabHeader g')
     = sh_offset (symtabHeader g') + sh_size (symtabHeader g')
  /\ sh_offset (rodataHeader g')
     = sh_offset (strtabHeader g') + sh_size (strtabHeader g').
Proof.
  intros Hpatch Hfit.
  destruct (patched_sections data self archhdr qs g' Hpatch Hfit)
    as (Hsym & Hsymsz & Hstr & Hstrsz & Hro).
  rewrite Hsym, Hsymsz, Hstr, Hstrsz, Hro.
  cbn [commentHeader shstrtabHeader mkShdr sh_offset sh_size].
  unfold TOTALHEADERSIZE, SECTIONHEADERCOUNT.
  repeat split; lia.
Qed.

(** X22. [padding] is the distance to the next multiple of the section
    alignment, except that a size that is a multiple already gets a whole
    alignment unless it is the alignment itself.  For an alignment 2^k with
    k <= 6, the only ones [patchHeaders] stores, and a size below 2^32: the
    size plus the gap is a multiple of the alignment; a size that is no
    multiple gets the gap to the next one, less than the alignment; a size
    that is a multiple gets the whole alignment, and 0 only when it is the
    alignment. *)
Theorem padding_is_the_distance_to_the_next_multiple (g : Globals) (k sz : Z) :
  0 <= k <= 6 ->
  sh_addralign (rodataHeader g) = 2 ^ k ->
  0 <= sz < 2 ^ 32 ->
  let al := 2 ^ k in
  let p := padding cls g sz in
  (sz + p) mod al = 0
  /\ (sz mod al <> 0 -> p = al - sz mod al /\ 0 < p < al)
  /\ (sz mod al = 0 -> sz <> al -> p = al)
  /\ (sz = al -> p = 0).
Proof.
  intros Hk Hal Hsz al p.
  assert (Hpos : 0 < al) by (subst al; apply Z.pow_pos_nonneg; lia).
  pose proof (padding_pow cls g k sz Hk Hal Hsz) as Hp. fold al in Hp. fold p in Hp.
  destruct (padding_rounds_up cls g k sz Hk Hal Hsz) as (_ & Hmul & _).
  fold al in Hmul. fold p in Hmul.
  pose proof (Z.mod_pos_bound sz al Hpos) as Hmod.
  split; [exact Hmul|].
  destruct (Z.eqb_spec sz al) as [E|E].
  - split; [|split; [congruence | intros _; exact Hp]].
    intros Hne. exfalso. apply Hne. rewrite E. apply Z_mod_same_full.
  - split; [intros Hne; split; lia|]. split; [|congruence].
    intros Hz _. rewrite Hp, Hz. lia.
Qed.

End LayoutMore.

(* ===================================================================== *)
(** * More about the emitter *)
(* ===================================================================== *)

Section EmitterMore.

Variable cls : ElfClass.
Variable open_src : string -> OpenResult.

Lemma written_bytes_app (l1 l2 : list Written) :
  written_bytes (l1 ++ l2) = written_bytes l1 ++ written_bytes l2.
Proof. unfold written_bytes. by rewrite map_app, concat_app. Qed.

Lemma symbols_of_app (l1 l2 : list Written) :
  symbols_of (l1 ++ l2) = symbols_of l1 ++ symbols_of l2.
Proof. unfold symbols_of. by rewrite map_app, concat_app. Qed.

Lemma written_bytes_one (l : list ascii) : written_bytes [WBytes l] = l.
Proof. unfold written_bytes. simpl. apply app_nil_r. Qed.

Lemma symbols_of_bytes (l : list ascii) : symbols_of [WBytes l] = [].
Proof. reflexivity. Qed.

(** A [write] to a descriptor on which every [write] succeeds. *)
Lemma write_ok (fd : OutFD) (x : Written) :
  write_oks fd = [] ->
  write fd x = (0, {| written := written fd ++ [x]; write_oks := [] |}).
Proof. intros H. unfold write. by rewrite H. Qed.

(** The copy loop on full buffers followed by a short one. *)
Lemma copy_loop_chunks (chunks : list (list ascii)) (last : list ascii)
    (rest : list ReadResult) (dst : OutFD) :
  Forall (fun chunk => sizeof chunk = 8192) chunks ->
  sizeof last < 8192 ->
  write_oks dst = [] ->
  let out := copy_loop (map ReadBytes chunks ++ ReadBytes last :: rest) dst in
  out.1 = true
  /\ written_bytes (written out.2) = written_bytes (written dst) ++ concat chunks ++ last
  /\ symbols_of (written out.2) = symbols_of (written dst)
  /\ write_oks out.2 = [].
Proof.
  intros Hfull Hlast. revert dst.
  assert (Htake : forall l : list ascii, sizeof l <= 8192 -> take (Z.to_nat 8192) l = l).
  { intros l Hl. apply take_ge. unfold sizeof in Hl. lia. }
  induction Hfull as [|chunk chunks Hc _ IH]; intros dst Hoks; cbv zeta.
  - cbn [map app copy_loop]. rewrite Htake by lia.
    rewrite (write_ok dst _ Hoks).
    replace (0 =? -1) with false by reflexivity.
    replace (sizeof last =? 8192) with false by (symmetry; apply Z.eqb_neq; lia).
    cbn [fst snd written write_oks].
    rewrite written_bytes_app, symbols_of_app, written_bytes_one, symbols_of_bytes.
    by rewrite !app_nil_r.
  - cbn [map app copy_loop]. rewrite Htake by lia.
    rewrite (write_ok dst _ Hoks).
    replace (0 =? -1) with false by reflexivity.
    replace (sizeof chunk =? 8192) with true by (symmetry; apply Z.eqb_eq; lia).
    destruct (IH {| written := written dst ++ [WBytes chunk]; write_oks := [] |} eq_refl)
      as (H1 & H2 & H3 & H4).
    split; [exact H1|]. split; [|split; [|exact H4]].
    + rewrite H2. cbn [written concat]. rewrite written_bytes_app, written_bytes_one.
      by rewrite <- !app_assoc.
    + rewrite H3. cbn [written]. by rewrite symbols_of_app, symbols_of_bytes, app_nil_r.
Qed.

(** X7. [copyFileToFD] copies a readable file to the destination byte by
    byte: when the file opens, [read] delivers full buffers and then a
    shorter one, every [write] succeeds and [close] returns [close_ret], the
    destination has received exactly the contents of the file and the
    function returns [close_ret].  What the descriptor would deliver after
    the short read is never asked for. *)
Theorem copyFileToFD_copies_the_file
    (src : string) (chunks : list (list ascii)) (last : list ascii)
    (rest : list ReadResult) (close_ret : Z) (dst : OutFD) :
  open_src src = Opened (map ReadBytes chunks ++ ReadBytes last :: rest) close_ret ->
  Forall (fun chunk => sizeof chunk = 8192) chunks ->
  sizeof last < 8192 ->
  write_oks dst = [] ->
  let out := copyFileToFD open_src src dst in
  out.1 = close_ret
  /\ written_bytes (written out.2) = written_bytes (written dst) ++ concat chunks ++ last
  /\ write_oks out.2 = [].
Proof.
  intros Hopen Hfull Hlast Hoks. cbv zeta. unfold copyFileToFD. rewrite Hopen.
  destruct (copy_loop_chunks chunks last rest dst Hfull Hlast Hoks) as (H1 & H2 & _ & H4).
  destruct (copy_loop _ dst) as [ok dst']. simpl in *. subst ok.
  by split.
Qed.

(** The same for a file known to be [readable]. *)
Lemma copyFileToFD_readable (path : string) (content : list ascii) (dst : OutFD) :
  readable open_src path content ->
  write_oks dst = [] ->
  let out := copyFileToFD open_src path dst in
  out.1 <> -1
  /\ written_bytes (written out.2) = written_bytes (written dst) ++ content
  /\ symbols_of (written out.2) = symbols_of (written dst)
  /\ write_oks out.2 = [].
Proof.
  intros (chunks & last & rest & c & Hopen & Hfull & Hlast & Hc & ->) Hoks. cbv zeta.
  unfold copyFileToFD. rewrite Hopen.
  destruct (copy_loop_chunks chunks last rest dst Hfull Hlast Hoks) as (H1 & H2 & H3 & H4).
  destruct (copy_loop _ dst) as [ok dst']. simpl in *. subst ok.
  by split.
Qed.

Lemma write_padding_ok (n : nat) (fd : OutFD) :
  write_oks fd = [] ->
  written_bytes (written (write_padding n fd)) = written_bytes (written fd) ++ replicate n NUL
  /\ symbols_of (written (write_padding n fd)) = symbols_of (written fd)
  /\ write_oks (write_padding n fd) = [].
Proof.
  revert fd. induction n as [|n IH]; intros fd Hoks.
  - simpl. by rewrite app_nil_r.
  - cbn [write_padding]. rewrite (write_ok fd _ Hoks). cbn [snd].
    destruct (IH {| written := written fd ++ [WBytes [NUL]]; write_oks := [] |} eq_refl)
      as (H1 & H2 & H3).
    rewrite H1, H2. cbn [written].
    rewrite written_bytes_app, symbols_of_app, written_bytes_one, symbols_of_bytes.
    rewrite app_nil_r, <- app_assoc. by split.
Qed.

(** One turn of the loop of [writeFiles] for a readable file. *)
Lemma writeFiles_body_readable (g : Globals) (has_next : bool) (it : Resource)
    (file : string -> list ascii) (fd : OutFD) :
  readable open_src (filename it) (file (filename it)) ->
  write_oks fd = [] ->
  let out := writeFiles_body cls open_src g has_next it fd in
  out.1 = set_ignore FALSE it
  /\ written_bytes (written out.2)
     = written_bytes (written fd) ++ resource_bytes file it
       ++ (if has_next
           then replicate (Z.to_nat (to_int (padding cls g (size it)))) NUL
           else [])
  /\ symbols_of (written out.2) = symbols_of (written fd)
  /\ write_oks out.2 = [].
Proof.
  intros Hread Hoks. cbv zeta. unfold writeFiles_body.
  destruct (copyFileToFD_readable _ _ fd Hread Hoks) as (Hret & Hbytes & Hsyms & Hoks1).
  destruct (copyFileToFD open_src (filename it) fd) as [r fd1]. cbn [fst snd] in *.
  replace (r =? -1) with false by (symmetry; by apply Z.eqb_neq).
  set (fd2 := match type it with TEXT => (write fd1 (WBytes [NUL])).2 | BINARY => fd1 end).
  assert (H2 : written_bytes (written fd2)
               = written_bytes (written fd) ++ resource_bytes file it
               /\ symbols_of (written fd2) = symbols_of (written fd)
               /\ write_oks fd2 = []).
  { subst fd2. unfold resource_bytes, terminator. destruct (type it).
    - rewrite (write_ok fd1 _ Hoks1). cbn [snd written write_oks].
      rewrite written_bytes_app, symbols_of_app, written_bytes_one, symbols_of_bytes.
      rewrite Hbytes, Hsyms, app_nil_r, <- app_assoc. by split.
    - rewrite app_nil_r. by split. }
  destruct H2 as (Hb2 & Hs2 & Ho2).
  cbn [fst snd]. split; [reflexivity|].
  destruct has_next.
  - destruct (write_padding_ok (Z.to_nat (to_int (padding cls g (size it)))) fd2 Ho2)
      as (Hb3 & Hs3 & Ho3).
    rewrite Hb3, Hs3, Hb2, Hs2, <- app_assoc. by split.
  - rewrite app_nil_r. by split.
Qed.

(** The loop of [writeFiles] over readable files. *)
Lemma writeFiles_loop_readable (g : Globals) (file : string -> list ascii)
    (rs : list Resource) :
  forall fd0,
    (forall r, r ∈ rs -> readable open_src (filename r) (file (filename r))) ->
    write_oks fd0 = [] ->
    let out := writeFiles_loop cls open_src g rs fd0 in
    out.1 = map (set_ignore FALSE) rs
    /\ written_bytes (written out.2)
       = written_bytes (written fd0) ++ payload_image cls g file rs
    /\ symbols_of (written out.2) = symbols_of (written fd0)
    /\ write_oks out.2 = [].
Proof.
  induction rs as [|it rest IH]; intros fd0 Hread Hoks; cbv zeta.
  - simpl. by rewrite app_nil_r.
  - cbn [writeFiles_loop payload_image].
    set (has_next := match rest with [] => false | _ :: _ => true end).
    destruct (writeFiles_body_readable g has_next it file fd0) as (H1 & H2 & H3 & H4);
      [apply Hread, list_elem_of_here | exact Hoks |].
    destruct (writeFiles_body cls open_src g has_next it fd0) as [it' fd1].
    cbn [fst snd] in *.
    destruct (IH fd1) as (I1 & I2 & I3 & I4);
      [intros r Hr; by apply Hread, list_elem_of_further | exact H4 |].
    destruct (writeFiles_loop cls open_src g rest fd1) as [rest' fd'].
    cbn [fst snd] in *. subst it' rest'.
    split; [reflexivity|]. split; [|split; [congruence | exact I4]].
    rewrite I2, H2, <- !app_assoc. subst has_next. by destruct rest.
Qed.

(** X8. When every file of the registry can be read and every [write]
    succeeds, [writeFiles] writes the payload in registration order: for
    each resource the bytes of its file, one NUL more for a resource of
    type [TEXT], and after every resource but the last the padding gap as
    NULs.  It clears the [ignore] flag of every resource and returns 0. *)
Theorem writeFiles_writes_the_payload
    (g : Globals) (file : string -> list ascii) (fd : OutFD) :
  (forall r, r ∈ resources g -> readable open_src (filename r) (file (filename r))) ->
  write_oks fd = [] ->
  let out := writeFiles cls open_src g fd in
  out.1.1 = 0
  /\ resources out.1.2 = map (set_ignore FALSE) (resources g)
  /\ written_bytes (written out.2)
     = written_bytes (written fd) ++ payload_image cls g file (resources g)
  /\ symbols_of (written out.2) = symbols_of (written fd)
  /\ write_oks out.2 = [].
Proof.
  intros Hread Hoks. cbv zeta. unfold writeFiles.
  destruct (writeFiles_loop_readable g file (resources g) fd Hread Hoks)
    as (H1 & H2 & H3 & H4).
  destruct (writeFiles_loop cls open_src g (resources g) fd) as [rs' fd'].
  cbn [fst snd resources set_resources] in *. by subst rs'.
Qed.

(** The payload offsets after [patch_layout], for a payload within [int]. *)
Lemma patch_layout_payload (h : Ehdr) (qs : list Registration) (g : Globals) :
  resources g = register_all qs ->
  let g' := patch_layout cls h g in
  declared_payload cls g' (resources g') <= INT_MAX ->
  (forall i r, resources g' !! i = Some r ->
     payloadOffset r = preceding_payload cls g' (resources g') i)
  /\ sh_size (rodataHeader g') = declared_payload cls g' (resources g')
  /\ map size (resources g') = map size (resources g).
Proof.
  intros Hreg g' Hfit.
  destruct (patch_layout_unfold cls h g) as (g1 & Ha & _ & Hrs & Hsz & _).
  cbv zeta in *. fold g' in Ha, Hrs, Hsz.
  set (acc0 := {| payloadSize := 0; symtabSize := to_int (sizeof_symtabData cls);
                  strtabSize := 1 |}) in *.
  destruct (layout_loop_sizes cls g1 (resources g) acc0) as (Hsizes & _).
  rewrite <- Hrs in Hsizes.
  pose proof (register_all_sizes qs) as Hrange. rewrite <- Hreg in Hrange.
  assert (Hdecl : declared_payload cls g' (resources g')
                  = declared_payload cls g1 (resources g)).
  { apply declared_payload_ext; [by symmetry | exact Hsizes]. }
  destruct (layout_loop_payload cls g1 (resources g) acc0 Hrange) as [Hend Hoff].
  { simpl. lia. }
  { simpl. rewrite <- Hdecl. exact Hfit. }
  split; [|split; [|exact Hsizes]].
  - intros i r Hi. rewrite Hrs in Hi. rewrite (Hoff i r Hi). simpl.
    apply preceding_payload_ext; [exact Ha | by symmetry].
  - rewrite Hsz, Hend, Hdecl. simpl. apply to_word_small.
    pose proof (sizes_nonneg (resources g) Hrange).
    pose proof (gaps_nonneg cls g1 (resources g)).
    rewrite Hdecl in Hfit. unfold declared_payload in *. lia.
Qed.

(** The length of the payload, when sizes are the lengths of the files. *)
Lemma payload_image_length (g : Globals) (file : string -> list ascii)
    (rs : list Resource) :
  (forall r, r ∈ rs ->
     size r = Z.of_nat (length (resource_bytes file r))
     /\ 0 <= padding cls g (size r) <= INT_MAX) ->
  Z.of_nat (length (payload_image cls g file rs)) = declared_payload cls g rs.
Proof.
  induction rs as [|it rest IH]; intros Hall; [reflexivity|].
  destruct (Hall it (list_elem_of_here _ _)) as [Hsz Hpad].
  cbn [payload_image]. rewrite !length_app, !Nat2Z.inj_add, <- Hsz.
  rewrite IH by (intros r Hr; by apply Hall, list_elem_of_further).
  unfold declared_payload. cbn [map zsum foldr gaps]. fold (zsum (map size rest)).
  destruct rest as [|it2 rest2].
  - simpl. lia.
  - rewrite length_replicate, to_int_small by (unfold INT_MAX in *; lia).
    rewrite Z2Nat.id by lia.
    cbn [zsum foldr]. fold (zsum (gaps cls g (it2 :: rest2))). lia.
Qed.

(** Where the bytes of the [i]-th resource stand in the payload. *)
Lemma payload_image_at (g : Globals) (file : string -> list ascii)
    (rs : list Resource) (i : nat) (r : Resource) :
  (forall r, r ∈ rs ->
     size r = Z.of_nat (length (resource_bytes file r))
     /\ 0 <= padding cls g (size r) <= INT_MAX) ->
  rs !! i = Some r ->
  exists before after,
    payload_image cls g file rs = before ++ resource_bytes file r ++ after
    /\ Z.of_nat (length before) = preceding_payload cls g rs i.
Proof.
  revert i. induction rs as [|it rest IH]; intros i Hall Hi; [done|].
  destruct i as [|i].
  - simpl in Hi. injection Hi as ->. exists []. eexists.
    split; [reflexivity|]. reflexivity.
  - simpl in Hi.
    destruct (IH i) as (before & after & Himg & Hlen);
      [intros r0 Hr0; by apply Hall, list_elem_of_further | exact Hi |].
    destruct (Hall it (list_elem_of_here _ _)) as [Hsz Hpad].
    destruct rest as [|it2 rest2]; [done|].
    exists (resource_bytes file it
            ++ replicate (Z.to_nat (to_int (padding cls g (size it)))) NUL ++ before), after.
    split.
    + cbn [payload_image] in *. rewrite Himg. by rewrite <- !app_assoc.
    + rewrite !length_app, !Nat2Z.inj_add, length_replicate, <- Hsz, Hlen.
      rewrite to_int_small by (unfold INT_MAX in *; lia).
      rewrite Z2Nat.id by lia.
      unfold preceding_payload. cbn [take map zsum foldr gaps]. unfold zsum. lia.
Qed.

(** After [patch_layout], every resource registered with the length of its
    file has the size of its bytes in the payload, and a gap that is an
    [int]. *)
Lemma laid_out_sizes (h : Ehdr) (qs : list Registration)
    (file : string -> list ascii) (g : Globals) :
  resources g = register_all qs ->
  (forall q, q ∈ qs ->
     reg_filesize q = Z.of_nat (length (file (reg_filename q)))
     /\ reg_filesize q < INT_MAX) ->
  let g' := patch_layout cls h g in
  forall r, r ∈ resources g' ->
    size r = Z.of_nat (length (resource_bytes file r))
    /\ 0 <= padding cls g' (size r) <= INT_MAX.
Proof.
  intros Hreg Hfiles.
  destruct (gaps_round_up cls h g qs Hreg) as (k & Hk & Hal & Hgaps). cbv zeta in *.
  set (g' := patch_layout cls h g) in *.
  assert (Hpow : 2 ^ k <= 2 ^ 6) by (apply Z.pow_le_mono_r; lia).
  intros r' Hr'. apply list_elem_of_lookup in Hr' as [i Hi].
  destruct (patch_layout_unfold cls h g) as (g1 & _ & _ & Hrs & _). cbv zeta in Hrs.
  fold g' in Hrs. rewrite Hrs in Hi.
  destruct (layout_loop_fields cls g1 _ _ i r' Hi) as (r & Hr & Heq).
  rewrite Hreg, register_all_map in Hr.
  apply map_lookup_inv in Hr as (q & Hq & ->).
  destruct (Hfiles q (list_elem_of_lookup_2 _ _ _ Hq)) as [Hlen Hsmall].
  assert (Hsz : size r' = Z.of_nat (length (resource_bytes file r'))).
  { rewrite Heq. unfold resource_bytes. cbn [size filename type set_offsets registered].
    rewrite length_app, Nat2Z.inj_add, <- Hlen.
    unfold INT_MAX in *.
    destruct (reg_type q); simpl.
    - rewrite (to_uint_small (reg_filesize q)) by lia.
      rewrite to_uint_small by lia. lia.
    - rewrite to_uint_small by lia. lia. }
  split; [exact Hsz|].
  assert (Hin : registered q ∈ resources g).
  { rewrite Hreg, register_all_map. apply list_elem_of_lookup. exists i.
    by apply map_lookup_Some. }
  destruct (Hgaps _ Hin) as [Hp _].
  replace (size r') with (size (registered q)) by (rewrite Heq; reflexivity).
  unfold INT_MAX. lia.
Qed.

(** Each resource of the laid-out registry comes from a registration. *)
Lemma laid_out_registrations (h : Ehdr) (qs : list Registration) (g : Globals) :
  resources g = register_all qs ->
  forall r, r ∈ resources (patch_layout cls h g) ->
    exists q, q ∈ qs
      /\ filename r = reg_filename q
      /\ ignore r = blk_ignore (reg_block q).
Proof.
  intros Hreg r' Hr'. apply list_elem_of_lookup in Hr' as [i Hi].
  destruct (patch_layout_unfold cls h g) as (g1 & _ & _ & Hrs & _). cbv zeta in Hrs.
  rewrite Hrs in Hi.
  destruct (layout_loop_fields cls g1 _ _ i r' Hi) as (r & Hr & Heq).
  rewrite Hreg, register_all_map in Hr.
  apply map_lookup_inv in Hr as (q & Hq & ->).
  exists q. split; [by eapply list_elem_of_lookup_2|].
  rewrite Heq. split; reflexivity.
Qed.

(** X9. What [writeFiles] writes is what [patchHeaders] laid out.  For a
    registry whose resources were registered with the lengths of their
    files, each shorter than 2^31 - 1 bytes, whose files can be read, and a
    payload that fits an [int]: when every [write] succeeds, the bytes
    [writeFiles] appends to the destination are as many as the size
    declared in the payload section header, and the bytes of each resource
    (its file, and the NUL of a [TEXT] resource) stand in them at the
    [payloadOffset] of the resource. *)
Theorem payload_matches_the_layout
    (self : SelfImage) (archhdr : option Ehdr) (qs : list Registration)
    (file : string -> list ascii) (g g' : Globals) (fd : OutFD) :
  resources g = register_all qs ->
  patchHeaders cls self archhdr g = (0, g') ->
  (forall q, q ∈ qs ->
     readable open_src (reg_filename q) (file (reg_filename q))
     /\ reg_filesize q = Z.of_nat (length (file (reg_filename q)))
     /\ reg_filesize q < INT_MAX) ->
  declared_payload cls g' (resources g') <= INT_MAX ->
  write_oks fd = [] ->
  let out := writeFiles cls open_src g' fd in
  exists payload,
    written_bytes (written out.2) = written_bytes (written fd) ++ payload
    /\ Z.of_nat (length payload) = sh_size (rodataHeader g')
    /\ forall i r, resources g' !! i = Some r ->
         take (length (resource_bytes file r)) (drop (Z.to_nat (payloadOffset r)) payload)
         = resource_bytes file r.
Proof.
  intros Hreg Hpatch Hqs Hfit Hoks out.
  assert (Hfiles : forall q, q ∈ qs ->
            reg_filesize q = Z.of_nat (length (file (reg_filename q)))
            /\ reg_filesize q < INT_MAX).
  { intros q Hq. destruct (Hqs q Hq) as (_ & H1 & H2). by split. }
  destruct (patchHeaders_ok _ _ _ _ _ Hpatch) as [h ->].
  destruct (patch_layout_payload h qs g Hreg Hfit) as (Hoff & Hsize & Hsizes).
  pose proof (laid_out_sizes h qs file g Hreg Hfiles) as Hall.
  pose proof (laid_out_registrations h qs g Hreg) as Hfrom. cbv zeta in *.
  set (g' := patch_layout cls h g) in *.
  assert (Hread : forall r, r ∈ resources g' ->
             readable open_src (filename r) (file (filename r))).
  { intros r Hr. destruct (Hfrom r Hr) as (q & Hq & -> & _). by apply (Hqs q Hq). }
  (* what [writeFiles] appends *)
  exists (payload_image cls g' file (resources g')). split.
  { subst out. unfold writeFiles.
    destruct (writeFiles_loop_readable g' file (resources g') fd Hread Hoks)
      as (_ & H2 & _).
    destruct (writeFiles_loop cls open_src g' (resources g') fd) as [rs' fd'].
    exact H2. }
  split.
  - rewrite (payload_image_length g' file _ Hall). by rewrite Hsize.
  - intros i r Hi.
    destruct (payload_image_at g' file _ i r Hall Hi) as (before & after & Himg & Hlen).
    rewrite Himg, (Hoff i r Hi), <- Hlen, Nat2Z.id.
    rewrite drop_app_length. apply take_app_length.
Qed.

(** X10. [writeSymbols] writes one symbol for each resource whose [ignore]
    flag is not [TRUE], in registration order, and none for the others: a
    global object symbol (info 17) of section 4, the payload section, with
    the string-table offset of the resource as name, its payload offset as
    value and its size as size.  (When every [write] succeeds; it then
    returns 0 and writes nothing else.) *)
Theorem writeSymbols_writes_the_unflagged (rs : list Resource) (fd : OutFD) :
  write_oks fd = [] ->
  let out := writeSymbols cls rs fd in
  out.1 = 0
  /\ symbols_of (written out.2)
     = symbols_of (written fd) ++ map (resource_symbol cls) (unflagged rs)
  /\ written_bytes (written out.2) = written_bytes (written fd)
  /\ write_oks out.2 = [].
Proof.
  revert fd. induction rs as [|it rest IH]; intros fd Hoks; cbv zeta.
  - simpl. by rewrite app_nil_r.
  - cbn [writeSymbols unflagged]. destruct (ignore it =? TRUE); [by apply IH|].
    rewrite (write_ok fd _ Hoks).
    replace (0 =? -1) with false by reflexivity.
    destruct (IH {| written := written fd ++ [WSym (resource_symbol cls it)];
                    write_oks := [] |} eq_refl) as (H1 & H2 & H3 & H4).
    split; [exact H1|]. split; [|split; [|exact H4]].
    + etransitivity; [exact H2|]. cbn [written]. rewrite symbols_of_app.
      cbn [map]. by rewrite <- app_assoc.
    + etransitivity; [exact H3|]. cbn [written]. rewrite written_bytes_app.
      unfold written_bytes at 2. simpl. by rewrite app_nil_r.
Qed.

(** The names [writeStringTable] writes after the leading NUL. *)
Lemma writeStringTable_loop_ok (rs : list Resource) (fd : OutFD) :
  write_oks fd = [] ->
  Forall (fun r => symbolSize r = strlen (symbol r) + 1) rs ->
  let out := writeStringTable_loop rs fd in
  out.1 = 0
  /\ written_bytes (written out.2)
     = written_bytes (written fd) ++ concat (map name_bytes (unflagged rs))
  /\ write_oks out.2 = [].
Proof.
  intros Hoks Hall. revert fd Hoks.
  induction Hall as [|it rest Hit _ IH]; intros fd Hoks; cbv zeta.
  - simpl. by rewrite app_nil_r.
  - cbn [writeStringTable_loop unflagged]. destruct (ignore it =? TRUE); [by apply IH|].
    rewrite (write_ok fd _ Hoks).
    replace (0 =? -1) with false by reflexivity.
    assert (Hname : take (Z.to_nat (symbolSize it))
                         (String.list_ascii_of_string (symbol it) ++ [NUL])
                    = name_bytes it).
    { apply take_ge. unfold name_bytes.
      rewrite Hit, length_app, length_list_ascii_of_string. unfold strlen.
      simpl. lia. }
    rewrite Hname.
    destruct (IH {| written := written fd ++ [WBytes (name_bytes it)];
                    write_oks := [] |} eq_refl) as (H1 & H2 & H3).
    split; [exact H1|]. split; [|exact H3].
    etransitivity; [exact H2|]. cbn [written map concat].
    by rewrite written_bytes_app, written_bytes_one, <- app_assoc.
Qed.

(** The string-table offsets after [patch_layout], for names within [int]. *)
Lemma patch_layout_strtab (h : Ehdr) (qs : list Registration) (g : Globals) :
  resources g = register_all qs ->
  names_size qs <= INT_MAX ->
  let g' := patch_layout cls h g in
  Forall (fun r => symbolSize r = strlen (symbol r) + 1) (resources g')
  /\ (forall i r, resources g' !! i = Some r ->
        strtabOffset r = 1 + preceding_names (resources g') i)
  /\ sh_size (strtabHeader g') = 1 + zsum (map symbolSize (resources g'))
  /\ map symbol (resources g') = map reg_symbol qs
  /\ map ignore (resources g') = map (fun q => blk_ignore (reg_block q)) qs.
Proof.
  intros Hreg Hfit g'.
  destruct (patch_layout_unfold cls h g) as (g1 & _ & _ & Hrs & _ & _ & Hsz).
  cbv zeta in *. fold g' in Hrs, Hsz.
  set (acc0 := {| payloadSize := 0; symtabSize := to_int (sizeof_symtabData cls);
                  strtabSize := 1 |}) in *.
  destruct (layout_loop_sizes cls g1 (resources g) acc0) as (_ & Hss & Hsym).
  rewrite <- Hrs in Hss, Hsym.
  pose proof (registered_symbolSizes qs Hfit) as Hq.
  rewrite <- register_all_map, <- Hreg, <- Hss in Hq.
  assert (Hsyms : map symbol (resources g') = map reg_symbol qs).
  { rewrite Hsym, Hreg, register_all_map, map_map. reflexivity. }
  assert (Hign : map ignore (resources g') = map (fun q => blk_ignore (reg_block q)) qs).
  { rewrite Hrs, (layout_loop_ignore cls), Hreg, register_all_map, map_map. reflexivity. }
  assert (Hlen : forall i r, resources g' !! i = Some r ->
                   symbolSize r = strlen (symbol r) + 1).
  { intros i r Hi.
    pose proof (map_lookup_Some symbolSize _ _ _ Hi) as H1.
    pose proof (map_lookup_Some symbol _ _ _ Hi) as H2.
    rewrite Hq in H1. rewrite Hsyms in H2.
    apply map_lookup_inv in H1 as (q1 & Hq1 & ->).
    apply map_lookup_inv in H2 as (q2 & Hq2 & ->).
    rewrite Hq1 in Hq2. by injection Hq2 as ->. }
  assert (Hall : Forall (fun r => symbolSize r = strlen (symbol r) + 1) (resources g')).
  { apply Forall_forall. intros r Hr.
    apply list_elem_of_lookup in Hr as [i Hi]. exact (Hlen i r Hi). }
  assert (Hnn : Forall (fun r => 0 <= symbolSize r) (resources g)).
  { apply Forall_forall. intros r Hr.
    apply list_elem_of_lookup in Hr as [i Hi].
    pose proof (map_lookup_Some symbolSize _ _ _ Hi) as H1.
    rewrite <- Hss in H1.
    apply map_lookup_inv in H1 as (r' & Hr' & ->).
    rewrite (Hlen i r' Hr'). unfold strlen. lia. }
  assert (Hsum : 1 + zsum (map symbolSize (resources g)) <= INT_MAX).
  { rewrite <- Hss, Hq. exact Hfit. }
  destruct (layout_loop_strtab cls g1 (resources g) acc0 Hnn) as [Hend Hoff].
  { simpl. lia. }
  { simpl. exact Hsum. }
  split; [exact Hall|]. split; [|split; [|by split]].
  - intros i r Hi. rewrite Hrs in Hi. rewrite (Hoff i r Hi). simpl.
    unfold preceding_names. by rewrite <- !firstn_map, Hss.
  - rewrite Hsz, Hend, Hss. simpl. apply to_word_small.
    assert (0 <= zsum (map symbolSize (resources g))).
    { clear -Hnn. induction Hnn; simpl; lia. }
    lia.
Qed.

Lemma unflagged_all (rs : list Resource) :
  Forall (fun r => ignore r <> TRUE) rs -> unflagged rs = rs.
Proof.
  induction 1 as [|r rs Hr _ IH]; [reflexivity|].
  simpl. replace (ignore r =? TRUE) with false by (symmetry; by apply Z.eqb_neq).
  by rewrite IH.
Qed.

Lemma name_bytes_length (r : Resource) :
  symbolSize r = strlen (symbol r) + 1 ->
  Z.of_nat (length (name_bytes r)) = symbolSize r.
Proof.
  intros ->. unfold name_bytes, strlen.
  rewrite length_app, length_list_ascii_of_string. simpl. lia.
Qed.

Lemma strtab_image_length (rs : list Resource) :
  Forall (fun r => symbolSize r = strlen (symbol r) + 1) rs ->
  Z.of_nat (length (strtab_image rs)) = 1 + zsum (map symbolSize rs).
Proof.
  unfold strtab_image. cbn [length]. rewrite Nat2Z.inj_succ.
  induction 1 as [|r rs Hr _ IH]; [reflexivity|].
  cbn [map concat zsum foldr]. fold (zsum (map symbolSize rs)).
  rewrite length_app, Nat2Z.inj_add, (name_bytes_length r Hr). lia.
Qed.

Lemma preceding_names_nonneg (rs : list Resource) (i : nat) :
  Forall (fun r => symbolSize r = strlen (symbol r) + 1) rs ->
  0 <= preceding_names rs i.
Proof.
  intros Hall. revert i. unfold preceding_names.
  induction Hall as [|x l Hx _ IHl]; intros [|i]; simpl; try lia.
  specialize (IHl i). unfold strlen in Hx. lia.
Qed.

(** Where the name of the [i]-th resource stands in the string table. *)
Lemma strtab_image_at (rs : list Resource) (i : nat) (r : Resource) :
  Forall (fun r => symbolSize r = strlen (symbol r) + 1) rs ->
  rs !! i = Some r ->
  exists before after,
    strtab_image rs = before ++ name_bytes r ++ after
    /\ Z.of_nat (length before) = 1 + preceding_names rs i.
Proof.
  intros Hall. revert i.
  induction Hall as [|it rest Hit Hrest IH]; intros i Hi; [done|].
  destruct i as [|i].
  - simpl in Hi. injection Hi as ->. exists [NUL]. eexists.
    split; [reflexivity | reflexivity].
  - simpl in Hi. destruct (IH i Hi) as (before & after & Himg & Hlen).
    pose proof (preceding_names_nonneg rest i Hrest) as Hnn.
    unfold strtab_image in *.
    destruct before as [|b before]; [simpl in Hlen; lia|].
    injection Himg as <- Himg.
    exists (NUL :: name_bytes it ++ before), after. split.
    + cbn [map concat]. rewrite Himg. simpl. by rewrite <- app_assoc.
    + cbn [length] in *. rewrite length_app.
      rewrite !Nat2Z.inj_succ, Nat2Z.inj_add, (name_bytes_length it Hit).
      rewrite Nat2Z.inj_succ in Hlen.
      unfold preceding_names in *. cbn [take map zsum foldr]. unfold zsum in *. lia.
Qed.

(** X11. The string table can be read back.  For resources registered with
    names without NUL bytes, on blocks whose [ignore] field is not 1, and
    names that fit an [int]: [writeStringTable] writes the leading NUL and
    the names, as many bytes as the string-table header declares, and the
    NUL-terminated string found in them at the [strtabOffset] of a resource
    is the symbol of that resource.  (When every [write] succeeds.) *)
Theorem string_table_reads_back
    (self : SelfImage) (archhdr : option Ehdr) (qs : list Registration)
    (g g' : Globals) (fd : OutFD) :
  resources g = register_all qs ->
  patchHeaders cls self archhdr g = (0, g') ->
  names_size qs <= INT_MAX ->
  (forall q, q ∈ qs ->
     (NUL ∉ String.list_ascii_of_string (reg_symbol q))
     /\ blk_ignore (reg_block q) <> TRUE) ->
  write_oks fd = [] ->
  let out := writeStringTable (resources g') fd in
  let table := strtab_image (resources g') in
  out.1 = 0
  /\ written_bytes (written out.2) = written_bytes (written fd) ++ table
  /\ Z.of_nat (length table) = sh_size (strtabHeader g')
  /\ forall r, r ∈ resources g' ->
       cstring (drop (Z.to_nat (strtabOffset r)) table) = symbol r.
Proof.
  intros Hreg Hpatch Hfit Hqs Hoks out table.
  destruct (patchHeaders_ok _ _ _ _ _ Hpatch) as [h ->].
  destruct (patch_layout_strtab h qs g Hreg Hfit) as (Hall & Hoff & Hsize & Hsyms & Hign).
  cbv zeta in *. set (g' := patch_layout cls h g) in *.
  assert (Hflags : Forall (fun r => ignore r <> TRUE) (resources g')).
  { apply Forall_forall. intros r Hr. apply list_elem_of_lookup in Hr as [i Hi].
    pose proof (map_lookup_Some ignore _ _ _ Hi) as H1. rewrite Hign in H1.
    apply map_lookup_inv in H1 as (q & Hq & ->).
    apply (Hqs q). by eapply list_elem_of_lookup_2. }
  assert (Hnul : forall r, r ∈ resources g' ->
             NUL ∉ String.list_ascii_of_string (symbol r)).
  { intros r Hr. apply list_elem_of_lookup in Hr as [i Hi].
    pose proof (map_lookup_Some symbol _ _ _ Hi) as H1. rewrite Hsyms in H1.
    apply map_lookup_inv in H1 as (q & Hq & ->).
    apply (Hqs q). by eapply list_elem_of_lookup_2. }
  (* what is written *)
  assert (Hout : out.1 = 0
                 /\ written_bytes (written out.2) = written_bytes (written fd) ++ table).
  { subst out table. unfold writeStringTable. rewrite (write_ok fd _ Hoks).
    replace (0 =? -1) with false by reflexivity.
    destruct (writeStringTable_loop_ok (resources g')
                {| written := written fd ++ [WBytes [NUL]]; write_oks := [] |}
                eq_refl Hall) as (H1 & H2 & _).
    split; [exact H1|]. rewrite H2, (unflagged_all _ Hflags). cbn [written].
    rewrite written_bytes_app, written_bytes_one, <- app_assoc. reflexivity. }
  destruct Hout as [Hret Hbytes].
  split; [exact Hret|]. split; [exact Hbytes|]. split.
  - subst table. by rewrite (strtab_image_length _ Hall), Hsize.
  - intros r Hr. pose proof (Hnul r Hr) as Hr_nul.
    apply list_elem_of_lookup in Hr as [i Hi].
    destruct (strtab_image_at _ i r Hall Hi) as (before & after & Himg & Hlen).
    subst table. rewrite Himg, (Hoff i r Hi), <- Hlen, Nat2Z.id, drop_app_length.
    unfold name_bytes. rewrite <- app_assoc. cbn [app].
    rewrite (cstring_app_nul _ _ Hr_nul).
    apply String.string_of_list_ascii_of_string.
Qed.

(* --------------------------------------------------------------------- *)
(** ** The object file as a whole *)

Lemma file_length_app (l1 l2 : list Written) :
  file_length cls (l1 ++ l2) = file_length cls l1 + file_length cls l2.
Proof. unfold file_length. by rewrite map_app, zsum_app. Qed.

Lemma file_length_bytes (items : list Written) :
  bytes_only items ->
  file_length cls items = Z.of_nat (length (written_bytes items)).
Proof.
  induction 1 as [|x l [bs ->] _ IH]; [reflexivity|].
  unfold file_length, written_bytes, zsum in *. cbn [map foldr concat bytes_of file_size].
  rewrite length_app, Nat2Z.inj_add, IH. reflexivity.
Qed.

Lemma extends_refl (fd : OutFD) : extends_by_bytes fd fd.
Proof. exists []. split; [by rewrite app_nil_r | constructor]. Qed.

Lemma extends_trans (fd1 fd2 fd3 : OutFD) :
  extends_by_bytes fd1 fd2 -> extends_by_bytes fd2 fd3 -> extends_by_bytes fd1 fd3.
Proof.
  intros (l1 & H1 & B1) (l2 & H2 & B2). exists (l1 ++ l2). split.
  - by rewrite H2, H1, app_assoc.
  - by apply Forall_app.
Qed.

Lemma write_extends (fd : OutFD) (bs : list ascii) :
  extends_by_bytes fd (write fd (WBytes bs)).2.
Proof.
  unfold write. destruct (write_oks fd) as [|[] oks]; cbn [snd].
  - exists [WBytes bs]. split; [reflexivity|]. repeat constructor. by exists bs.
  - exists [WBytes bs]. split; [reflexivity|]. repeat constructor. by exists bs.
  - exists []. split; [by rewrite app_nil_r | constructor].
Qed.

Lemma copy_loop_extends (reads : list ReadResult) :
  forall dst, extends_by_bytes dst (copy_loop reads dst).2.
Proof.
  induction reads as [|[|bs] rest IH]; intros dst; cbn [copy_loop].
  - pose proof (write_extends dst []) as H.
    destruct (write dst (WBytes [])) as [r dst']. exact H.
  - apply extends_refl.
  - pose proof (write_extends dst (take (Z.to_nat 8192) bs)) as H.
    destruct (write dst (WBytes (take (Z.to_nat 8192) bs))) as [r dst']. cbn [snd] in H.
    destruct (r =? -1); [exact H|].
    destruct (sizeof (take (Z.to_nat 8192) bs) =? 8192); [|exact H].
    eapply extends_trans; [exact H | apply IH].
Qed.

Lemma copyFileToFD_extends (src : string) (dst : OutFD) :
  extends_by_bytes dst (copyFileToFD open_src src dst).2.
Proof.
  unfold copyFileToFD. destruct (open_src src) as [|reads close_ret]; [apply extends_refl|].
  pose proof (copy_loop_extends reads dst) as H.
  destruct (copy_loop reads dst) as [ok dst']. by destruct ok.
Qed.

Lemma write_padding_extends (n : nat) :
  forall fd, extends_by_bytes fd (write_padding n fd).
Proof.
  induction n as [|n IH]; intros fd; cbn [write_padding]; [apply extends_refl|].
  eapply extends_trans; [apply write_extends | apply IH].
Qed.

Lemma writeFiles_body_extends (g : Globals) (has_next : bool) (it : Resource) (fd : OutFD) :
  extends_by_bytes fd (writeFiles_body cls open_src g has_next it fd).2.
Proof.
  unfold writeFiles_body.
  pose proof (copyFileToFD_extends (filename it) fd) as H.
  destruct (copyFileToFD open_src (filename it) fd) as [r fd1]. cbn [snd] in H.
  destruct (r =? -1); [exact H|]. cbn [snd].
  eapply extends_trans; [exact H|].
  assert (H2 : extends_by_bytes fd1
                 match type it with
                 | TEXT => (write fd1 (WBytes [NUL])).2
                 | BINARY => fd1
                 end)
    by (destruct (type it); [apply write_extends | apply extends_refl]).
  destruct has_next; [|exact H2].
  eapply extends_trans; [exact H2 | apply write_padding_extends].
Qed.

Lemma writeFiles_loop_extends (g : Globals) (rs : list Resource) :
  forall fd, extends_by_bytes fd (writeFiles_loop cls open_src g rs fd).2.
Proof.
  induction rs as [|it rest IH]; intros fd; cbn [writeFiles_loop]; [apply extends_refl|].
  set (has_next := match rest with [] => false | _ :: _ => true end).
  pose proof (writeFiles_body_extends g has_next it fd) as H.
  destruct (writeFiles_body cls open_src g has_next it fd) as [it' fd1]. cbn [snd] in H.
  pose proof (IH fd1) as H'.
  destruct (writeFiles_loop cls open_src g rest fd1) as [rest' fd']. cbn [snd] in *.
  eapply extends_trans; eassumption.
Qed.

Lemma writeStringTable_extends (rs : list Resource) (fd : OutFD) :
  extends_by_bytes fd (writeStringTable rs fd).2.
Proof.
  unfold writeStringTable.
  pose proof (write_extends fd [NUL]) as H.
  destruct (write fd (WBytes [NUL])) as [r fd1]. cbn [snd] in H.
  destruct (r =? -1); [exact H|].
  eapply extends_trans; [exact H|]. clear H. revert fd1.
  induction rs as [|it rest IH]; intros fd1; cbn [writeStringTable_loop];
    [apply extends_refl|].
  destruct (ignore it =? TRUE); [apply IH|].
  match goal with |- context [write fd1 (WBytes ?name)] =>
    pose proof (write_extends fd1 name) as H;
    destruct (write fd1 (WBytes name)) as [r1 fd2] end.
  cbn [snd] in H. destruct (r1 =? -1); [exact H|].
  eapply extends_trans; [exact H | apply IH].
Qed.

(** The string table [writeStringTable] writes. *)
Lemma writeStringTable_table (rs : list Resource) (fd : OutFD) :
  write_oks fd = [] ->
  Forall (fun r => symbolSize r = strlen (symbol r) + 1) rs ->
  let out := writeStringTable rs fd in
  out.1 = 0
  /\ written_bytes (written out.2)
     = written_bytes (written fd) ++ strtab_image (unflagged rs)
  /\ write_oks out.2 = [].
Proof.
  intros Hoks Hall. cbv zeta. unfold writeStringTable. rewrite (write_ok fd _ Hoks).
  replace (0 =? -1) with false by reflexivity.
  destruct (writeStringTable_loop_ok rs
              {| written := written fd ++ [WBytes [NUL]]; write_oks := [] |}
              eq_refl Hall) as (H1 & H2 & H3).
  split; [exact H1|]. split; [|exact H3]. rewrite H2. cbn [written].
  rewrite written_bytes_app, written_bytes_one, <- app_assoc. reflexivity.
Qed.

(** The items [writeSymbols] writes. *)
Lemma writeSymbols_items (rs : list Resource) :
  forall fd,
    write_oks fd = [] ->
    writeSymbols cls rs fd
    = (0, {| written := written fd ++ map WSym (map (resource_symbol cls) (unflagged rs));
             write_oks := [] |}).
Proof.
  induction rs as [|it rest IH]; intros fd Hoks.
  - simpl. rewrite app_nil_r. destruct fd as [l oks]. simpl in *. by subst oks.
  - cbn [writeSymbols unflagged]. destruct (ignore it =? TRUE); [by apply IH|].
    rewrite (write_ok fd _ Hoks).
    replace (0 =? -1) with false by reflexivity.
    rewrite IH by reflexivity. cbn [written map]. by rewrite <- app_assoc.
Qed.

Lemma write_blocks_ok (bs : list Written) :
  forall fd,
    write_oks fd = [] ->
    write_blocks bs fd = (0, {| written := written fd ++ bs; write_oks := [] |}).
Proof.
  induction bs as [|b bs IH]; intros fd Hoks.
  - simpl. rewrite app_nil_r. destruct fd as [l oks]. simpl in *. by subst oks.
  - cbn [write_blocks]. rewrite (write_ok fd _ Hoks).
    replace (0 =? -1) with false by reflexivity.
    rewrite IH by reflexivity. cbn [written]. by rewrite <- app_assoc.
Qed.

(** X18. The object file matches its headers.  For a registry laid out by
    [patchHeaders] from the initial headers, with files that can be read and
    have the lengths they were registered with, blocks whose [ignore] field
    is not 1, tables and a payload that fit an [int], and a destination on
    which every [write] and the [close] succeed: [writeELFRelocatable]
    returns 0; the file it has written begins with the ELF header and the
    nine section headers as patched, and in it the comment, the section
    names, the symbol table (the seven fixed symbols, then one symbol per
    resource), the string table and the payload each begin at the
    [sh_offset] and have the [sh_size] of their section header; the file
    ends with the payload. *)
Theorem object_file_matches_its_headers
    (data : Z) (self : SelfImage) (archhdr : option Ehdr) (qs : list Registration)
    (file : string -> list ascii) (g' : Globals) (fn : string) (close_ret : Z) :
  patchHeaders cls self archhdr (set_resources (register_all qs) (initial_globals cls data))
  = (0, g') ->
  (7 + Z.of_nat (length qs)) * sizeof_Sym cls + names_size qs <= INT_MAX ->
  declared_payload cls g' (resources g') <= INT_MAX ->
  (forall q, q ∈ qs ->
     readable open_src (reg_filename q) (file (reg_filename q))
     /\ reg_filesize q = Z.of_nat (length (file (reg_filename q)))
     /\ reg_filesize q < INT_MAX
     /\ blk_ignore (reg_block q) <> TRUE) ->
  close_ret <> -1 ->
  let out := writeELFRelocatable cls open_src (Some fn) (Some []) close_ret g' in
  out.1.1 = 0
  /\ exists fd strtab payload,
       out.2 = Some fd
       /\ take 10 (written fd)
          = [WEhdr (hdr g'); WShdr nullHeader; WShdr textHeader; WShdr dataHeader;
             WShdr bssHeader; WShdr (rodataHeader g'); WShdr (commentHeader cls);
             WShdr (shstrtabHeader cls); WShdr (symtabHeader g');
             WShdr (strtabHeader g')]
       /\ section_of cls (commentHeader cls) (written fd) [WString commentData]
       /\ section_of cls (shstrtabHeader cls) (written fd) [WStrings shstrtabData]
       /\ section_of cls (symtabHeader g') (written fd)
            (WSyms (symtabData cls) :: map WSym (map (resource_symbol cls) (resources g')))
       /\ section_of cls (strtabHeader g') (written fd) strtab
       /\ written_bytes strtab = strtab_image (resources g')
       /\ section_of cls (rodataHeader g') (written fd) payload
       /\ written_bytes payload = payload_image cls g' file (resources g')
       /\ file_length cls (written fd)
          = sh_offset (rodataHeader g') + sh_size (rodataHeader g').
Proof.
  intros Hpatch Hfit Hpay Hqs Hclose.
  destruct (patched_sections cls data self archhdr qs g' Hpatch Hfit)
    as (Hsym & Hsymsz & Hstr & Hstrsz & Hro). cbv zeta in *.
  set (g0 := set_resources (register_all qs) (initial_globals cls data)) in *.
  assert (Hreg : resources g0 = register_all qs) by reflexivity.
  assert (Hsz : 0 < sizeof_Sym cls) by (destruct cls; simpl; lia).
  assert (Hnames : names_size qs <= INT_MAX) by nia.
  destruct (patchHeaders_ok _ _ _ _ _ Hpatch) as [h Hg']. clear Hpatch.
  destruct (patch_layout_strtab h qs g0 Hreg Hnames) as (Hall & _ & Hstrsz' & _ & _).
  pose proof (laid_out_registrations h qs g0 Hreg) as Hfrom.
  cbv zeta in *. rewrite <- Hg' in *.
  destruct (patch_layout_payload h qs g0 Hreg) as (_ & Hrosz & _);
    [cbv zeta; by rewrite <- Hg'|]. cbv zeta in Hrosz. rewrite <- Hg' in Hrosz.
  assert (Hsizes : forall r, r ∈ resources g' ->
             size r = Z.of_nat (length (resource_bytes file r))
             /\ 0 <= padding cls g' (size r) <= INT_MAX).
  { rewrite Hg'. apply (laid_out_sizes h qs file g0 Hreg).
    intros q Hq. destruct (Hqs q Hq) as (_ & H1 & H2 & _). by split. }
  assert (Hflags : Forall (fun r => ignore r <> TRUE) (resources g')).
  { apply Forall_forall. intros r Hr. destruct (Hfrom r Hr) as (q & Hq & _ & ->).
    by apply (Hqs q Hq). }
  assert (Hread : forall r, r ∈ resources g' ->
             readable open_src (filename r) (file (filename r))).
  { intros r Hr. destruct (Hfrom r Hr) as (q & Hq & -> & _). by apply (Hqs q Hq). }
  assert (Hlen : length (resources g') = length qs).
  { rewrite Hg'. destruct (patch_layout_unfold cls h g0) as (g1 & _ & _ & Hrs & _).
    cbv zeta in Hrs. rewrite Hrs, layout_loop_length. apply register_all_length. }
  clear Hg' Hfrom.
  (* the run of the function *)
  cbv zeta. unfold writeELFRelocatable.
  rewrite write_blocks_ok by reflexivity. replace (0 =? -1) with false by reflexivity.
  rewrite writeSymbols_items by reflexivity. replace (0 =? -1) with false by reflexivity.
  rewrite (unflagged_all _ Hflags). cbn [written app].
  match goal with |- context [writeStringTable ?rs ?fd] =>
    destruct (writeStringTable_table rs fd eq_refl Hall) as (S1 & S2 & S3);
    destruct (writeStringTable_extends rs fd) as (strtab & S4 & S5);
    destruct (writeStringTable rs fd) as [r3 fd3] end.
  cbn [fst snd written] in *. subst r3. replace (0 =? -1) with false by reflexivity.
  rewrite (unflagged_all _ Hflags) in S2.
  unfold writeFiles.
  destruct (writeFiles_loop_readable g' file (resources g') fd3 Hread S3)
    as (F1 & F2 & _ & F4).
  destruct (writeFiles_loop_extends g' (resources g') fd3) as (payload & F5 & F6).
  destruct (writeFiles_loop cls open_src g' (resources g') fd3) as [rs' fd4].
  cbn [fst snd] in *. replace (0 =? -1) with false by reflexivity.
  replace (close_ret =? -1) with false by (symmetry; apply Z.eqb_neq; exact Hclose).
  cbn [fst snd]. split; [reflexivity|].
  exists fd4, strtab, payload. split; [reflexivity|].
  assert (Hstrtab : written_bytes strtab = strtab_image (resources g')).
  { rewrite S4, written_bytes_app in S2. by apply app_inv_head in S2. }
  assert (Hpayload : written_bytes payload = payload_image cls g' file (resources g')).
  { rewrite F5, written_bytes_app in F2. by apply app_inv_head in F2. }
  set (syms := map WSym (map (resource_symbol cls) (resources g'))) in *.
  set (heads := [WEhdr (hdr g'); WShdr nullHeader; WShdr textHeader; WShdr dataHeader;
                 WShdr bssHeader; WShdr (rodataHeader g'); WShdr (commentHeader cls);
                 WShdr (shstrtabHeader cls); WShdr (symtabHeader g');
                 WShdr (strtabHeader g')]).
  assert (Hfile : written fd4
                  = heads ++ [WString commentData] ++ [WStrings shstrtabData]
                    ++ (WSyms (symtabData cls) :: syms) ++ strtab ++ payload).
  { rewrite F5, S4, <- app_assoc. reflexivity. }
  assert (Lh : file_length cls heads = TOTALHEADERSIZE cls).
  { unfold file_length, zsum, TOTALHEADERSIZE, SECTIONHEADERCOUNT. subst heads.
    cbn [map foldr file_size]. lia. }
  assert (Lc : file_length cls [WString commentData] = sizeof_commentData).
  { unfold file_length, zsum, sizeof_commentData. cbn [map foldr file_size]. lia. }
  assert (Ls : file_length cls [WStrings shstrtabData] = sizeof_shstrtabData).
  { unfold file_length, zsum, sizeof_shstrtabData. cbn [map foldr file_size]. lia. }
  assert (Lsym : file_length cls (WSyms (symtabData cls) :: syms)
                 = (7 + Z.of_nat (length qs)) * sizeof_Sym cls).
  { assert (E : forall l : list Sym,
               file_length cls (map WSym l) = Z.of_nat (length l) * sizeof_Sym cls).
    { induction l as [|x l IH]; [reflexivity|].
      unfold file_length, zsum in *. cbn [map foldr file_size length].
      rewrite IH. lia. }
    change (WSyms (symtabData cls) :: syms) with ([WSyms (symtabData cls)] ++ syms).
    rewrite file_length_app. subst syms. rewrite E, length_map, Hlen.
    unfold file_length, zsum. cbn [map foldr file_size]. simpl length. lia. }
  assert (Lstr : file_length cls strtab = names_size qs).
  { rewrite (file_length_bytes _ S5), Hstrtab, (strtab_image_length _ Hall).
    by rewrite <- Hstrsz', Hstrsz. }
  assert (Lpay : file_length cls payload = sh_size (rodataHeader g')).
  { rewrite (file_length_bytes _ F6), Hpayload, (payload_image_length g' file _ Hsizes).
    by rewrite Hrosz. }
  split; [by rewrite Hfile|].
  clearbody heads syms.
  split; [|split; [|split; [|split; [|split; [exact Hstrtab|split;
    [|split; [exact Hpayload|]]]]]]].
  - exists heads,
      ([WStrings shstrtabData] ++ (WSyms (symtabData cls) :: syms) ++ strtab ++ payload).
    split; [exact Hfile|]. split; [exact Lh | exact Lc].
  - exists (heads ++ [WString commentData]),
      ((WSyms (symtabData cls) :: syms) ++ strtab ++ payload).
    split; [by rewrite Hfile, <- !app_assoc|].
    rewrite file_length_app, Lh, Lc. split; [reflexivity | exact Ls].
  - exists (heads ++ [WString commentData] ++ [WStrings shstrtabData]),
      (strtab ++ payload).
    split; [by rewrite Hfile, <- !app_assoc|].
    rewrite !file_length_app, Lh, Lc, Ls, Hsym, Hsymsz. split; [lia | exact Lsym].
  - exists (heads ++ [WString commentData] ++ [WStrings shstrtabData]
            ++ (WSyms (symtabData cls) :: syms)), payload.
    split; [by rewrite Hfile, <- !app_assoc|].
    rewrite !file_length_app, Lh, Lc, Ls, Lsym, Hstr, Hstrsz. split; [lia | exact Lstr].
  - exists (heads ++ [WString commentData] ++ [WStrings shstrtabData]
            ++ (WSyms (symtabData cls) :: syms) ++ strtab), [].
    split; [by rewrite Hfile, app_nil_r, <- !app_assoc|].
    rewrite !file_length_app, Lh, Lc, Ls, Lsym, Lstr, Hro. split; [lia | exact Lpay].
  - rewrite Hfile, !file_length_app, Lh, Lc, Ls, Lsym, Lstr, Lpay, Hro. lia.
Qed.


Lemma writeStringTable_succeeds (rs : list Resource) (fd : OutFD) :
  write_oks fd = [] ->
  (writeStringTable rs fd).1 = 0 /\ write_oks (writeStringTable rs fd).2 = [].
Proof.
  intros Hoks. unfold writeStringTable. rewrite (write_ok fd _ Hoks).
  replace (0 =? -1) with false by reflexivity.
  generalize (written fd ++ [WBytes [NUL]]). clear.
  induction rs as [|it rest IH]; intros l; cbn [writeStringTable_loop]; [by split|].
  destruct (ignore it =? TRUE); [apply IH|].
  rewrite write_ok by reflexivity.
  replace (0 =? -1) with false by reflexivity. apply IH.
Qed.

(** [writeELFRelocatable] returns 0 whenever the destination opens and
    every [write] and the [close] succeed, whatever happens to the sources. *)
Lemma writeELFRelocatable_succeeds (fn : string) (close_ret : Z) (g : Globals) :
  close_ret <> -1 ->
  (writeELFRelocatable cls open_src (Some fn) (Some []) close_ret g).1.1 = 0.
Proof.
  intros Hclose. unfold writeELFRelocatable.
  rewrite write_blocks_ok by reflexivity. replace (0 =? -1) with false by reflexivity.
  rewrite writeSymbols_items by reflexivity. replace (0 =? -1) with false by reflexivity.
  match goal with |- context [writeStringTable ?rs ?fd] =>
    destruct (writeStringTable_succeeds rs fd eq_refl) as [S1 S2];
    destruct (writeStringTable rs fd) as [r3 fd3] end.
  cbn [fst snd] in *. subst r3. replace (0 =? -1) with false by reflexivity.
  unfold writeFiles.
  destruct (writeFiles_loop cls open_src g (resources g) fd3) as [rs' fd4].
  replace (0 =? -1) with false by reflexivity.
  replace (close_ret =? -1) with false by (symmetry; apply Z.eqb_neq; exact Hclose).
  reflexivity.
Qed.

(** A run of blocks in which the write number [k] fails. *)
Lemma write_blocks_fails (bs : list Written) :
  forall (fd : OutFD) (k : nat) (oks : list bool),
    write_oks fd = replicate k true ++ false :: oks ->
    (k < length bs)%nat ->
    write_blocks bs fd
    = (-1, {| written := written fd ++ take k bs; write_oks := oks |}).
Proof.
  induction bs as [|b bs IH]; intros fd k oks Hoks Hk; [simpl in Hk; lia|].
  cbn [write_blocks]. unfold write. rewrite Hoks.
  destruct k as [|k]; cbn [replicate app].
  - replace (-1 =? -1) with true by reflexivity. cbn [take]. by rewrite app_nil_r.
  - replace (0 =? -1) with false by reflexivity.
    rewrite (IH _ k oks) by first [reflexivity | cbn [length] in Hk; lia].
    cbn [written take]. by rewrite <- app_assoc.
Qed.

(** X23. A failed [write] among the headers ends the emission.  When the
    destination opens and the write number [k] (from 0) of the thirteen
    header and data blocks is the first to fail, [writeELFRelocatable]
    returns -1; the file holds exactly the [k] blocks written before, no
    symbol, name or payload byte follows, and the registry is as it was. *)
Theorem failed_write_ends_the_emission
    (fn : string) (close_ret : Z) (g : Globals) (k : nat) (oks : list bool) :
  (k < 13)%nat ->
  let out := writeELFRelocatable cls open_src (Some fn)
               (Some (replicate k true ++ false :: oks)) close_ret g in
  out.1.1 = -1
  /\ out.1.2 = g
  /\ exists fd,
       out.2 = Some fd
       /\ written fd
          = take k [ WEhdr (hdr g);
                     WShdr nullHeader; WShdr textHeader; WShdr dataHeader;
                     WShdr bssHeader; WShdr (rodataHeader g);
                     WShdr (commentHeader cls); WShdr (shstrtabHeader cls);
                     WShdr (symtabHeader g); WShdr (strtabHeader g);
                     WString commentData; WStrings shstrtabData;
                     WSyms (symtabData cls) ]
       /\ write_oks fd = oks.
Proof.
  intros Hk. cbv zeta. unfold writeELFRelocatable.
  rewrite (write_blocks_fails _ _ k oks) by first [reflexivity | cbn [length]; lia].
  replace (-1 =? -1) with true by reflexivity. cbn [fst snd written app].
  split; [reflexivity|]. split; [reflexivity|].
  eexists. split; [reflexivity|]. split; reflexivity.
Qed.

(* --------------------------------------------------------------------- *)
(** ** The header file and the object file *)

(** [writeFiles] changes nothing of a resource but its [ignore] flag. *)
Lemma writeFiles_loop_keeps_fields (g : Globals) (rs : list Resource) :
  forall fd,
    map (set_ignore 0) (writeFiles_loop cls open_src g rs fd).1 = map (set_ignore 0) rs.
Proof.
  induction rs as [|it rest IH]; intros fd; [reflexivity|].
  cbn [writeFiles_loop].
  set (has_next := match rest with [] => false | _ :: _ => true end).
  pose proof (writeFiles_body_ignore cls open_src g has_next it fd) as Hb.
  destruct (writeFiles_body cls open_src g has_next it fd) as [it' fd1].
  specialize (IH fd1).
  destruct (writeFiles_loop cls open_src g rest fd1) as [rest' fd'].
  cbn [fst snd map] in *. rewrite IH, Hb. reflexivity.
Qed.


(* --------------------------------------------------------------------- *)
(** ** A file that cannot be opened *)

(** The turns of the loop for readable resources that all have a successor:
    they write the part of the payload in front of that successor. *)
Lemma writeFiles_before_readable (g : Globals) (file : string -> list ascii)
    (pre : list Resource) (x : Resource) (rest : list Resource) :
  forall fd,
    (forall r, r ∈ pre -> readable open_src (filename r) (file (filename r))) ->
    write_oks fd = [] ->
    let out := writeFiles_before cls open_src g pre fd in
    exists before,
      payload_image cls g file (pre ++ x :: rest)
      = before ++ payload_image cls g file (x :: rest)
      /\ written_bytes (written out.2) = written_bytes (written fd) ++ before
      /\ write_oks out.2 = []
      /\ out.1 = map (set_ignore FALSE) pre.
Proof.
  induction pre as [|p pre IH]; intros fd Hread Hoks; cbv zeta.
  - exists []. cbn [writeFiles_before app fst snd map]. by rewrite app_nil_r.
  - cbn [writeFiles_before].
    destruct (writeFiles_body_readable g true p file fd) as (H1 & H2 & _ & H4);
      [apply Hread, list_elem_of_here | exact Hoks |].
    destruct (writeFiles_body cls open_src g true p fd) as [p' fd1].
    cbn [fst snd] in *.
    destruct (IH fd1) as (before & I1 & I2 & I3 & I4);
      [intros r Hr; by apply Hread, list_elem_of_further | exact H4 |].
    destruct (writeFiles_before cls open_src g pre fd1) as [pre' fd2].
    cbn [fst snd] in *. subst p' pre'.
    exists (resource_bytes file p
            ++ replicate (Z.to_nat (to_int (padding cls g (size p)))) NUL ++ before).
    split; [|split; [|split; [exact I3 | reflexivity]]].
    + change ((p :: pre) ++ x :: rest) with (p :: (pre ++ x :: rest)).
      cbn [payload_image]. rewrite I1, <- !app_assoc.
      by destruct pre.
    + rewrite I2, H2, <- !app_assoc. reflexivity.
Qed.

(** X27. A file that cannot be opened is cut out of the payload.  When
    the source of one resource fails to open while all the others can be
    read and every [write] succeeds, [writeFiles] still returns 0, and what
    it has written is the payload that the layout describes with the bytes
    of that resource and the gap after it taken out: the resources after it
    follow directly on the ones before it, in front of the offsets the
    headers and symbols give them.  The resource is the only one whose
    [ignore] flag becomes [TRUE]. *)
Theorem failed_open_cuts_the_payload
    (g : Globals) (file : string -> list ascii) (pre post : list Resource)
    (it : Resource) (fd : OutFD) :
  resources g = pre ++ it :: post ->
  open_src (filename it) = OpenFails ->
  (forall r, r ∈ pre ++ post -> readable open_src (filename r) (file (filename r))) ->
  write_oks fd = [] ->
  let out := writeFiles cls open_src g fd in
  let gap := match post with
             | [] => []
             | _ :: _ => replicate (Z.to_nat (to_int (padding cls g (size it)))) NUL
             end in
  out.1.1 = 0
  /\ map ignore (resources out.1.2)
     = replicate (length pre) FALSE ++ TRUE :: replicate (length post) FALSE
  /\ exists before after,
       payload_image cls g file (resources g)
       = before ++ (resource_bytes file it ++ gap) ++ after
       /\ written_bytes (written out.2) = written_bytes (written fd) ++ before ++ after.
Proof.
  intros Hrs Hopen Hread Hoks. cbv zeta. unfold writeFiles. rewrite Hrs.
  pose proof (writeFiles_loop_split cls open_src g pre post it fd) as Hsplit.
  cbv zeta in Hsplit. rewrite Hsplit. clear Hsplit.
  destruct (writeFiles_before_readable g file pre it post fd) as (before & B1 & B2 & B3 & B4);
    [intros r Hr; apply Hread, elem_of_app; by left | exact Hoks |].
  destruct (writeFiles_before cls open_src g pre fd) as [pre' fd1].
  cbn [fst snd] in *. subst pre'.
  rewrite (writeFiles_body_open_fails cls open_src g _ it fd1 Hopen). cbn [fst snd].
  destruct (writeFiles_loop_readable g file post fd1) as (A1 & A2 & _ & _);
    [intros r Hr; apply Hread, elem_of_app; by right | exact B3 |].
  destruct (writeFiles_loop cls open_src g post fd1) as [post' fd2].
  cbn [fst snd resources set_resources] in *. subst post'.
  split; [reflexivity|]. split.
  - rewrite map_app. cbn [map set_ignore ignore]. f_equal; [|f_equal].
    + clear. induction pre as [|p pre IH]; [reflexivity|]. cbn. by rewrite IH.
    + clear. induction post as [|p post IH]; [reflexivity|]. cbn. by rewrite IH.
  - exists before, (payload_image cls g file post). split.
    + rewrite B1. cbn [payload_image]. rewrite <- !app_assoc. by destruct post.
    + rewrite A2, B2, <- app_assoc. reflexivity.
Qed.

End EmitterMore.

(* ===================================================================== *)
(** * More about the parser *)
(* ===================================================================== *)

Section ParserMore.

Variable PATH_MAX : Z.
Variable stat : string -> option Z.
Variable malloc : nat -> Block.

(** A world given by its parts. *)
Local Abbreviation W st cT cTL cS cSL cF cFL ln g e :=
  {| statics := {| state := st; curType := cT; curTypeLen := cTL;
                   curSymbol := cS; curSymbolLen := cSL;
                   curFilename := cF; curFilenameLen := cFL; lineno := ln |};
     globals := g; stderr := e |}.

(** The characters of a kind field go into [curType] one after the other. *)
Lemma read_type_field (l : list ascii) :
  forall cT cTL cS cSL cF cFL ln g e tail,
    TAB ∉ l -> NEWLINE ∉ l ->
    0 <= cTL -> cTL + sizeof l <= sizeof cT -> sizeof cT < 2 ^ 32 ->
    parse_chars stat malloc (W ReadType cT cTL cS cSL cF cFL ln g e) (l ++ tail)
    = parse_chars stat malloc
        (W ReadType (fill cT (Z.to_nat cTL) l) (cTL + sizeof l) cS cSL cF cFL ln g e)
        tail.
Proof.
  induction l as [|c l IH]; intros cT cTL cS cSL cF cFL ln g e tail Htab Hnl Hpos Hlen Hsz.
  - simpl. unfold sizeof. simpl. by rewrite Z.add_0_r.
  - apply not_elem_of_cons in Htab as [Htab Htab'].
    apply not_elem_of_cons in Hnl as [Hnl Hnl'].
    unfold sizeof in Hlen. cbn [length] in Hlen. rewrite Nat2Z.inj_succ in Hlen.
    cbn [app parse_chars]. unfold parse_char. cbn [statics state curType curTypeLen].
    rewrite (ascii_eqb_false c TAB), (ascii_eqb_false c NEWLINE) by congruence.
    replace (cTL <? sizeof cT) with true by (symmetry; apply Z.ltb_lt; unfold sizeof; lia).
    rewrite store_inside by (unfold sizeof; lia).
    rewrite to_uint_small by (unfold sizeof in Hsz; lia).
    unfold set_statics. cbn [globals stderr statics curSymbol curSymbolLen curFilename
                             curFilenameLen lineno].
    rewrite IH; try assumption; try lia.
    + cbn [fill]. unfold sizeof. cbn [length]. rewrite Nat2Z.inj_succ.
      replace (Z.to_nat (cTL + 1)) with (S (Z.to_nat cTL)) by lia.
      f_equal. f_equal. f_equal. lia.
    + rewrite sizeof_insert. unfold sizeof. lia.
    + by rewrite sizeof_insert.
Qed.

(** The characters of a symbol field go into [curSymbol]. *)
Lemma read_symbol_field (l : list ascii) :
  forall cT cTL cS cSL cF cFL ln g e tail,
    TAB ∉ l -> NEWLINE ∉ l ->
    0 <= cSL -> cSL + sizeof l <= sizeof cS -> sizeof cS < 2 ^ 32 ->
    parse_chars stat malloc (W ReadSymbol cT cTL cS cSL cF cFL ln g e) (l ++ tail)
    = parse_chars stat malloc
        (W ReadSymbol cT cTL (fill cS (Z.to_nat cSL) l) (cSL + sizeof l) cF cFL ln g e)
        tail.
Proof.
  induction l as [|c l IH]; intros cT cTL cS cSL cF cFL ln g e tail Htab Hnl Hpos Hlen Hsz.
  - simpl. unfold sizeof. simpl. by rewrite Z.add_0_r.
  - apply not_elem_of_cons in Htab as [Htab Htab'].
    apply not_elem_of_cons in Hnl as [Hnl Hnl'].
    unfold sizeof in Hlen. cbn [length] in Hlen. rewrite Nat2Z.inj_succ in Hlen.
    cbn [app parse_chars]. unfold parse_char. cbn [statics state curSymbol curSymbolLen].
    rewrite (ascii_eqb_false c TAB), (ascii_eqb_false c NEWLINE) by congruence.
    replace (cSL <? sizeof cS) with true by (symmetry; apply Z.ltb_lt; unfold sizeof; lia).
    rewrite store_inside by (unfold sizeof; lia).
    rewrite to_uint_small by (unfold sizeof in Hsz; lia).
    unfold set_statics. cbn [globals stderr statics curType curTypeLen curFilename
                             curFilenameLen lineno].
    rewrite IH; try assumption; try lia.
    + cbn [fill]. unfold sizeof. cbn [length]. rewrite Nat2Z.inj_succ.
      replace (Z.to_nat (cSL + 1)) with (S (Z.to_nat cSL)) by lia.
      f_equal. f_equal. f_equal. lia.
    + rewrite sizeof_insert. unfold sizeof. lia.
    + by rewrite sizeof_insert.
Qed.

(** The characters of a file name go into [curFilename]; a TAB is one of them. *)
Lemma read_filename_field (l : list ascii) :
  forall cT cTL cS cSL cF cFL ln g e tail,
    NEWLINE ∉ l ->
    0 <= cFL -> cFL + sizeof l <= sizeof cF -> sizeof cF < 2 ^ 32 ->
    parse_chars stat malloc (W ReadFilename cT cTL cS cSL cF cFL ln g e) (l ++ tail)
    = parse_chars stat malloc
        (W ReadFilename cT cTL cS cSL (fill cF (Z.to_nat cFL) l) (cFL + sizeof l) ln g e)
        tail.
Proof.
  induction l as [|c l IH]; intros cT cTL cS cSL cF cFL ln g e tail Hnl Hpos Hlen Hsz.
  - simpl. unfold sizeof. simpl. by rewrite Z.add_0_r.
  - apply not_elem_of_cons in Hnl as [Hnl Hnl'].
    unfold sizeof in Hlen. cbn [length] in Hlen. rewrite Nat2Z.inj_succ in Hlen.
    cbn [app parse_chars]. unfold parse_char. cbn [statics state curFilename curFilenameLen].
    rewrite (ascii_eqb_false c NEWLINE) by congruence.
    replace (cFL <? sizeof cF) with true by (symmetry; apply Z.ltb_lt; unfold sizeof; lia).
    rewrite store_inside by (unfold sizeof; lia).
    rewrite to_uint_small by (unfold sizeof in Hsz; lia).
    unfold set_statics. cbn [globals stderr statics curType curTypeLen curSymbol
                             curSymbolLen lineno].
    rewrite IH; try assumption; try lia.
    + cbn [fill]. unfold sizeof. cbn [length]. rewrite Nat2Z.inj_succ.
      replace (Z.to_nat (cFL + 1)) with (S (Z.to_nat cFL)) by lia.
      f_equal. f_equal. f_equal. lia.
    + rewrite sizeof_insert. unfold sizeof. lia.
    + by rewrite sizeof_insert.
Qed.

Lemma strncpy_binary (buf : list ascii) :
  sizeof buf = 32 ->
  sizeof (strncpy buf "binary") = 32 /\ cstring (strncpy buf "binary") = "binary"%string.
Proof.
  unfold sizeof, strncpy. intros H.
  assert (Hlen : length buf = 32%nat) by lia.
  rewrite Hlen. split; reflexivity.
Qed.

(** What the parser holds after the three fields of a well-formed line,
    before the line break: the kind (or the word binary in its place) in
    [curType], the symbol in [curSymbol], both terminated, and the characters
    of the path in [curFilename]. *)
Lemma read_record (w : World) (m : ManifestLine) :
  at_line_start PATH_MAX w ->
  well_formed PATH_MAX m ->
  exists bT bS,
    sizeof bT = 32 /\ sizeof bS = 256
    /\ cstring bT = (if known_kind (ml_kind m)
                     then String.string_of_list_ascii (ml_kind m)
                     else "binary"%string)
    /\ cstring bS = String.string_of_list_ascii (ml_symbol m)
    /\ forall tail,
         parse_chars stat malloc w (record_bytes m ++ tail)
         = parse_chars stat malloc
             (W ReadFilename bT (sizeof (ml_kind m)) bS (sizeof (ml_symbol m))
                (fill (curFilename (statics w)) 0 (ml_path m)) (sizeof (ml_path m))
                (lineno (statics w)) (globals w)
                (stderr w ++ kind_warning m (to_int (lineno (statics w)))))
             tail.
Proof.
  destruct w as [[st cT cTL cS cSL cF cFL ln] g e].
  destruct m as [kind sym path].
  unfold at_line_start, well_formed. cbn [statics state curType curTypeLen curSymbol
    curFilename ml_kind ml_symbol ml_path globals stderr lineno].
  intros (-> & -> & HsT & HsS & HsF & Hmax)
         (Hk1 & Hk2 & Hk3 & Hk4 & Hs1 & Hs2 & Hs3 & Hs4 & Hp1 & Hp2 & Hp4).
  set (bT0 := <[length kind := NUL]> (fill cT 0 kind)).
  set (unknown := negb (String.eqb (cstring bT0) "text")
                  && negb (String.eqb (cstring bT0) "binary")).
  set (bT := if unknown then strncpy bT0 "binary" else bT0).
  set (bS := <[length sym := NUL]> (fill cS 0 sym)).
  assert (HcT0 : cstring bT0 = String.string_of_list_ascii kind).
  { apply cstring_terminated; [unfold sizeof in *; lia | exact Hk3]. }
  assert (HsT0 : sizeof bT0 = 32) by (subst bT0; by rewrite sizeof_insert, sizeof_fill).
  assert (Hunk : unknown = negb (known_kind kind)).
  { subst unknown. rewrite HcT0. unfold known_kind. symmetry. apply negb_orb. }
  exists bT, bS. split; [|split; [|split; [|split]]].
  - subst bT. clearbody unknown.
    destruct unknown; [exact (proj1 (strncpy_binary bT0 HsT0)) | exact HsT0].
  - subst bS. by rewrite sizeof_insert, sizeof_fill.
  - subst bT. clearbody unknown. rewrite Hunk. destruct (known_kind kind); simpl.
    + exact HcT0.
    + exact (proj2 (strncpy_binary bT0 HsT0)).
  - subst bS. apply cstring_terminated; [unfold sizeof in *; lia | exact Hs3].
  - intros tail. unfold record_bytes. cbn [ml_kind ml_symbol ml_path].
    rewrite <- app_assoc.
    rewrite read_type_field; [|assumption|assumption|lia|lia|lia].
    (* the TAB after the kind *)
    cbn [app parse_chars]. unfold parse_char at 1. cbn [statics state curType curTypeLen].
    replace (Ascii.eqb TAB TAB) with true by reflexivity.
    rewrite store_inside by (rewrite sizeof_fill; unfold sizeof in *; lia).
    replace (Z.to_nat (0 + sizeof kind)) with (length kind) by (unfold sizeof; lia).
    change (Z.to_nat 0) with 0%nat. fold bT0. fold unknown. fold bT.
    unfold set_statics. cbn [lineno curSymbol curFilename curFilenameLen].
    (* the symbol *)
    rewrite <- app_assoc.
    match goal with
    | |- parse_chars _ _ {| statics := ?p; globals := ?g1; stderr := ?e1 |} _ = _ =>
        assert (Hg : g1 = g) by (by destruct unknown);
        assert (He : e1 = e ++ kind_warning {| ml_kind := kind; ml_symbol := sym;
                                                ml_path := path |} (to_int ln))
    end.
    { unfold kind_warning. cbn [ml_kind]. rewrite <- HcT0.
      destruct (known_kind kind); rewrite Hunk; simpl; [by rewrite app_nil_r | reflexivity]. }
    rewrite Hg, He.
    rewrite read_symbol_field; [|assumption|assumption|lia|lia|lia].
    (* the TAB after the symbol *)
    cbn [app parse_chars]. unfold parse_char at 1.
    cbn [statics state curSymbol curSymbolLen].
    replace (Ascii.eqb TAB TAB) with true by reflexivity.
    rewrite store_inside by (rewrite sizeof_fill; unfold sizeof in *; lia).
    replace (Z.to_nat (0 + sizeof sym)) with (length sym) by (unfold sizeof; lia).
    change (Z.to_nat 0) with 0%nat. fold bS.
    unfold set_statics. cbn [globals stderr curType curTypeLen curFilename lineno].
    (* the path *)
    rewrite read_filename_field; [|assumption|lia|lia|lia].
    change (Z.to_nat 0) with 0%nat. rewrite !Z.add_0_l. reflexivity.
Qed.

(** What the parser holds after the kind of a well-formed line and its TAB. *)
Lemma read_kind (w : World) (m : ManifestLine) :
  at_line_start PATH_MAX w ->
  well_formed PATH_MAX m ->
  exists bT,
    sizeof bT = 32
    /\ forall tail,
         parse_chars stat malloc w (ml_kind m ++ TAB :: tail)
         = parse_chars stat malloc
             (W ReadSymbol bT (sizeof (ml_kind m)) (curSymbol (statics w)) 0
                (curFilename (statics w)) (curFilenameLen (statics w))
                (lineno (statics w)) (globals w)
                (stderr w ++ kind_warning m (to_int (lineno (statics w)))))
             tail.
Proof.
  destruct w as [[st cT cTL cS cSL cF cFL ln] g e].
  destruct m as [kind sym path].
  unfold at_line_start, well_formed. cbn [statics state curType curTypeLen curSymbol
    curFilename curFilenameLen ml_kind ml_symbol ml_path globals stderr lineno].
  intros (-> & -> & HsT & HsS & HsF & Hmax)
         (Hk1 & Hk2 & Hk3 & Hk4 & _).
  set (bT0 := <[length kind := NUL]> (fill cT 0 kind)).
  set (unknown := negb (String.eqb (cstring bT0) "text")
                  && negb (String.eqb (cstring bT0) "binary")).
  set (bT := if unknown then strncpy bT0 "binary" else bT0).
  assert (HcT0 : cstring bT0 = String.string_of_list_ascii kind).
  { apply cstring_terminated; [unfold sizeof in *; lia | exact Hk3]. }
  assert (HsT0 : sizeof bT0 = 32) by (subst bT0; by rewrite sizeof_insert, sizeof_fill).
  assert (Hunk : unknown = negb (known_kind kind)).
  { subst unknown. rewrite HcT0. unfold known_kind. symmetry. apply negb_orb. }
  exists bT. split.
  - subst bT. clearbody unknown.
    destruct unknown; [exact (proj1 (strncpy_binary bT0 HsT0)) | exact HsT0].
  - intros tail.
    rewrite read_type_field; [|assumption|assumption|lia|lia|lia].
    cbn [app parse_chars]. unfold parse_char at 1. cbn [statics state curType curTypeLen].
    replace (Ascii.eqb TAB TAB) with true by reflexivity.
    rewrite store_inside by (rewrite sizeof_fill; unfold sizeof in *; lia).
    replace (Z.to_nat (0 + sizeof kind)) with (length kind) by (unfold sizeof; lia).
    change (Z.to_nat 0) with 0%nat. fold bT0. fold unknown. fold bT.
    unfold set_statics. cbn [lineno curSymbol curFilename curFilenameLen].
    match goal with
    | |- parse_chars _ _ {| statics := ?p; globals := ?g1; stderr := ?e1 |} _ = _ =>
        assert (Hg : g1 = g) by (by destruct unknown);
        assert (He : e1 = e ++ kind_warning {| ml_kind := kind; ml_symbol := sym;
                                                ml_path := path |} (to_int ln))
    end.
    { unfold kind_warning. cbn [ml_kind]. rewrite <- HcT0.
      destruct (known_kind kind); rewrite Hunk; simpl; [by rewrite app_nil_r | reflexivity]. }
    rewrite Hg, He. rewrite Z.add_0_l. reflexivity.
Qed.

(** The type [finish_record] chooses from what [curType] holds after the TAB. *)
Lemma chosen_type (kind : list ascii) :
  let held := if known_kind kind then String.string_of_list_ascii kind
              else "binary"%string in
  (if String.eqb held "text" then TEXT
   else if String.eqb held "binary" then BINARY else TEXT)
  = record_type kind.
Proof.
  cbv zeta. unfold known_kind, record_type.
  destruct (String.eqb (String.string_of_list_ascii kind) "text") eqn:E1; simpl.
  - by rewrite E1.
  - destruct (String.eqb (String.string_of_list_ascii kind) "binary") eqn:E2; simpl.
    + by rewrite E1, E2.
    + reflexivity.
Qed.

(** [finish_record] once the three fields of a well-formed line are in the
    arrays and the path is terminated. *)
Lemma finish_record_line (m : ManifestLine) bT cTL bS cSL cF ln g e :
  well_formed PATH_MAX m ->
  sizeof cF = PATH_MAX ->
  cstring bT = (if known_kind (ml_kind m)
                then String.string_of_list_ascii (ml_kind m) else "binary"%string) ->
  cstring bS = String.string_of_list_ascii (ml_symbol m) ->
  let bF := <[length (ml_path m) := NUL]> (fill cF 0 (ml_path m)) in
  let w := W ReadFilename bT cTL bS cSL bF (sizeof (ml_path m)) ln g e in
  finish_record stat malloc w
  = match stat (String.string_of_list_ascii (ml_path m)) with
    | Some _ =>
        inl (W ReadFilename bT cTL bS cSL bF (sizeof (ml_path m)) ln
               (set_resources (register_line stat malloc (resources g) m) g) e)
    | None =>
        inr (W ReadFilename bT cTL bS cSL bF (sizeof (ml_path m)) ln g
               (e ++ [AccessFailed (to_int ln) (String.string_of_list_ascii (ml_path m))]))
    end.
Proof.
  intros (_ & _ & _ & _ & _ & _ & _ & _ & Hp1 & Hp2 & Hp4) HsF HcT HcS bF w.
  assert (HcF : cstring bF = String.string_of_list_ascii (ml_path m)).
  { subst bF. apply cstring_terminated; [unfold sizeof in *; lia | exact Hp2]. }
  unfold finish_record, register_line. subst w.
  cbn [statics curFilename curType curSymbol globals stderr lineno].
  rewrite HcF, HcT, HcS.
  destruct (stat (String.string_of_list_ascii (ml_path m))) as [st_size|]; [|reflexivity].
  by rewrite (chosen_type (ml_kind m)).
Qed.

(** A well-formed line whose file is there, read from the start of a line:
    the parser is at the start of the next line, with one more resource. *)
Lemma accept_line (w : World) (m : ManifestLine) (st_size : Z) :
  at_line_start PATH_MAX w ->
  well_formed PATH_MAX m ->
  stat (String.string_of_list_ascii (ml_path m)) = Some st_size ->
  exists w',
    (forall tail,
        parse_chars stat malloc w (line_bytes m ++ tail) = parse_chars stat malloc w' tail)
    /\ at_line_start PATH_MAX w'
    /\ globals w'
       = set_resources
           (registerResource (malloc (length (resources (globals w))))
              (record_type (ml_kind m))
              (String.string_of_list_ascii (ml_symbol m))
              (String.string_of_list_ascii (ml_path m)) st_size (resources (globals w)))
           (globals w)
    /\ lineno (statics w') = to_uint (lineno (statics w) + 1)
    /\ stderr w' = stderr w ++ kind_warning m (to_int (lineno (statics w))).
Proof.
  intros Hstart Hwf Hstat.
  destruct (read_record w m Hstart Hwf) as (bT & bS & HsT & HsS & HcT & HcS & Hrun).
  destruct Hstart as (_ & _ & _ & _ & HsF & Hmax).
  pose proof Hwf as (_ & _ & _ & _ & _ & _ & _ & _ & Hp1 & Hp2 & Hp4).
  set (bF := <[length (ml_path m) := NUL]> (fill (curFilename (statics w)) 0 (ml_path m))).
  exists (W ReadType bT 0 bS (sizeof (ml_symbol m)) bF (sizeof (ml_path m))
            (to_uint (lineno (statics w) + 1))
            (set_resources (register_line stat malloc (resources (globals w)) m) (globals w))
            (stderr w ++ kind_warning m (to_int (lineno (statics w))))).
  split; [|split; [|split; [|split]]].
  - intros tail. unfold line_bytes. rewrite <- app_assoc, Hrun.
    cbn [app parse_chars]. unfold parse_char at 1.
    cbn [statics state curFilename curFilenameLen].
    replace (Ascii.eqb NEWLINE NEWLINE) with true by reflexivity.
    rewrite store_inside by (rewrite sizeof_fill; unfold sizeof in *; lia).
    replace (Z.to_nat (sizeof (ml_path m))) with (length (ml_path m))
      by (unfold sizeof; lia).
    unfold set_statics, set_curFilename.
    cbn [statics globals stderr state curType curTypeLen curSymbol curSymbolLen
         curFilename curFilenameLen lineno].
    rewrite (finish_record_line m); [|assumption|assumption|assumption|assumption].
    rewrite Hstat. reflexivity.
  - unfold at_line_start. cbn [statics state curType curTypeLen curSymbol curFilename].
    subst bF. rewrite sizeof_insert, sizeof_fill. by repeat split.
  - cbn [globals]. unfold register_line. by rewrite Hstat.
  - reflexivity.
  - reflexivity.
Qed.

(** X12. The parser accepts a well-formed line.  From the start of a line,
    whatever the arrays still hold from earlier lines, a buffer with the
    bytes of one line [kind TAB symbol TAB path LF] whose file [stat] finds
    makes [parseResourceFileData] return 0 at the start of the next line
    with exactly one more resource: its symbol and path are the fields (the
    path may hold TABs), its size is the size of the file, one more for type
    [TEXT]; the type is [TEXT] for the kind text and [BINARY] for every other
    kind; a kind other than text and binary draws one warning and nothing
    else.  [lineno] goes up by one. *)
Theorem parser_accepts_a_well_formed_line (w : World) (m : ManifestLine) (st_size : Z) :
  at_line_start PATH_MAX w ->
  well_formed PATH_MAX m ->
  stat (String.string_of_list_ascii (ml_path m)) = Some st_size ->
  let r := parseResourceFileData stat malloc w (Some (line_bytes m)) in
  return_of r = Some 0
  /\ at_line_start PATH_MAX (world_after r)
  /\ registry_of r
     = resources (globals w)
       ++ [ {| type := record_type (ml_kind m);
               symbol := String.string_of_list_ascii (ml_symbol m);
               symbolSize := to_uint (strlen (String.string_of_list_ascii (ml_symbol m)) + 1);
               filename := String.string_of_list_ascii (ml_path m);
               size := match record_type (ml_kind m) with
                       | TEXT => to_uint (to_uint st_size + 1)
                       | BINARY => to_uint st_size
                       end;
               ignore := blk_ignore (malloc (length (resources (globals w))));
               payloadOffset := blk_payloadOffset (malloc (length (resources (globals w))));
               strtabOffset := blk_strtabOffset (malloc (length (resources (globals w)))) |} ]
  /\ lineno (statics (world_after r)) = to_uint (lineno (statics w) + 1)
  /\ stderr (world_after r) = stderr w ++ kind_warning m (to_int (lineno (statics w))).
Proof.
  intros Hstart Hwf Hstat.
  destruct (accept_line w m st_size Hstart Hwf Hstat)
    as (w' & Hrun & Hstart' & Hreg & Hline & Herr).
  specialize (Hrun []). rewrite app_nil_r in Hrun.
  cbv zeta. cbn [parseResourceFileData]. rewrite Hrun.
  cbn [parse_chars return_of world_after registry_of].
  split; [reflexivity|]. split; [exact Hstart'|].
  split; [|split; [exact Hline | exact Herr]].
  rewrite Hreg. reflexivity.
Qed.

Lemma register_line_length (rs : list Resource) (m : ManifestLine) :
  is_Some (stat (String.string_of_list_ascii (ml_path m))) ->
  length (register_line stat malloc rs m) = S (length rs).
Proof.
  intros [sz Hsz]. unfold register_line, registerResource. rewrite Hsz.
  rewrite length_app. simpl. lia.
Qed.

Lemma register_lines_length (ms : list ManifestLine) :
  forall rs,
    Forall (fun m => is_Some (stat (String.string_of_list_ascii (ml_path m)))) ms ->
    length (foldl (register_line stat malloc) rs ms) = (length rs + length ms)%nat.
Proof.
  induction ms as [|m ms IH]; intros rs Hfiles; simpl; [lia|].
  apply Forall_cons in Hfiles as [Hm Hms].
  rewrite IH by exact Hms. rewrite register_line_length by exact Hm. lia.
Qed.

Lemma register_lines_registrations (ms : list ManifestLine) :
  forall rs,
    Forall (fun m => is_Some (stat (String.string_of_list_ascii (ml_path m)))) ms ->
    foldl (register_line stat malloc) rs ms
    = foldl register rs (registrations stat malloc (length rs) ms).
Proof.
  induction ms as [|m ms IH]; intros rs Hfiles; [reflexivity|].
  apply Forall_cons in Hfiles as [[sz Hsz] Hms].
  cbn [foldl registrations]. rewrite IH by exact Hms.
  assert (E : register_line stat malloc rs m
              = register rs (registration_of stat (malloc (length rs)) m)).
  { unfold register_line, register, registration_of. cbn. by rewrite Hsz. }
  rewrite E. f_equal. f_equal.
  unfold register, registerResource. rewrite length_app. simpl. lia.
Qed.

(** A run of well-formed lines whose files are there. *)
Lemma accept_lines (ms : list ManifestLine) :
  forall w,
    at_line_start PATH_MAX w ->
    0 <= lineno (statics w) < 2 ^ 32 ->
    Forall (well_formed PATH_MAX) ms ->
    Forall (fun m => is_Some (stat (String.string_of_list_ascii (ml_path m)))) ms ->
    exists w',
      (forall tail,
          parse_chars stat malloc w (concat (map line_bytes ms) ++ tail)
          = parse_chars stat malloc w' tail)
      /\ at_line_start PATH_MAX w'
      /\ globals w'
         = set_resources (foldl (register_line stat malloc) (resources (globals w)) ms)
             (globals w)
      /\ lineno (statics w') = to_uint (lineno (statics w) + Z.of_nat (length ms))
      /\ stderr w' = stderr w ++ kind_warnings ms (lineno (statics w)).
Proof.
  induction ms as [|m ms IH]; intros w Hstart Hln Hwf Hfiles.
  - exists w. split; [reflexivity|]. split; [exact Hstart|].
    split; [by destruct (globals w)|].
    simpl. rewrite Z.add_0_r, app_nil_r. split; [|reflexivity].
    symmetry. apply to_uint_small. exact Hln.
  - apply Forall_cons in Hwf as [Hm Hms].
    apply Forall_cons in Hfiles as [[sz Hsz] Hfs].
    destruct (accept_line w m sz Hstart Hm Hsz)
      as (w1 & Hrun1 & Hstart1 & Hreg1 & Hline1 & Herr1).
    assert (Hln1 : 0 <= lineno (statics w1) < 2 ^ 32)
      by (rewrite Hline1; apply to_uint_range).
    destruct (IH w1 Hstart1 Hln1 Hms Hfs) as (w' & Hrun & Hstart' & Hreg & Hline & Herr).
    exists w'. split; [|split; [exact Hstart'|split; [|split]]].
    + intros tail. cbn [map concat]. rewrite <- app_assoc, Hrun1. apply Hrun.
    + rewrite Hreg, Hreg1. cbn [foldl resources set_resources].
      replace (register_line stat malloc (resources (globals w)) m)
        with (registerResource (malloc (length (resources (globals w))))
                (record_type (ml_kind m))
                (String.string_of_list_ascii (ml_symbol m))
                (String.string_of_list_ascii (ml_path m)) sz (resources (globals w)))
        by (unfold register_line; by rewrite Hsz).
      reflexivity.
    + rewrite Hline, Hline1. unfold to_uint. cbn [length].
      rewrite Nat2Z.inj_succ, Zplus_mod_idemp_l. f_equal. lia.
    + rewrite Herr, Herr1, Hline1. cbn [kind_warnings]. by rewrite app_assoc.
Qed.

(** X15. A resource file of well-formed lines, each ended by a line break
    and each naming a file that [stat] finds, is accepted whole, however
    [read] cuts it into buffers: every call of [parseResourceFileData]
    returns 0, the registry gains one resource per line, in the order of
    the lines, [lineno] has counted the lines, the only diagnostics are the
    warnings for unknown kinds, and the parser is at the start of a line
    again. *)
Theorem well_formed_manifest_is_registered
    (w : World) (ms : list ManifestLine) (chunks : list (list ascii)) :
  at_line_start PATH_MAX w ->
  0 <= lineno (statics w) < 2 ^ 32 ->
  Forall (well_formed PATH_MAX) ms ->
  Forall (fun m => is_Some (stat (String.string_of_list_ascii (ml_path m)))) ms ->
  concat chunks = concat (map line_bytes ms) ->
  let r := feed_chunks stat malloc w chunks in
  return_of r = Some 0
  /\ registry_of r = foldl (register_line stat malloc) (resources (globals w)) ms
  /\ length (registry_of r) = (length (resources (globals w)) + length ms)%nat
  /\ lineno (statics (world_after r))
     = to_uint (lineno (statics w) + Z.of_nat (length ms))
  /\ stderr (world_after r) = stderr w ++ kind_warnings ms (lineno (statics w))
  /\ at_line_start PATH_MAX (world_after r).
Proof.
  intros Hstart Hln Hwf Hfiles Hcut.
  destruct (accept_lines ms w Hstart Hln Hwf Hfiles)
    as (w' & Hrun & Hstart' & Hreg & Hline & Herr).
  specialize (Hrun []). rewrite app_nil_r in Hrun.
  cbv zeta. rewrite feed_chunks_concat, Hcut, Hrun.
  cbn [parse_chars return_of registry_of world_after].
  rewrite Hreg. cbn [resources set_resources].
  split; [reflexivity|]. split; [reflexivity|]. split.
  { apply register_lines_length. exact Hfiles. }
  split; [exact Hline|]. split; [exact Herr | exact Hstart'].
Qed.


(** A well-formed line whose file [stat] does not find ends the call. *)
Lemma missing_file_stops (w : World) (m : ManifestLine) (tail : list ascii) :
  at_line_start PATH_MAX w ->
  well_formed PATH_MAX m ->
  stat (String.string_of_list_ascii (ml_path m)) = None ->
  exists w',
    parse_chars stat malloc w (line_bytes m ++ tail) = Returned (-1) w'
    /\ resources (globals w') = resources (globals w)
    /\ stderr w'
       = stderr w ++ kind_warning m (to_int (lineno (statics w)))
         ++ [AccessFailed (to_int (lineno (statics w)))
               (String.string_of_list_ascii (ml_path m))].
Proof.
  intros Hstart Hwf Hstat.
  destruct (read_record w m Hstart Hwf) as (bT & bS & HsT & HsS & HcT & HcS & Hrun).
  destruct Hstart as (_ & _ & _ & _ & HsF & Hmax).
  pose proof Hwf as (_ & _ & _ & _ & _ & _ & _ & _ & Hp1 & Hp2 & Hp4).
  eexists. split.
  { unfold line_bytes. rewrite <- app_assoc, Hrun.
    cbn [app parse_chars]. unfold parse_char.
    cbn [statics state curFilename curFilenameLen].
    replace (Ascii.eqb NEWLINE NEWLINE) with true by reflexivity.
    rewrite store_inside by (rewrite sizeof_fill; unfold sizeof in *; lia).
    replace (Z.to_nat (sizeof (ml_path m))) with (length (ml_path m))
      by (unfold sizeof; lia).
    unfold set_statics, set_curFilename.
    cbn [statics globals stderr state curType curTypeLen curSymbol curSymbolLen
         curFilename curFilenameLen lineno].
    rewrite (finish_record_line m); [|assumption|assumption|assumption|assumption].
    rewrite Hstat. reflexivity. }
  cbn [globals stderr]. split; [reflexivity|]. by rewrite app_assoc.
Qed.

(** X13. A line whose file [stat] does not find is fatal: the call returns
    -1 at the line break, after the diagnostic with the value of [lineno]
    and the path, and the registry is as it was before the line. *)
Theorem missing_file_is_fatal (w : World) (m : ManifestLine) (tail : list ascii) :
  at_line_start PATH_MAX w ->
  well_formed PATH_MAX m ->
  stat (String.string_of_list_ascii (ml_path m)) = None ->
  let r := parse_chars stat malloc w (line_bytes m ++ tail) in
  return_of r = Some (-1)
  /\ registry_of r = resources (globals w)
  /\ stderr (world_after r)
     = stderr w ++ kind_warning m (to_int (lineno (statics w)))
       ++ [AccessFailed (to_int (lineno (statics w)))
             (String.string_of_list_ascii (ml_path m))].
Proof.
  intros Hstart Hwf Hstat.
  destruct (missing_file_stops w m tail Hstart Hwf Hstat) as (w' & E & Hreg & Herr).
  cbv zeta. rewrite E. cbn [return_of registry_of world_after].
  split; [reflexivity|]. split; [exact Hreg | exact Herr].
Qed.

(** X14. The last line needs no line break: when the input ends after the
    path of a well-formed record, the end-of-input call registers the
    resource like a line break would, and returns 0. *)
Theorem last_record_is_registered_at_end_of_input
    (w : World) (m : ManifestLine) (st_size : Z) :
  at_line_start PATH_MAX w ->
  well_formed PATH_MAX m ->
  stat (String.string_of_list_ascii (ml_path m)) = Some st_size ->
  let r := parse_manifest stat malloc w [record_bytes m] in
  return_of r = Some 0
  /\ registry_of r
     = registerResource (malloc (length (resources (globals w))))
         (record_type (ml_kind m))
         (String.string_of_list_ascii (ml_symbol m))
         (String.string_of_list_ascii (ml_path m)) st_size (resources (globals w))
  /\ stderr (world_after r) = stderr w ++ kind_warning m (to_int (lineno (statics w))).
Proof.
  intros Hstart Hwf Hstat.
  destruct (read_record w m Hstart Hwf) as (bT & bS & HsT & HsS & HcT & HcS & Hrun).
  destruct Hstart as (_ & _ & _ & _ & HsF & Hmax).
  pose proof Hwf as (_ & _ & _ & _ & _ & _ & _ & _ & Hp1 & Hp2 & Hp4).
  assert (E : parse_manifest stat malloc w [record_bytes m]
              = Returned 0
                  (W ReadFilename bT (sizeof (ml_kind m)) bS (sizeof (ml_symbol m))
                     (<[length (ml_path m) := NUL]>
                        (fill (curFilename (statics w)) 0 (ml_path m)))
                     (sizeof (ml_path m)) (lineno (statics w))
                     (set_resources (register_line stat malloc (resources (globals w)) m)
                        (globals w))
                     (stderr w ++ kind_warning m (to_int (lineno (statics w)))))).
  { unfold parse_manifest. cbn [feed_chunks parseResourceFileData].
    specialize (Hrun []). rewrite app_nil_r in Hrun. rewrite Hrun.
    cbn [parse_chars]. replace (0 =? -1) with false by reflexivity.
    cbn [parseResourceFileData]. unfold parse_eof.
    cbn [statics state curFilename curFilenameLen].
    rewrite store_inside by (rewrite sizeof_fill; unfold sizeof in *; lia).
    replace (Z.to_nat (sizeof (ml_path m))) with (length (ml_path m))
      by (unfold sizeof; lia).
    unfold set_statics, set_curFilename.
    cbn [statics globals stderr state curType curTypeLen curSymbol curSymbolLen
         curFilename curFilenameLen lineno].
    rewrite (finish_record_line m); [|assumption|assumption|assumption|assumption].
    by rewrite Hstat. }
  cbv zeta. rewrite E.
  cbn [return_of registry_of world_after globals stderr resources set_resources].
  unfold register_line. rewrite Hstat. by repeat split.
Qed.

(** X16. A line break before the path is fatal.  After the kind of a line
    (also after no character at all: an empty line) a line break makes the
    call return -1 with the diagnostic that a TAB and a symbol were
    expected; after the kind, the TAB and the symbol it returns -1 with the
    diagnostic that a TAB and a file name were expected.  The registry stays
    as it was. *)
Theorem line_break_before_the_path_is_fatal
    (w : World) (m : ManifestLine) (tail : list ascii) :
  at_line_start PATH_MAX w ->
  well_formed PATH_MAX m ->
  let r1 := parse_chars stat malloc w (ml_kind m ++ NEWLINE :: tail) in
  let r2 := parse_chars stat malloc w (ml_kind m ++ TAB :: ml_symbol m ++ NEWLINE :: tail) in
  (return_of r1 = Some (-1)
   /\ registry_of r1 = resources (globals w)
   /\ stderr (world_after r1)
      = stderr w ++ [TypeGotNewline (to_int (lineno (statics w)))])
  /\ (return_of r2 = Some (-1)
      /\ registry_of r2 = resources (globals w)
      /\ stderr (world_after r2)
         = stderr w ++ kind_warning m (to_int (lineno (statics w)))
           ++ [SymbolGotNewline (to_int (lineno (statics w)))]).
Proof.
  intros Hstart Hwf.
  destruct (read_kind w m Hstart Hwf) as (bT & HsT & Hrun).
  pose proof Hstart as (Hst & Hlen & HsT0 & HsS & HsF & Hmax).
  pose proof Hwf as (Hk1 & Hk2 & Hk3 & Hk4 & Hs1 & Hs2 & Hs3 & Hs4 & _).
  cbv zeta. split.
  - destruct w as [[st cT cTL cS cSL cF cFL ln] g e].
    cbn [statics state curType curTypeLen curSymbol globals stderr lineno] in *.
    subst st cTL.
    rewrite read_type_field; [|assumption|assumption|lia|lia|lia].
    cbn [parse_chars]. unfold parse_char. cbn [statics state].
    replace (Ascii.eqb NEWLINE TAB) with false by reflexivity.
    replace (Ascii.eqb NEWLINE NEWLINE) with true by reflexivity.
    cbn [return_of registry_of world_after fprintf_stderr globals stderr lineno statics].
    repeat split.
  - rewrite Hrun.
    rewrite read_symbol_field; [|assumption|assumption|lia|lia|lia].
    cbn [parse_chars]. unfold parse_char. cbn [statics state].
    replace (Ascii.eqb NEWLINE TAB) with false by reflexivity.
    replace (Ascii.eqb NEWLINE NEWLINE) with true by reflexivity.
    cbn [return_of registry_of world_after fprintf_stderr globals stderr lineno statics].
    split; [reflexivity|]. split; [reflexivity|]. by rewrite app_assoc.
Qed.

(** X17. A kind or a symbol that fills its array is fatal at the next
    character: with 32 characters of a kind read, a further character that
    is neither TAB nor line break makes the call return -1, and the
    diagnostic shows the first 31 characters of the kind; with 256
    characters of a symbol read it is the same, with the first 255. *)
Theorem overlong_field_is_fatal
    (w : World) (m : ManifestLine) (l : list ascii) (c : ascii) (tail : list ascii) :
  at_line_start PATH_MAX w ->
  well_formed PATH_MAX m ->
  (TAB ∉ l) -> (NEWLINE ∉ l) -> (NUL ∉ l) ->
  c <> TAB -> c <> NEWLINE ->
  let r1 := parse_chars stat malloc w (l ++ c :: tail) in
  let r2 := parse_chars stat malloc w (ml_kind m ++ TAB :: l ++ c :: tail) in
  (sizeof l = 32 ->
   return_of r1 = Some (-1)
   /\ registry_of r1 = resources (globals w)
   /\ stderr (world_after r1)
      = stderr w ++ [TypeTooLong (to_int (lineno (statics w)))
                       (String.string_of_list_ascii (take 31 l))])
  /\ (sizeof l = 256 ->
      return_of r2 = Some (-1)
      /\ registry_of r2 = resources (globals w)
      /\ stderr (world_after r2)
         = stderr w ++ kind_warning m (to_int (lineno (statics w)))
           ++ [SymbolTooLong (to_int (lineno (statics w)))
                 (String.string_of_list_ascii (take 255 l))]).
Proof.
  intros Hstart Hwf Htab Hnl Hnul Hc1 Hc2.
  destruct (read_kind w m Hstart Hwf) as (bT & HsT & Hrun).
  pose proof Hstart as (Hst & Hlen & HsT0 & HsS & HsF & Hmax).
  assert (Hcut : forall n, NUL ∉ take n l).
  { intros n Hin. apply Hnul. exact (subseteq_take n l NUL Hin). }
  cbv zeta. split; intros Hl.
  - destruct w as [[st cT cTL cS cSL cF cFL ln] g e].
    cbn [statics state curType curTypeLen curSymbol globals stderr lineno] in *.
    subst st cTL.
    rewrite read_type_field; [|assumption|assumption|lia|lia|lia].
    cbn [parse_chars]. unfold parse_char. cbn [statics state curType curTypeLen].
    rewrite (ascii_eqb_false c TAB), (ascii_eqb_false c NEWLINE) by congruence.
    rewrite sizeof_fill, HsT0, Hl. change (0 + 32 <? 32) with false. cbv iota.
    change (to_uint (0 + 32 - 1)) with 31.
    rewrite store_inside by (rewrite sizeof_fill; lia).
    change (Z.to_nat 31) with 31%nat. change (Z.to_nat 0) with 0%nat.
    rewrite (cstring_cut cT l 31) by (unfold sizeof in *; first [lia | apply Hcut]).
    cbn [return_of registry_of world_after fprintf_stderr set_statics set_curType
         globals stderr lineno statics].
    repeat split.
  - rewrite Hrun.
    rewrite read_symbol_field; [|assumption|assumption|lia|lia|lia].
    cbn [parse_chars]. unfold parse_char. cbn [statics state curSymbol curSymbolLen].
    rewrite (ascii_eqb_false c TAB), (ascii_eqb_false c NEWLINE) by congruence.
    rewrite sizeof_fill, HsS, Hl. change (0 + 256 <? 256) with false. cbv iota.
    change (to_uint (0 + 256 - 1)) with 255.
    rewrite store_inside by (rewrite sizeof_fill; lia).
    change (Z.to_nat 255) with 255%nat. change (Z.to_nat 0) with 0%nat.
    rewrite (cstring_cut (curSymbol (statics w)) l 255)
      by (unfold sizeof in *; first [lia | apply Hcut]).
    cbn [return_of registry_of world_after fprintf_stderr set_statics set_curSymbol
         globals stderr lineno statics].
    split; [reflexivity|]. split; [reflexivity|]. by rewrite app_assoc.
Qed.

(* --------------------------------------------------------------------- *)
(** ** Whatever the input *)

Lemma finish_record_stderr (w : World) :
  exists l, stderr (match finish_record stat malloc w with
                    | inl w' => w' | inr w' => w' end)
            = stderr w ++ l.
Proof.
  unfold finish_record. destruct (stat _) as [st_size|]; simpl.
  - exists []. by rewrite app_nil_r.
  - eexists. reflexivity.
Qed.

Lemma parse_char_stderr (w : World) (c : ascii) :
  exists l,
    stderr (match parse_char stat malloc w c with
            | Continue w' => w'
            | Stop r => world_after r
            end)
    = stderr w ++ l.
Proof.
  assert (Hnil : exists l, stderr w = stderr w ++ l)
    by (exists []; by rewrite app_nil_r).
  assert (Hone : forall d, exists l, stderr w ++ [d] = stderr w ++ l)
    by (intros d; by exists [d]).
  unfold parse_char.
  destruct (state (statics w));
    repeat case_match; simplify_eq; simpl; try exact Hnil; try apply Hone;
    match goal with Hf : finish_record _ _ ?w0 = _ |- _ =>
      destruct (finish_record_stderr w0) as [added Hadded];
      rewrite Hf in Hadded; simpl in Hadded; by exists added end.
Qed.

Lemma parse_chars_stderr (buffer : list ascii) :
  forall w, exists l,
    stderr (world_after (parse_chars stat malloc w buffer)) = stderr w ++ l.
Proof.
  induction buffer as [|c rest IH]; intros w; simpl.
  - exists []. by rewrite app_nil_r.
  - destruct (parse_char_stderr w c) as [l1 Hl1].
    destruct (parse_char stat malloc w c) as [w1|r].
    + destruct (IH w1) as [l2 Hl2]. exists (l1 ++ l2).
      by rewrite Hl2, Hl1, app_assoc.
    + by exists l1.
Qed.

Lemma parse_eof_stderr (w : World) :
  exists l, stderr (world_after (parse_eof stat malloc w)) = stderr w ++ l.
Proof.
  assert (Hnil : exists l, stderr w = stderr w ++ l)
    by (exists []; by rewrite app_nil_r).
  unfold parse_eof.
  destruct (state (statics w)); simpl; try (by eexists).
  destruct (store _ _ _) as [buf|]; simpl; [|exact Hnil].
  match goal with |- context [finish_record stat malloc ?w0] =>
    destruct (finish_record_stderr w0) as [l Hl];
    destruct (finish_record stat malloc w0) end; simpl in *; by exists l.
Qed.

(** A pass over a buffer returns 0 at its end, or it ends early. *)
Lemma parse_chars_returns (buffer : list ascii) :
  forall w,
    (exists w', parse_chars stat malloc w buffer = Returned 0 w')
    \/ ends_run (parse_chars stat malloc w buffer) = true.
Proof.
  induction buffer as [|c rest IH]; intros w; simpl.
  - left. by exists w.
  - destruct (parse_char stat malloc w c) as [w1|r] eqn:E; [apply IH|].
    right. by apply parse_char_stop in E.
Qed.

(** X28. Whatever bytes the parser is given, in whatever buffers, it keeps
    what it has: the resources registered before are still there, in front
    of the ones the input has added, and so are the diagnostics; a run that
    is not ended by a store outside an array returns 0 or -1; and while
    every call returns 0, [lineno] goes on counting the registered
    resources. *)
Theorem parser_keeps_what_it_has (w : World) (chunks : list (list ascii)) :
  let fed := feed_chunks stat malloc w chunks in
  let r := parse_manifest stat malloc w chunks in
  (exists added, registry_of r = resources (globals w) ++ added)
  /\ (exists said, stderr (world_after r) = stderr w ++ said)
  /\ (return_of r = Some 0 \/ return_of r = Some (-1) \/ return_of r = None)
  /\ (lineno_counts w -> return_of fed = Some 0 -> lineno_counts (world_after fed)).
Proof.
  cbv zeta. unfold parse_manifest. rewrite feed_chunks_concat.
  destruct (parse_chars_appends stat malloc (concat chunks) w) as [l1 Hl1].
  destruct (parse_chars_stderr (concat chunks) w) as [e1 He1].
  destruct (parse_chars_returns (concat chunks) w) as [[w1 E]|E].
  - rewrite E in *. cbn [registry_of world_after] in *.
    replace (0 =? -1) with false by reflexivity.
    destruct (parseResourceFileData_appends stat malloc None w1) as [l2 Hl2].
    destruct (parse_eof_stderr w1) as [e2 He2].
    cbn [parseResourceFileData] in *.
    split; [exists (l1 ++ l2); by rewrite Hl2, Hl1, app_assoc|].
    split; [exists (e1 ++ e2); by rewrite He2, He1, app_assoc|].
    split.
    + unfold parse_eof.
      destruct (state (statics w1)); cbn [return_of]; auto.
      destruct (store _ _ _); cbn [return_of]; auto.
      destruct (finish_record _ _ _); cbn [return_of]; auto.
    + intros Hinv _. eapply parse_chars_lineno; eassumption.
  - destruct (parse_chars stat malloc w (concat chunks)) as [ret w1|b i w1];
      cbn [ends_run registry_of world_after return_of] in *.
    + rewrite E. cbn [registry_of world_after return_of].
      apply Z.eqb_eq in E. subst ret.
      split; [by exists l1|]. split; [by exists e1|]. split; [auto|].
      intros _ [=].
    + split; [by exists l1|]. split; [by exists e1|]. split; [auto|].
      intros _ [=].
Qed.

End ParserMore.
(* ===================================================================== *)
(** * More about [loadResources] and [main] *)
(* ===================================================================== *)

Section DriverMore.

Variable cls : ElfClass.
Variable ELF_DATA : Z.
Variable PATH_MAX : Z.
Variable stat : string -> option Z.
Variable malloc : nat -> Block.
Variable open_src : string -> OpenResult.

(** The read loop on full buffers followed by a short one is one pass of
    the parser over all the bytes. *)
Lemma load_loop_chunks (chunks : list (list ascii)) (last : list ascii)
    (rest : list ReadResult) :
  forall w,
    Forall (fun chunk => sizeof chunk = 1024) chunks ->
    sizeof last < 1024 ->
    load_loop stat malloc (map ReadBytes chunks ++ ReadBytes last :: rest) w
    = match parse_chars stat malloc w (concat chunks ++ last) with
      | Returned r w' => if r =? -1 then LoopFailed w' else LoopDone w'
      | Undefined b i w' => LoopUndefined b i w'
      end.
Proof.
  induction chunks as [|chunk chunks IH]; intros w Hfull Hlast.
  - cbn [map app concat load_loop parseResourceFileData].
    rewrite take_ge by (unfold sizeof in Hlast; lia).
    destruct (parse_chars stat malloc w last) as [r w'|b i w']; [|reflexivity].
    destruct (r =? -1); [reflexivity|].
    replace (sizeof last =? 1024) with false by (symmetry; apply Z.eqb_neq; lia).
    reflexivity.
  - apply Forall_cons in Hfull as [Hchunk Hfull].
    cbn [map app concat load_loop parseResourceFileData].
    rewrite take_ge by (unfold sizeof in Hchunk; lia).
    rewrite <- app_assoc, parse_chars_app.
    destruct (parse_chars stat malloc w chunk) as [r w'|b i w']; [|reflexivity].
    destruct (r =? -1) eqn:E; [by rewrite E|].
    replace (sizeof chunk =? 1024) with true by (symmetry; apply Z.eqb_eq; exact Hchunk).
    apply IH; assumption.
Qed.

(** X19. [loadResources] on a resource file that opens and that [read]
    delivers in full buffers of 1024 bytes and then a shorter one is one
    pass of the parser over the whole contents, followed by the
    end-of-input call: a pass that returns -1 makes it return -1 without
    that call, otherwise it returns what [close] returns, whatever the
    end-of-input call returned.  What the descriptor would deliver after
    the short read is never asked for. *)
Theorem loadResources_reads_a_regular_file
    (chunks : list (list ascii)) (last : list ascii) (rest : list ReadResult)
    (close_ret : Z) (w : World) :
  Forall (fun chunk => sizeof chunk = 1024) chunks ->
  sizeof last < 1024 ->
  loadResources stat malloc (Opened (map ReadBytes chunks ++ ReadBytes last :: rest) close_ret) w
  = match parse_chars stat malloc w (concat chunks ++ last) with
    | Returned r w' =>
        if r =? -1 then Returned (-1) w'
        else match parseResourceFileData stat malloc w' None with
             | Returned _ w'' => Returned close_ret w''
             | Undefined b i w'' => Undefined b i w''
             end
    | Undefined b i w' => Undefined b i w'
    end.
Proof.
  intros Hfull Hlast. unfold loadResources.
  rewrite load_loop_chunks by assumption.
  destruct (parse_chars stat malloc w (concat chunks ++ last)) as [r w'|b i w'];
    [|reflexivity].
  destruct (r =? -1); reflexivity.
Qed.

Lemma initial_world_at_line_start :
  0 <= PATH_MAX < 2 ^ 32 ->
  at_line_start PATH_MAX (initial_world cls ELF_DATA PATH_MAX).
Proof.
  intros H. unfold at_line_start, initial_world, initial_statics, sizeof.
  cbn [statics state curTypeLen curType curSymbol curFilename].
  rewrite !length_replicate. repeat split; try reflexivity; lia.
Qed.


(** X21. A run on a resource file of well-formed lines whose files [stat]
    finds is the composition of its parts.  When an object file is asked
    for, the program finds itself and reads its own ELF header, the resource
    file is read in full buffers and a last shorter one and closes, the
    destination opens and every [write] and [close] on it succeeds, and the
    header file, if one is asked for, is written: [main] returns 0, and the
    object file is what [writeELFRelocatable] writes for the layout
    [patchHeaders] computes from the registrations of the lines, one per
    line on the blocks [malloc] returned in turn.  Whether the files can
    still be opened when the payload is written plays no part in the return
    value.  When they can all be read, the diagnostics of the run are the
    warnings for unknown kinds and, since every line ends with a line
    break, the end-of-input error of the parser. *)
Theorem well_formed_run_returns_0
    (inv : Invocation) (ms : list ManifestLine) (own : Ehdr) (fn : string)
    (chunks : list (list ascii)) (last : list ascii) (rest : list ReadResult)
    (close_ret : Z) :
  0 <= PATH_MAX < 2 ^ 32 ->
  objectOutput inv = Some fn ->
  writeCHeader (headerOutput inv) (header_ret inv) <> -1 ->
  pathToSelf inv <> None ->
  self_image inv = SelfHeader own ->
  manifest inv = Opened (map ReadBytes chunks ++ ReadBytes last :: rest) close_ret ->
  Forall (fun chunk => sizeof chunk = 1024) chunks ->
  sizeof last < 1024 ->
  close_ret <> -1 ->
  concat chunks ++ last = concat (map line_bytes ms) ->
  Forall (well_formed PATH_MAX) ms ->
  Forall (fun m => is_Some (stat (String.string_of_list_ascii (ml_path m)))) ms ->
  object_dest inv = Some [] ->
  object_close inv <> -1 ->
  let g := set_resources (register_all (registrations stat malloc 0 ms))
             (initial_globals cls ELF_DATA) in
  let patched := patchHeaders cls (self_image inv) None g in
  let out := writeELFRelocatable cls open_src (Some fn) (Some []) (object_close inv)
               patched.2 in
  let r := main cls ELF_DATA PATH_MAX stat malloc open_src inv in
  patched.1 = 0
  /\ exit_of r = Some 0
  /\ object_of r = out.2
  /\ globals (world_of r) = out.1.2
  /\ ((forall m, m ∈ ms ->
         exists content,
           readable open_src (String.string_of_list_ascii (ml_path m)) content) ->
      stderr (world_of r) = kind_warnings ms 0 ++ [EofExpectedSymbol]).
Proof.
  intros Hmax Hobj Hhdr Hself Himg Hman Hfull Hlast Hclose Hcut Hwf Hfiles Hdest Hoclose.
  pose proof (initial_world_at_line_start Hmax) as Hstart.
  set (w := initial_world cls ELF_DATA PATH_MAX) in *.
  assert (Hln : 0 <= lineno (statics w) < 2 ^ 32) by (simpl; lia).
  destruct (accept_lines PATH_MAX stat malloc ms w Hstart Hln Hwf Hfiles)
    as (w1 & Hrun & Hstart1 & Hglob1 & Hline1 & Herr1).
  specialize (Hrun []). rewrite app_nil_r in Hrun.
  assert (Hload : loadResources stat malloc (manifest inv) w
                  = Returned close_ret (fprintf_stderr EofExpectedSymbol w1)).
  { rewrite Hman. unfold loadResources. rewrite load_loop_chunks by assumption.
    rewrite Hcut, Hrun. cbn [parse_chars].
    replace (0 =? -1) with false by reflexivity.
    cbn [parseResourceFileData]. unfold parse_eof.
    destruct Hstart1 as (-> & _). reflexivity. }
  assert (Hg : globals w1
               = set_resources (register_all (registrations stat malloc 0 ms))
                   (initial_globals cls ELF_DATA)).
  { rewrite Hglob1. change (resources (globals w)) with (@nil Resource).
    rewrite (register_lines_registrations stat malloc ms [] Hfiles).
    reflexivity. }
  cbv zeta. rewrite Himg. cbn [patchHeaders fst snd].
  unfold main. fold w. rewrite Hload, Hobj, Himg, Hdest.
  destruct (pathToSelf inv) as [p|]; [|congruence].
  replace (close_ret =? -1) with false by (symmetry; apply Z.eqb_neq; exact Hclose).
  cbn [patchHeaders fprintf_stderr globals statics stderr].
  replace (0 =? -1) with false by reflexivity.
  rewrite Hg.
  match goal with |- context [writeELFRelocatable cls open_src ?a ?b ?c ?d] =>
    pose proof (writeELFRelocatable_succeeds cls open_src fn c d Hoclose) as Hret;
    destruct (writeELFRelocatable cls open_src a b c d) as [[r3 g3] obj] end.
  cbn [fst snd] in *. subst r3. replace (0 =? -1) with false by reflexivity.
  replace (writeCHeader (headerOutput inv) (header_ret inv) =? -1) with false
    by (symmetry; apply Z.eqb_neq; exact Hhdr).
  cbn [exit_of object_of world_of globals stderr].
  split; [reflexivity|]. split; [reflexivity|]. split; [reflexivity|].
  split; [reflexivity|].
  intros _. rewrite Herr1. reflexivity.
Qed.

End DriverMore.
(* ===================================================================== *)
(** * More about [findPathToSelf] *)
(* ===================================================================== *)

Lemma list_ascii_of_string_app (a b : string) :
  String.list_ascii_of_string (String.append a b)
  = String.list_ascii_of_string a ++ String.list_ascii_of_string b.
Proof. induction a as [|c a IH]; simpl; [reflexivity | by rewrite IH]. Qed.

Lemma string_of_list_ascii_app (a b : list ascii) :
  String.string_of_list_ascii (a ++ b)
  = String.append (String.string_of_list_ascii a) (String.string_of_list_ascii b).
Proof. induction a as [|c a IH]; simpl; [reflexivity | by rewrite IH]. Qed.

Lemma append_slash (a b : string) :
  String.append (String.append a (String SLASH EmptyString)) b
  = String.append a (String SLASH b).
Proof.
  induction a as [|c a IH]; [reflexivity|].
  change (String c (String.append (String.append a (String SLASH EmptyString)) b)
          = String c (String.append a (String SLASH b))).
  f_equal. exact IH.
Qed.

Lemma existsb_absent (c : ascii) (l : list ascii) :
  c ∉ l -> existsb (Ascii.eqb c) l = false.
Proof.
  induction l as [|x l IH]; intros H; [reflexivity|].
  apply not_elem_of_cons in H as [Hx Hl]. simpl.
  rewrite (ascii_eqb_false c x Hx). by apply IH.
Qed.

Lemma existsb_present (c : ascii) (l : list ascii) :
  c ∈ l -> existsb (Ascii.eqb c) l = true.
Proof.
  induction 1 as [x l|x y l _ IH]; simpl.
  - by rewrite Ascii.eqb_refl.
  - rewrite IH. apply orb_true_r.
Qed.

(** The characters of a token are collected up to the next colon. *)
Lemma strtok_all_run (d : list ascii) :
  forall cur tail,
    COLON ∉ d ->
    strtok_all cur (d ++ tail) = strtok_all (cur ++ d) tail.
Proof.
  induction d as [|c d IH]; intros cur tail Hd.
  - by rewrite app_nil_r.
  - apply not_elem_of_cons in Hd as [Hc Hd]. cbn [app strtok_all].
    rewrite (ascii_eqb_false c COLON) by congruence.
    rewrite IH by exact Hd. by rewrite <- app_assoc.
Qed.

(** The tokens of a colon-separated list are its non-empty entries. *)
Lemma strtok_all_entries (dirs : list string) :
  Forall (fun d => COLON ∉ String.list_ascii_of_string d) dirs ->
  strtok_all [] (String.list_ascii_of_string (String.concat (String COLON EmptyString) dirs))
  = filter (fun d => d <> EmptyString) dirs.
Proof.
  induction dirs as [|d rest IH]; intros Hdirs; [reflexivity|].
  apply Forall_cons in Hdirs as [Hd Hrest]. specialize (IH Hrest).
  assert (Hone : forall tail,
            strtok_all (String.list_ascii_of_string d) tail
            = match tail with
              | [] => filter (fun d => d <> EmptyString) [d]
              | c :: rest' =>
                  if Ascii.eqb c COLON
                  then filter (fun d => d <> EmptyString) [d] ++ strtok_all [] rest'
                  else strtok_all (String.list_ascii_of_string d ++ [c]) rest'
              end).
  { intros tail. destruct d as [|c d].
    - destruct tail as [|x tail]; [reflexivity|]. cbn [String.list_ascii_of_string strtok_all].
      destruct (Ascii.eqb x COLON); reflexivity.
    - assert (E : String.string_of_list_ascii (String.list_ascii_of_string (String c d))
                  = String c d) by apply String.string_of_list_ascii_of_string.
      cbn [String.list_ascii_of_string] in *.
      destruct tail as [|x tail]; cbn [strtok_all]; rewrite ?E.
      + rewrite filter_cons_True by discriminate. reflexivity.
      + destruct (Ascii.eqb x COLON); [|reflexivity].
        rewrite filter_cons_True by discriminate. reflexivity. }
  destruct rest as [|d2 rest].
  - cbn [String.concat]. rewrite <- (app_nil_r (String.list_ascii_of_string d)).
    rewrite strtok_all_run by exact Hd. cbn [app]. apply Hone.
  - change (String.concat (String COLON EmptyString) (d :: d2 :: rest))
      with (String.append d (String.append (String COLON EmptyString)
              (String.concat (String COLON EmptyString) (d2 :: rest)))).
    remember (String.concat (String COLON EmptyString) (d2 :: rest)) as others.
    rewrite !list_ascii_of_string_app.
    change (String.list_ascii_of_string (String COLON EmptyString)) with [COLON].
    rewrite strtok_all_run by exact Hd. cbn [app].
    rewrite Hone. replace (Ascii.eqb COLON COLON) with true by reflexivity.
    rewrite IH, (filter_cons _ d []), (filter_cons _ d (d2 :: rest)), filter_nil.
    destruct (decide (d <> EmptyString)); reflexivity.
Qed.

Section FindSelfMore.

Variable PATH_MAX : Z.
Variable getcwd : option string.
Variable getenv_PATH : option string.
Variable stat_reg : string -> option bool.

(** The loop returns the first candidate that is a regular file. *)
Lemma search_PATH_first (invocation : string) (pre : list string) (d : string)
    (post : list string) :
  (forall d', d' ∈ pre -> stat_reg (snprintf_path PATH_MAX d' invocation) <> Some true) ->
  stat_reg (snprintf_path PATH_MAX d invocation) = Some true ->
  search_PATH PATH_MAX stat_reg invocation (pre ++ d :: post)
  = SelfIs (snprintf_path PATH_MAX d invocation).
Proof.
  intros Hpre Hd. induction pre as [|p pre IH]; cbn [app search_PATH].
  - by rewrite Hd.
  - pose proof (Hpre p (list_elem_of_here _ _)) as Hp.
    assert (IH' := IH (fun d' H => Hpre d' (list_elem_of_further _ _ _ H))).
    destruct (stat_reg (snprintf_path PATH_MAX p invocation)) as [[|]|];
      [congruence | exact IH' | exact IH'].
Qed.

Lemma search_PATH_none (invocation : string) (dirs : list string) :
  (forall d, d ∈ dirs -> stat_reg (snprintf_path PATH_MAX d invocation) <> Some true) ->
  search_PATH PATH_MAX stat_reg invocation dirs = SelfNull.
Proof.
  intros Hdirs. induction dirs as [|p dirs IH]; cbn [search_PATH]; [reflexivity|].
  pose proof (Hdirs p (list_elem_of_here _ _)) as Hp.
  assert (IH' := IH (fun d' H => Hdirs d' (list_elem_of_further _ _ _ H))).
  destruct (stat_reg (snprintf_path PATH_MAX p invocation)) as [[|]|];
    [congruence | exact IH' | exact IH'].
Qed.

(** X25. An invocation that names a directory is not looked up.  An
    invocation that starts with a slash, shorter than [PATH_MAX], is
    returned as it is; one of [PATH_MAX] characters or more leaves the
    array without a terminating NUL.  An invocation with a slash further
    on is returned behind the working directory and a slash, when the three
    together are shorter than [PATH_MAX].  Neither [PATH] nor [stat] plays a
    part: whether the file exists is not checked. *)
Theorem invocation_with_a_slash_is_not_looked_up (invocation : string) :
  NUL ∉ String.list_ascii_of_string invocation ->
  0 <= PATH_MAX ->
  let inv := String.list_ascii_of_string invocation in
  (hd NUL inv = SLASH -> strlen invocation < PATH_MAX ->
   findPathToSelf PATH_MAX getcwd getenv_PATH stat_reg invocation = SelfIs invocation)
  /\ (hd NUL inv = SLASH -> PATH_MAX <= strlen invocation ->
      findPathToSelf PATH_MAX getcwd getenv_PATH stat_reg invocation = SelfUnterminated)
  /\ (forall cwd,
        hd NUL inv <> SLASH -> SLASH ∈ inv -> getcwd = Some cwd ->
        strlen cwd + 1 + strlen invocation < PATH_MAX ->
        findPathToSelf PATH_MAX getcwd getenv_PATH stat_reg invocation
        = SelfIs (String.append cwd (String SLASH invocation))).
Proof.
  intros Hnul Hmax inv.
  assert (Hlen : strlen invocation = Z.of_nat (length inv)).
  { unfold strlen. subst inv. by rewrite length_list_ascii_of_string. }
  split; [|split].
  - intros Hhd Hshort. unfold findPathToSelf. fold inv. rewrite Hhd.
    replace (Ascii.eqb SLASH SLASH) with true by reflexivity. cbv zeta.
    unfold strncpy. fold inv. rewrite length_replicate.
    assert (E : exists k, take (Z.to_nat PATH_MAX) (inv ++ replicate (Z.to_nat PATH_MAX) NUL)
                          = inv ++ NUL :: replicate k NUL).
    { rewrite take_app_ge by lia. rewrite take_replicate, Nat.min_l by lia.
      destruct (Z.to_nat PATH_MAX - length inv)%nat as [|k] eqn:Ek; [lia|].
      by exists k. }
    destruct E as [k ->].
    rewrite existsb_present by (apply elem_of_app; right; apply list_elem_of_here).
    rewrite cstring_app_nul by exact Hnul.
    f_equal. apply String.string_of_list_ascii_of_string.
  - intros Hhd Hlong. unfold findPathToSelf. fold inv. rewrite Hhd.
    replace (Ascii.eqb SLASH SLASH) with true by reflexivity. cbv zeta.
    unfold strncpy. fold inv. rewrite length_replicate.
    rewrite take_app_le by lia.
    rewrite existsb_absent; [reflexivity|].
    intros Hin. apply Hnul. exact (subseteq_take _ _ _ Hin).
  - intros cwd Hhd Hslash Hcwd Hfit. unfold findPathToSelf. fold inv.
    rewrite (ascii_eqb_false _ _ Hhd), (existsb_present _ _ Hslash), Hcwd.
    assert (Hc : 0 <= strlen cwd) by (unfold strlen; lia).
    replace (strlen cwd <? PATH_MAX) with true by (symmetry; apply Z.ltb_lt; lia).
    cbv zeta. f_equal.
    assert (E1 : strncat cwd (String SLASH EmptyString) (PATH_MAX - strlen cwd - 1)
                 = String.append cwd (String SLASH EmptyString)).
    { unfold strncat. f_equal. cbn [String.list_ascii_of_string].
      rewrite take_ge by (simpl; lia). reflexivity. }
    rewrite E1.
    assert (L1 : strlen (String.append cwd (String SLASH EmptyString)) = strlen cwd + 1).
    { unfold strlen. rewrite <- !length_list_ascii_of_string, list_ascii_of_string_app.
      rewrite length_app. simpl. lia. }
    rewrite L1. unfold strncat. fold inv.
    rewrite take_ge by lia. subst inv.
    rewrite String.string_of_list_ascii_of_string.
    apply append_slash.
Qed.

(** X26. An invocation without a slash is looked up in [PATH].  For a
    [PATH] that lists directories separated by colons, the directories are
    tried in order, the empty entries left out, and the first one in which
    [stat] finds a regular file under the name of the invocation gives the
    result; names that [stat] does not find or that are no regular files
    are passed over.  When no entry qualifies, and when [PATH] is not set,
    the result is the null pointer.  The name tried is the directory, a
    slash and the invocation, cut to fit the array. *)
Theorem invocation_without_slash_is_searched_in_PATH
    (invocation : string) (dirs : list string) :
  SLASH ∉ String.list_ascii_of_string invocation ->
  Forall (fun d => COLON ∉ String.list_ascii_of_string d) dirs ->
  let candidate d := snprintf_path PATH_MAX d invocation in
  let found := findPathToSelf PATH_MAX getcwd getenv_PATH stat_reg invocation in
  (getenv_PATH = None -> found = SelfNull)
  /\ (getenv_PATH = Some (String.concat (String COLON EmptyString) dirs) ->
      (forall pre d post,
          dirs = pre ++ d :: post ->
          d <> EmptyString ->
          stat_reg (candidate d) = Some true ->
          (forall d', d' ∈ pre -> d' <> EmptyString ->
                      stat_reg (candidate d') <> Some true) ->
          found = SelfIs (candidate d))
      /\ ((forall d, d ∈ dirs -> d <> EmptyString -> stat_reg (candidate d) <> Some true) ->
          found = SelfNull))
  /\ (forall d, strlen d + 1 + strlen invocation < PATH_MAX ->
        candidate d = String.append d (String SLASH invocation)).
Proof.
  intros Hslash Hdirs candidate found.
  assert (Hfound : found
                   = match getenv_PATH with
                     | Some path =>
                         search_PATH PATH_MAX stat_reg invocation
                           (strtok_all [] (String.list_ascii_of_string path))
                     | None => SelfNull
                     end).
  { subst found. unfold findPathToSelf. cbv zeta.
    rewrite (existsb_absent _ _ Hslash).
    assert (Hhd : hd NUL (String.list_ascii_of_string invocation) <> SLASH).
    { destruct (String.list_ascii_of_string invocation) as [|c l]; [discriminate|].
      simpl. intros ->. apply Hslash. apply list_elem_of_here. }
    by rewrite (ascii_eqb_false _ _ Hhd). }
  split; [|split].
  - intros Hpath. by rewrite Hfound, Hpath.
  - intros Hpath. rewrite Hfound, Hpath, (strtok_all_entries dirs Hdirs). split.
    + intros pre d post -> Hd Hreg Hpre.
      rewrite filter_app, filter_cons_True by exact Hd.
      apply search_PATH_first; [|exact Hreg].
      intros d' Hd'. apply list_elem_of_filter in Hd' as [Hne Hin]. by apply Hpre.
    + intros Hnone. apply search_PATH_none.
      intros d Hd. apply list_elem_of_filter in Hd as [Hne Hin]. by apply Hnone.
  - intros d Hfit. subst candidate. unfold snprintf_path.
    rewrite take_ge.
    + rewrite string_of_list_ascii_app. cbn [String.string_of_list_ascii].
      by rewrite !String.string_of_list_ascii_of_string.
    + rewrite length_app. cbn [length]. rewrite !length_list_ascii_of_string.
      unfold strlen in Hfit. lia.
Qed.

End FindSelfMore.
(* ===================================================================== *)
(** * The further properties on sample inputs *)
(* ===================================================================== *)

Section MoreExamples.

Import Sample.
Import SampleLines.

Ltac evaluated := vm_compute; first [reflexivity | discriminate].

(** Splits a hypothesis [r ∈ [x1; ...; xn]] into its cases. *)
Ltac each_member H :=
  repeat (apply elem_of_cons in H as [-> | H]); [.. | by apply elem_of_nil in H].

(** A list of characters does not hold the character [c]. *)
Ltac absent := apply (bool_decide_unpack _); vm_compute; exact I.

Ltac is_well_formed :=
  unfold well_formed; repeat apply conj; first [absent | evaluated].

Ltac is_readable l :=
  exists [], l, [], 0; repeat apply conj;
  first [evaluated | constructor | discriminate].

Lemma section_alignment_is_the_largest_witness :
  patchHeaders cls SelfOpenFails (Some own_header) (with_registry three) = (0, laid_out)
  /\ sh_addralign (rodataHeader laid_out) = 8
  /\ 1 <= sh_addralign (rodataHeader laid_out) <= pointer_bits cls.
Proof.
  assert (H : patchHeaders cls SelfOpenFails (Some own_header) (with_registry three)
              = (0, laid_out)) by reflexivity.
  pose proof (section_alignment_is_the_largest cls _ _ _ _ H) as (C & _).
  refine (conj H (conj _ C)). evaluated.
Defined.

Lemma payload_offsets_are_aligned_witness :
  resources (with_registry three) = register_all three
  /\ patchHeaders cls SelfOpenFails (Some own_header) (with_registry three) = (0, laid_out)
  /\ map payloadOffset (resources laid_out) = [0; 8; 16]
  /\ forall r, r ∈ resources laid_out ->
       payloadOffset r mod sh_addralign (rodataHeader laid_out) = 0.
Proof.
  assert (H1 : resources (with_registry three) = register_all three) by reflexivity.
  assert (H2 : patchHeaders cls SelfOpenFails (Some own_header) (with_registry three)
               = (0, laid_out)) by reflexivity.
  refine (conj H1 (conj H2 (conj _ (payload_offsets_are_aligned cls _ _ _ _ _ H1 H2)))).
  evaluated.
Defined.

Lemma payload_offsets_wrap_around_witness :
  patchHeaders cls SelfOpenFails (Some own_header) (with_registry three) = (0, laid_out)
  /\ to_uint (sh_size (rodataHeader laid_out))
     = to_uint (declared_payload cls laid_out (resources laid_out)).
Proof.
  assert (H : patchHeaders cls SelfOpenFails (Some own_header) (with_registry three)
              = (0, laid_out)) by reflexivity.
  exact (conj H (proj2 (payload_offsets_wrap_around cls _ _ _ _ H))).
Defined.

Lemma patchHeaders_keeps_the_registry_witness :
  patchHeaders cls SelfOpenFails (Some own_header) (with_registry three) = (0, laid_out)
  /\ length (resources laid_out) = length (resources (with_registry three)).
Proof.
  assert (H : patchHeaders cls SelfOpenFails (Some own_header) (with_registry three)
              = (0, laid_out)) by reflexivity.
  exact (conj H (proj1 (patchHeaders_keeps_the_registry cls _ _ _ _ H))).
Defined.

Lemma sections_follow_each_other_witness :
  patchHeaders cls SelfOpenFails (Some own_header)
    (set_resources (register_all three) (initial_globals cls ELFDATA2LSB)) = (0, laid_out)
  /\ (7 + Z.of_nat (length three)) * sizeof_Sym cls + names_size three <= INT_MAX
  /\ sh_offset (symtabHeader laid_out) = 771
  /\ sh_offset (strtabHeader laid_out)
     = sh_offset (symtabHeader laid_out) + sh_size (symtabHeader laid_out)
  /\ sh_offset (rodataHeader laid_out)
     = sh_offset (strtabHeader laid_out) + sh_size (strtabHeader laid_out).
Proof.
  assert (H1 : patchHeaders cls SelfOpenFails (Some own_header)
                 (set_resources (register_all three) (initial_globals cls ELFDATA2LSB))
               = (0, laid_out)) by reflexivity.
  assert (H2 : (7 + Z.of_nat (length three)) * sizeof_Sym cls + names_size three
               <= INT_MAX) by evaluated.
  pose proof (sections_follow_each_other cls _ _ _ _ _ H1 H2) as (_ & _ & _ & C4 & C5).
  refine (conj H1 (conj H2 (conj _ (conj C4 C5)))). evaluated.
Defined.

Lemma copyFileToFD_copies_the_file_witness :
  let chunks := [replicate (Z.to_nat 8192) "x"%char] in
  let out := copyFileToFD long_file "long.bin" empty_fd in
  long_file "long.bin" = Opened (map ReadBytes chunks ++ ReadBytes (bytes "end") :: []) 0
  /\ Forall (fun chunk => sizeof chunk = 8192) chunks
  /\ sizeof (bytes "end") < 8192
  /\ write_oks empty_fd = []
  /\ out.1 = 0
  /\ written_bytes (written out.2) = replicate (Z.to_nat 8192) "x"%char ++ bytes "end".
Proof.
  intros chunks out.
  assert (H1 : long_file "long.bin"
               = Opened (map ReadBytes chunks ++ ReadBytes (bytes "end") :: []) 0)
    by reflexivity.
  assert (H2 : Forall (fun chunk => sizeof chunk = 8192) chunks)
    by (repeat constructor; evaluated).
  assert (H3 : sizeof (bytes "end") < 8192) by evaluated.
  assert (H4 : write_oks empty_fd = []) by reflexivity.
  pose proof (copyFileToFD_copies_the_file long_file _ _ _ _ _ _ H1 H2 H3 H4)
    as (C1 & C2 & _).
  exact (conj H1 (conj H2 (conj H3 (conj H4 (conj C1 C2))))).
Defined.

Lemma sample_files_readable (r : Resource) :
  r ∈ resources laid_out -> readable contents (filename r) (file (filename r)).
Proof.
  intros Hr. change (resources laid_out) with
    [set_offsets 0 1 (registered (reg BINARY "A" "a.bin" 3));
     set_offsets 8 3 (registered (reg TEXT "GREETING" "greeting.txt" 2));
     set_offsets 16 12 (registered (reg BINARY "B" "b.bin" 8))] in Hr.
  each_member Hr.
  - is_readable (bytes "abc").
  - is_readable (bytes "hi").
  - is_readable (bytes "01234567").
Defined.

Lemma writeFiles_writes_the_payload_witness :
  let out := writeFiles cls contents laid_out empty_fd in
  (forall r, r ∈ resources laid_out -> readable contents (filename r) (file (filename r)))
  /\ write_oks empty_fd = []
  /\ out.1.1 = 0
  /\ written_bytes (written out.2)
     = bytes "abc" ++ replicate 5 NUL ++ bytes "hi" ++ replicate 6 NUL ++ bytes "01234567".
Proof.
  intros out.
  assert (H2 : write_oks empty_fd = []) by reflexivity.
  pose proof (writeFiles_writes_the_payload cls contents laid_out file empty_fd
                sample_files_readable H2) as (C1 & _ & C3 & _).
  refine (conj sample_files_readable (conj H2 (conj C1 _))).
  etransitivity; [exact C3|]. evaluated.
Defined.

Lemma sample_files_registered (q : Registration) :
  q ∈ three ->
  reg_filesize q = Z.of_nat (length (file (reg_filename q)))
  /\ reg_filesize q < INT_MAX.
Proof.
  intros Hq. unfold three in Hq. each_member Hq; split; evaluated.
Defined.

Lemma sample_files_ok (q : Registration) :
  q ∈ three ->
  readable contents (reg_filename q) (file (reg_filename q))
  /\ reg_filesize q = Z.of_nat (length (file (reg_filename q)))
  /\ reg_filesize q < INT_MAX.
Proof.
  intros Hq. unfold three in Hq. each_member Hq.
  - split; [is_readable (bytes "abc") | split; evaluated].
  - split; [is_readable (bytes "hi") | split; evaluated].
  - split; [is_readable (bytes "01234567") | split; evaluated].
Defined.

Lemma payload_matches_the_layout_witness :
  let out := writeFiles cls contents laid_out empty_fd in
  resources (with_registry three) = register_all three
  /\ patchHeaders cls SelfOpenFails (Some own_header) (with_registry three) = (0, laid_out)
  /\ (forall q, q ∈ three ->
        readable contents (reg_filename q) (file (reg_filename q))
        /\ reg_filesize q = Z.of_nat (length (file (reg_filename q)))
        /\ reg_filesize q < INT_MAX)
  /\ declared_payload cls laid_out (resources laid_out) <= INT_MAX
  /\ write_oks empty_fd = []
  /\ exists payload,
       written_bytes (written out.2) = written_bytes (written empty_fd) ++ payload
       /\ Z.of_nat (length payload) = sh_size (rodataHeader laid_out)
       /\ forall i r, resources laid_out !! i = Some r ->
            take (length (resource_bytes file r))
                 (drop (Z.to_nat (payloadOffset r)) payload)
            = resource_bytes file r.
Proof.
  intros out.
  assert (H1 : resources (with_registry three) = register_all three) by reflexivity.
  assert (H2 : patchHeaders cls SelfOpenFails (Some own_header) (with_registry three)
               = (0, laid_out)) by reflexivity.
  assert (H4 : declared_payload cls laid_out (resources laid_out) <= INT_MAX)
    by evaluated.
  assert (H5 : write_oks empty_fd = []) by reflexivity.
  exact (conj H1 (conj H2 (conj sample_files_ok (conj H4 (conj H5
           (payload_matches_the_layout cls contents _ _ _ file _ _ empty_fd H1 H2
              sample_files_ok H4 H5)))))).
Defined.

Lemma writeSymbols_writes_the_unflagged_witness :
  let out := writeSymbols cls (resources laid_out) empty_fd in
  write_oks empty_fd = []
  /\ out.1 = 0
  /\ map st_value (symbols_of (written out.2)) = [0; 8; 16].
Proof.
  intros out.
  assert (H : write_oks empty_fd = []) by reflexivity.
  pose proof (writeSymbols_writes_the_unflagged cls (resources laid_out) empty_fd H)
    as (C1 & C2 & _).
  refine (conj H (conj C1 _)). fold out in C2. rewrite C2. evaluated.
Defined.

Lemma sample_names_clean (q : Registration) :
  q ∈ three ->
  (NUL ∉ String.list_ascii_of_string (reg_symbol q))
  /\ blk_ignore (reg_block q) <> TRUE.
Proof.
  intros Hq. unfold three in Hq. each_member Hq; split; first [absent | evaluated].
Defined.

Lemma string_table_reads_back_witness :
  let out := writeStringTable (resources laid_out) empty_fd in
  resources (with_registry three) = register_all three
  /\ patchHeaders cls SelfOpenFails (Some own_header) (with_registry three) = (0, laid_out)
  /\ names_size three <= INT_MAX
  /\ write_oks empty_fd = []
  /\ out.1 = 0
  /\ forall r, r ∈ resources laid_out ->
       cstring (drop (Z.to_nat (strtabOffset r)) (strtab_image (resources laid_out)))
       = symbol r.
Proof.
  intros out.
  assert (H1 : resources (with_registry three) = register_all three) by reflexivity.
  assert (H2 : patchHeaders cls SelfOpenFails (Some own_header) (with_registry three)
               = (0, laid_out)) by reflexivity.
  assert (H3 : names_size three <= INT_MAX) by evaluated.
  assert (H5 : write_oks empty_fd = []) by reflexivity.
  pose proof (string_table_reads_back cls _ _ _ _ _ empty_fd H1 H2 H3
                sample_names_clean H5) as (C1 & _ & _ & C4).
  exact (conj H1 (conj H2 (conj H3 (conj H5 (conj C1 C4))))).
Defined.

Lemma sample_start : at_line_start PATH_MAX w0.
Proof. unfold at_line_start. repeat apply conj; evaluated. Defined.

Lemma sample_a_bin : well_formed PATH_MAX a_bin.
Proof. is_well_formed. Defined.

Lemma sample_missing : well_formed PATH_MAX missing.
Proof. is_well_formed. Defined.

Lemma sample_lines : Forall (well_formed PATH_MAX) lines.
Proof. repeat constructor; is_well_formed. Defined.

Lemma sample_lines_found :
  Forall (fun m => is_Some (stat (String.string_of_list_ascii (ml_path m)))) lines.
Proof. repeat constructor; eexists; evaluated. Defined.

Lemma parser_accepts_a_well_formed_line_witness :
  let r := parseResourceFileData stat zeroed w0 (Some (line_bytes a_bin)) in
  at_line_start PATH_MAX w0
  /\ well_formed PATH_MAX a_bin
  /\ stat (String.string_of_list_ascii (ml_path a_bin)) = Some 3
  /\ return_of r = Some 0
  /\ map symbol (registry_of r) = ["A"%string]
  /\ map size (registry_of r) = [3].
Proof.
  intros r.
  assert (H3 : stat (String.string_of_list_ascii (ml_path a_bin)) = Some 3) by reflexivity.
  pose proof (parser_accepts_a_well_formed_line PATH_MAX stat zeroed w0 a_bin 3
                sample_start sample_a_bin H3) as (C1 & _ & C3 & _).
  refine (conj sample_start (conj sample_a_bin (conj H3 (conj C1 _)))).
  fold r in C3. rewrite C3. split; evaluated.
Defined.

Lemma missing_file_is_fatal_witness :
  let r := parse_chars stat zeroed w0 (line_bytes missing ++ line_bytes a_bin) in
  at_line_start PATH_MAX w0
  /\ well_formed PATH_MAX missing
  /\ stat (String.string_of_list_ascii (ml_path missing)) = None
  /\ return_of r = Some (-1)
  /\ registry_of r = []
  /\ stderr (world_after r) = [AccessFailed 0 "missing.bin"].
Proof.
  intros r.
  assert (H3 : stat (String.string_of_list_ascii (ml_path missing)) = None) by reflexivity.
  pose proof (missing_file_is_fatal PATH_MAX stat zeroed w0 missing (line_bytes a_bin)
                sample_start sample_missing H3) as (C1 & C2 & C3).
  exact (conj sample_start (conj sample_missing (conj H3 (conj C1 (conj C2 C3))))).
Defined.

Lemma last_record_is_registered_at_end_of_input_witness :
  let r := parse_manifest stat zeroed w0 [record_bytes a_bin] in
  at_line_start PATH_MAX w0
  /\ well_formed PATH_MAX a_bin
  /\ stat (String.string_of_list_ascii (ml_path a_bin)) = Some 3
  /\ return_of r = Some 0
  /\ map symbol (registry_of r) = ["A"%string]
  /\ stderr (world_after r) = [].
Proof.
  intros r.
  assert (H3 : stat (String.string_of_list_ascii (ml_path a_bin)) = Some 3) by reflexivity.
  pose proof (last_record_is_registered_at_end_of_input PATH_MAX stat zeroed w0 a_bin 3
                sample_start sample_a_bin H3) as (C1 & C2 & C3).
  refine (conj sample_start (conj sample_a_bin (conj H3 (conj C1 (conj _ C3))))).
  fold r in C2. rewrite C2. evaluated.
Defined.

Lemma well_formed_manifest_is_registered_witness :
  let chunks := [line_bytes a_bin ++ bytes "te"; bytes "xt" ++ drop 4 (line_bytes greeting);
                 line_bytes b_blob] in
  let r := feed_chunks stat zeroed w0 chunks in
  at_line_start PATH_MAX w0
  /\ 0 <= lineno (statics w0) < 2 ^ 32
  /\ Forall (well_formed PATH_MAX) lines
  /\ Forall (fun m => is_Some (stat (String.string_of_list_ascii (ml_path m)))) lines
  /\ concat chunks = concat (map line_bytes lines)
  /\ return_of r = Some 0
  /\ map symbol (registry_of r) = ["A"; "GREETING"; "B"]%string
  /\ map type (registry_of r) = [BINARY; TEXT; BINARY]
  /\ stderr (world_after r) = [UnknownType "blob" 2].
Proof.
  intros chunks r.
  assert (H2 : 0 <= lineno (statics w0) < 2 ^ 32) by (split; evaluated).
  assert (H5 : concat chunks = concat (map line_bytes lines)) by evaluated.
  pose proof (well_formed_manifest_is_registered PATH_MAX stat zeroed w0 lines chunks
                sample_start H2 sample_lines sample_lines_found H5)
    as (C1 & C2 & _ & _ & C5 & _).
  refine (conj sample_start (conj H2 (conj sample_lines (conj sample_lines_found
           (conj H5 (conj C1 _)))))).
  fold r in C2, C5. rewrite C2, C5. repeat split; evaluated.
Defined.

Lemma line_break_before_the_path_is_fatal_witness :
  let r := parse_chars stat zeroed w0 (bytes "binary" ++ NEWLINE :: []) in
  at_line_start PATH_MAX w0
  /\ well_formed PATH_MAX a_bin
  /\ return_of r = Some (-1)
  /\ stderr (world_after r) = [TypeGotNewline 0].
Proof.
  intros r.
  pose proof (line_break_before_the_path_is_fatal PATH_MAX stat zeroed w0 a_bin []
                sample_start sample_a_bin) as ((C1 & _ & C3) & _).
  exact (conj sample_start (conj sample_a_bin (conj C1 C3))).
Defined.

Lemma overlong_field_is_fatal_witness :
  let l := replicate 32 "k"%char in
  let r := parse_chars stat zeroed w0 (l ++ "k"%char :: []) in
  at_line_start PATH_MAX w0
  /\ well_formed PATH_MAX a_bin
  /\ (TAB ∉ l) /\ (NEWLINE ∉ l) /\ (NUL ∉ l)
  /\ "k"%char <> TAB /\ "k"%char <> NEWLINE
  /\ sizeof l = 32
  /\ return_of r = Some (-1)
  /\ stderr (world_after r)
     = [TypeTooLong 0 (String.string_of_list_ascii (replicate 31 "k"%char))].
Proof.
  intros l r.
  assert (H3 : TAB ∉ l) by absent.
  assert (H4 : NEWLINE ∉ l) by absent.
  assert (H5 : NUL ∉ l) by absent.
  assert (H6 : "k"%char <> TAB) by discriminate.
  assert (H7 : "k"%char <> NEWLINE) by discriminate.
  assert (H8 : sizeof l = 32) by reflexivity.
  pose proof (overlong_field_is_fatal PATH_MAX stat zeroed w0 a_bin l "k"%char []
                sample_start sample_a_bin H3 H4 H5 H6 H7) as (C & _).
  destruct (C H8) as (C1 & _ & C3).
  exact (conj sample_start (conj sample_a_bin (conj H3 (conj H4 (conj H5 (conj H6
           (conj H7 (conj H8 (conj C1 C3))))))))).
Defined.

Lemma sample_sources (q : Registration) :
  q ∈ three ->
  readable contents (reg_filename q) (file (reg_filename q))
  /\ reg_filesize q = Z.of_nat (length (file (reg_filename q)))
  /\ reg_filesize q < INT_MAX
  /\ blk_ignore (reg_block q) <> TRUE.
Proof.
  intros Hq. unfold three in Hq. each_member Hq.
  - split; [is_readable (bytes "abc") | repeat split; evaluated].
  - split; [is_readable (bytes "hi") | repeat split; evaluated].
  - split; [is_readable (bytes "01234567") | repeat split; evaluated].
Defined.

Lemma object_file_matches_its_headers_witness :
  let out := writeELFRelocatable cls contents (Some "out.o"%string) (Some []) 0 laid_out in
  patchHeaders cls SelfOpenFails (Some own_header)
    (set_resources (register_all three) (initial_globals cls ELFDATA2LSB)) = (0, laid_out)
  /\ (7 + Z.of_nat (length three)) * sizeof_Sym cls + names_size three <= INT_MAX
  /\ declared_payload cls laid_out (resources laid_out) <= INT_MAX
  /\ 0 <> -1
  /\ out.1.1 = 0
  /\ exists fd payload,
       out.2 = Some fd
       /\ section_of cls (rodataHeader laid_out) (written fd) payload
       /\ written_bytes payload
          = bytes "abc" ++ replicate 5 NUL ++ bytes "hi" ++ replicate 6 NUL
            ++ bytes "01234567"
       /\ file_length cls (written fd) = 1049.
Proof.
  intros out.
  assert (H1 : patchHeaders cls SelfOpenFails (Some own_header)
                 (set_resources (register_all three) (initial_globals cls ELFDATA2LSB))
               = (0, laid_out)) by reflexivity.
  assert (H2 : (7 + Z.of_nat (length three)) * sizeof_Sym cls + names_size three
               <= INT_MAX) by evaluated.
  assert (H3 : declared_payload cls laid_out (resources laid_out) <= INT_MAX)
    by evaluated.
  assert (H5 : 0 <> -1) by discriminate.
  pose proof (object_file_matches_its_headers cls contents _ _ _ _ file _
                "out.o"%string 0 H1 H2 H3 sample_sources H5)
    as (C1 & fd & strtab & payload & C2 & _ & _ & _ & _ & _ & _ & C8 & C9 & C10).
  refine (conj H1 (conj H2 (conj H3 (conj H5 (conj C1 _))))).
  exists fd, payload. split; [exact C2|]. split; [exact C8|]. split.
  - rewrite C9. evaluated.
  - rewrite C10. evaluated.
Defined.

Lemma loadResources_reads_a_regular_file_witness :
  let last := concat (map line_bytes lines) in
  let r := loadResources stat zeroed (Opened (map ReadBytes [] ++ ReadBytes last :: []) 0) w0 in
  Forall (fun chunk => sizeof chunk = 1024) []
  /\ sizeof last < 1024
  /\ return_of r = Some 0
  /\ map symbol (registry_of r) = ["A"; "GREETING"; "B"]%string.
Proof.
  intros last r.
  assert (H1 : Forall (fun chunk : list ascii => sizeof chunk = 1024) []) by constructor.
  assert (H2 : sizeof last < 1024) by evaluated.
  pose proof (loadResources_reads_a_regular_file stat zeroed [] last [] 0 w0 H1 H2) as C.
  refine (conj H1 (conj H2 _)). subst r. rewrite C. split; evaluated.
Defined.


Lemma sample_lines_readable (m : ManifestLine) :
  m ∈ lines ->
  exists content, readable contents (String.string_of_list_ascii (ml_path m)) content.
Proof.
  intros Hm. unfold lines in Hm. each_member Hm.
  - exists (bytes "abc"). is_readable (bytes "abc").
  - exists (bytes "hi"). is_readable (bytes "hi").
  - exists (bytes "01234567"). is_readable (bytes "01234567").
Defined.

Lemma well_formed_run_returns_0_witness :
  let resfile := concat (map line_bytes lines) in
  let r := run zeroed contents resfile in
  0 <= PATH_MAX < 2 ^ 32
  /\ sizeof resfile < 1024
  /\ Forall (well_formed PATH_MAX) lines
  /\ Forall (fun m => is_Some (stat (String.string_of_list_ascii (ml_path m)))) lines
  /\ exit_of r = Some 0
  /\ stderr (world_of r) = [UnknownType "blob" 2; EofExpectedSymbol].
Proof.
  intros resfile r.
  assert (H1 : 0 <= PATH_MAX < 2 ^ 32) by (split; evaluated).
  assert (H2 : objectOutput (invocation resfile) = Some "out.o"%string) by reflexivity.
  assert (H3 : writeCHeader (headerOutput (invocation resfile))
                 (header_ret (invocation resfile)) <> -1) by discriminate.
  assert (H4 : pathToSelf (invocation resfile) <> None) by discriminate.
  assert (H5 : self_image (invocation resfile) = SelfHeader own_header) by reflexivity.
  assert (H6 : manifest (invocation resfile)
               = Opened (map ReadBytes [] ++ ReadBytes resfile :: []) 0) by reflexivity.
  assert (H7 : Forall (fun chunk : list ascii => sizeof chunk = 1024) []) by constructor.
  assert (H8 : sizeof resfile < 1024) by evaluated.
  assert (H9 : (0 : Z) <> -1) by discriminate.
  assert (H10 : concat [] ++ resfile = concat (map line_bytes lines)) by reflexivity.
  assert (H13 : object_dest (invocation resfile) = Some []) by reflexivity.
  assert (H14 : object_close (invocation resfile) <> -1) by discriminate.
  pose proof (well_formed_run_returns_0 cls ELFDATA2LSB PATH_MAX stat zeroed contents
                (invocation resfile) lines own_header "out.o"%string [] resfile [] 0
                H1 H2 H3 H4 H5 H6 H7 H8 H9 H10 sample_lines sample_lines_found H13 H14)
    as (_ & C2 & _ & _ & C5).
  refine (conj H1 (conj H8 (conj sample_lines (conj sample_lines_found (conj C2 _))))).
  etransitivity; [exact (C5 sample_lines_readable)|]. evaluated.
Defined.

Lemma padding_is_the_distance_to_the_next_multiple_witness :
  0 <= 3 <= 6
  /\ sh_addralign (rodataHeader laid_out) = 2 ^ 3
  /\ 0 <= 3 < 2 ^ 32
  /\ padding cls laid_out 3 = 5
  /\ (3 + padding cls laid_out 3) mod 2 ^ 3 = 0.
Proof.
  assert (H1 : 0 <= 3 <= 6) by lia.
  assert (H2 : sh_addralign (rodataHeader laid_out) = 2 ^ 3) by reflexivity.
  assert (H3 : 0 <= 3 < 2 ^ 32) by lia.
  pose proof (padding_is_the_distance_to_the_next_multiple cls laid_out 3 3 H1 H2 H3)
    as (C1 & _).
  refine (conj H1 (conj H2 (conj H3 (conj _ C1)))). evaluated.
Defined.

Lemma failed_write_ends_the_emission_witness :
  let out := writeELFRelocatable cls contents (Some "out.o"%string)
               (Some (replicate 2 true ++ false :: [])) 0 laid_out in
  (2 < 13)%nat
  /\ out.1.1 = -1
  /\ exists fd, out.2 = Some fd
       /\ written fd = [WEhdr (hdr laid_out); WShdr nullHeader].
Proof.
  intros out.
  assert (H : (2 < 13)%nat) by lia.
  pose proof (failed_write_ends_the_emission cls contents "out.o"%string 0 laid_out 2 [] H)
    as (C1 & _ & fd & C3 & C4 & _).
  refine (conj H (conj C1 _)). exists fd. split; [exact C3 | exact C4].
Defined.


Lemma invocation_with_a_slash_is_not_looked_up_witness :
  (NUL ∉ String.list_ascii_of_string "/opt/elfrc")
  /\ 0 <= PATH_MAX
  /\ hd NUL (String.list_ascii_of_string "/opt/elfrc") = SLASH
  /\ strlen "/opt/elfrc" < PATH_MAX
  /\ findPathToSelf PATH_MAX cwd PATH_value stat_reg "/opt/elfrc" = SelfIs "/opt/elfrc".
Proof.
  assert (H1 : NUL ∉ String.list_ascii_of_string "/opt/elfrc") by absent.
  assert (H2 : 0 <= PATH_MAX) by evaluated.
  assert (H3 : hd NUL (String.list_ascii_of_string "/opt/elfrc") = SLASH) by reflexivity.
  assert (H4 : strlen "/opt/elfrc" < PATH_MAX) by evaluated.
  pose proof (invocation_with_a_slash_is_not_looked_up PATH_MAX cwd PATH_value stat_reg
                "/opt/elfrc" H1 H2) as (C & _).
  exact (conj H1 (conj H2 (conj H3 (conj H4 (C H3 H4))))).
Defined.

Lemma invocation_without_slash_is_searched_in_PATH_witness :
  (SLASH ∉ String.list_ascii_of_string "elfrc")
  /\ Forall (fun d => COLON ∉ String.list_ascii_of_string d) PATH_entries
  /\ PATH_value = Some (String.concat (String COLON EmptyString) PATH_entries)
  /\ findPathToSelf PATH_MAX cwd PATH_value stat_reg "elfrc" = SelfIs "/usr/bin/elfrc".
Proof.
  assert (H1 : SLASH ∉ String.list_ascii_of_string "elfrc") by absent.
  assert (H2 : Forall (fun d => COLON ∉ String.list_ascii_of_string d) PATH_entries)
    by (repeat constructor; absent).
  assert (H3 : PATH_value = Some (String.concat (String COLON EmptyString) PATH_entries))
    by reflexivity.
  pose proof (invocation_without_slash_is_searched_in_PATH PATH_MAX cwd PATH_value
                stat_reg "elfrc" PATH_entries H1 H2) as (_ & C & _).
  destruct (C H3) as (C1 & _).
  refine (conj H1 (conj H2 (conj H3 _))).
  apply (C1 ["/usr/local/bin"; EmptyString]%string "/usr/bin"%string ["/bin"%string]).
  - reflexivity.
  - discriminate.
  - reflexivity.
  - intros d' Hd' Hne. each_member Hd'; [evaluated | congruence].
Defined.

Lemma failed_open_cuts_the_payload_witness :
  let it := set_offsets 0 1 (registered (reg BINARY "A" "a.bin" 3)) in
  let post := [set_offsets 8 3 (registered (reg TEXT "GREETING" "greeting.txt" 2));
               set_offsets 16 12 (registered (reg BINARY "B" "b.bin" 8))] in
  let out := writeFiles cls contents_without_a laid_out empty_fd in
  resources laid_out = [] ++ it :: post
  /\ contents_without_a (filename it) = OpenFails
  /\ write_oks empty_fd = []
  /\ out.1.1 = 0
  /\ map ignore (resources out.1.2) = [TRUE; FALSE; FALSE]
  /\ written_bytes (written out.2) = bytes "hi" ++ replicate 6 NUL ++ bytes "01234567".
Proof.
  intros it post out.
  assert (H1 : resources laid_out = [] ++ it :: post) by reflexivity.
  assert (H2 : contents_without_a (filename it) = OpenFails) by reflexivity.
  assert (H3 : forall r, r ∈ [] ++ post ->
                 readable contents_without_a (filename r) (file (filename r))).
  { intros r Hr. cbn [app] in Hr. subst post. each_member Hr.
    - is_readable (bytes "hi").
    - is_readable (bytes "01234567"). }
  assert (H4 : write_oks empty_fd = []) by reflexivity.
  pose proof (failed_open_cuts_the_payload cls contents_without_a laid_out file [] post it
                empty_fd H1 H2 H3 H4) as (C1 & C2 & _).
  refine (conj H1 (conj H2 (conj H4 (conj C1 (conj C2 _))))). evaluated.
Defined.

End MoreExamples.
